(** * CHOMP motion planner: trajectory buffer and [ChompPlanner::solve]

    A shallow embedding of [chomp_trajectory.cpp] and [chomp_planner.cpp],
    and the properties of the trajectory buffer, the resampler, the
    interpolation fillers and the recovery loop that the specification
    states about them, followed by further properties of the same code:
    its edge cases, what it keeps, and how its operations compose. *)

From Stdlib Require Import ZArith Reals Machin Lra Lia Floats String.
From stdpp Require Import base tactics option list list_numbers.

Local Open Scope Z_scope.

(** ** Machine integers

    [size_t] is an unsigned 64-bit integer and [int] a signed 32-bit one;
    both are carried by [Z], and every operation of the source that can
    leave the range has its wrap-around written out. *)

Definition size_t_of (z : Z) : Z := z mod 2 ^ 64.

Definition int_of (z : Z) : Z := (z + 2 ^ 31) mod 2 ^ 32 - 2 ^ 31.

Definition INT_MAX : Z := 2 ^ 31 - 1.

(** ** Arithmetic on [double]

    The source computes on [double].  The operations it uses are gathered
    in a class, so that every function below is written once, from the
    source, and can be read on two carriers: the real numbers (the
    arithmetic the formulas of the specification are written in) and
    IEEE 754 binary64 (the arithmetic the compiled code runs). *)

Class DoubleOps (D : Type) := {
  d_of_Z : Z -> D;           (* conversion of an integer to [double] *)
  d_add : D -> D -> D;
  d_sub : D -> D -> D;
  d_mul : D -> D -> D;
  d_div : D -> D -> D;
  d_floor : D -> Z;          (* [floor], read back as an integer *)
}.

Declare Scope double_scope.
Delimit Scope double_scope with D.
Infix "+" := d_add : double_scope.
Infix "-" := d_sub : double_scope.
Infix "*" := d_mul : double_scope.
Infix "/" := d_div : double_scope.

(** A decimal literal [n/d] of the source, such as [0.02] or [0.03409]:
    numerator and denominator are exactly representable and the quotient is
    rounded once, as the literal is. *)
Definition d_lit `{DoubleOps D} (n d : Z) : D := (d_of_Z n / d_of_Z d)%D.

(** [pow(x, n)] for the small constant exponents of the source. *)
Fixpoint d_pow `{DoubleOps D} (x : D) (n : nat) : D :=
  match n with
  | O => d_of_Z 1
  | S O => x
  | S n' => (x * d_pow x n')%D
  end.

(** The real numbers. *)
#[export] Instance R_double : DoubleOps R := {
  d_of_Z := IZR;
  d_add := Rplus;
  d_sub := Rminus;
  d_mul := Rmult;
  d_div := Rdiv;
  d_floor := Zfloor;
}.

(** IEEE 754 binary64, through Rocq's primitive floats. *)
Module Binary64.

(** The integer part towards minus infinity of a binary64 value
    [(-1)^s * m * 2^e]; a NaN or an infinity has none (the conversion is
    undefined in C++) and is given 0. *)
Definition SFfloor (x : spec_float) : Z :=
  match x with
  | S754_finite s m e =>
      let v := if s then Z.neg m else Z.pos m in
      if 0 <=? e then v * 2 ^ e else v / 2 ^ (- e)
  | _ => 0
  end.

Definition of_Z (z : Z) : float :=
  SF2Prim (binary_normalize prec emax z 0 false).

Definition floor (x : float) : Z := SFfloor (Prim2SF x).

End Binary64.

#[export] Instance float_double : DoubleOps float := {
  d_of_Z := Binary64.of_Z;
  d_add := PrimFloat.add;
  d_sub := PrimFloat.sub;
  d_mul := PrimFloat.mul;
  d_div := PrimFloat.div;
  d_floor := Binary64.floor;
}.

(** ** External data: robot model, robot state, robot trajectory

    These classes belong to the robot-model library the planner is linked
    against; only what the two source files read and write is kept. *)

Inductive JointKind :=
  | Revolute (isContinuous : bool)
  | Prismatic
  | Planar
  | Floating
  | Fixed.

Record JointModel := {
  jm_kind : JointKind;
  getVariableCount : Z;
  getFirstVariableIndex : nat;
  getJointIndex : nat;
}.

Record JointModelGroup := {
  getActiveJointModels : list JointModel;
}.

(** A robot model, as far as [getJointModelGroup] shows it. *)
Definition RobotModel := string -> JointModelGroup.

(** A matrix of [double], row by row ([Eigen::MatrixXd]). *)
Abbreviation Matrix D := (list (list D)) (only parsing).

Section Buffer.

Context {D : Type} `{DoubleOps D}.

(** What a freshly resized matrix holds: Eigen's [resize] leaves the
    coefficients indeterminate. *)
Variable uninitialized : D.

Record RobotState := {
  variable_position : nat -> D;
  variable_velocity : nat -> D;
}.

Definition setVariablePosition (index : nat) (value : D) (s : RobotState) :=
  {| variable_position := fun k => if Nat.eqb k index then value else variable_position s k;
     variable_velocity := variable_velocity s |}.

Definition setVariableVelocity (index : nat) (value : D) (s : RobotState) :=
  {| variable_position := variable_position s;
     variable_velocity := fun k => if Nat.eqb k index then value else variable_velocity s k |}.

Record RobotTrajectory := {
  getGroup : JointModelGroup;
  waypoints : list RobotState;
  duration_from_previous : list D;
}.

Definition getWayPointCount (t : RobotTrajectory) : Z := Z.of_nat (length (waypoints t)).

Definition addSuffixWayPoint (state : RobotState) (dt : D) (t : RobotTrajectory) :=
  {| getGroup := getGroup t;
     waypoints := waypoints t ++ [state];
     duration_from_previous := duration_from_previous t ++ [dt] |}.

(** *** The trajectory buffer ([ChompTrajectory]) *)


Record ChompTrajectory := {
  planning_group_name_ : string;
  num_points_ : Z;
  num_joints_ : Z;
  discretization_ : D;
  duration_ : D;
  trajectory_ : Matrix D;
  start_index_ : Z;
  end_index_ : Z;
  full_trajectory_index_ : list Z;
}.

Definition getNumPoints (t : ChompTrajectory) : Z := num_points_ t.
Definition getNumJoints (t : ChompTrajectory) : Z := num_joints_ t.

(** [getTrajectoryPoint(i)], read. *)
Definition getTrajectoryPoint (t : ChompTrajectory) (i : Z) : option (list D) :=
  trajectory_ t !! Z.to_nat i.

(** [operator()(i, j)], read; the source does not check the indices, and a
    read outside the matrix is given [uninitialized]. *)
Definition at_ (m : Matrix D) (i j : Z) : D :=
  match m !! Z.to_nat i with
  | Some row => default uninitialized (row !! Z.to_nat j)
  | None => uninitialized
  end.

(** [operator()(i, j) = v]. *)
Definition set_at (m : Matrix D) (i j : Z) (v : D) : Matrix D :=
  match m !! Z.to_nat i with
  | Some row => <[Z.to_nat i := <[Z.to_nat j := v]> row]> m
  | None => m
  end.

(** [getTrajectoryPoint(i) = row]. *)
Definition set_row (m : Matrix D) (i : Z) (row : list D) : Matrix D :=
  <[Z.to_nat i := row]> m.

Definition with_trajectory (t : ChompTrajectory) (m : Matrix D) : ChompTrajectory :=
  {| planning_group_name_ := planning_group_name_ t;
     num_points_ := num_points_ t;
     num_joints_ := num_joints_ t;
     discretization_ := discretization_ t;
     duration_ := duration_ t;
     trajectory_ := m;
     start_index_ := start_index_ t;
     end_index_ := end_index_ t;
     full_trajectory_index_ := full_trajectory_index_ t |}.

(** [getJointTrajectory(j)]: column [j]. *)
Definition getJointTrajectory (t : ChompTrajectory) (j : Z) : list D :=
  map (fun row => default uninitialized (row !! Z.to_nat j)) (trajectory_ t).

(** [init()]: [trajectory_.resize(num_points_, num_joints_)]. *)
Definition init (num_points num_joints : Z) : Matrix D :=
  replicate (Z.to_nat num_points) (replicate (Z.to_nat num_joints) uninitialized).

(** [static_cast<size_t>(x)] of a [double]: truncation towards zero. *)
Definition double_to_size_t (x : D) : Z :=
  size_t_of (if d_floor x <? 0 then - d_floor (d_of_Z 0 - x)%D else d_floor x).

(** Constructor from a number of points. *)
Definition ChompTrajectory_of_points (robot_model : RobotModel) (num_points : Z)
    (discretization : D) (group_name : string) : ChompTrajectory :=
  let num_joints := Z.of_nat (length (getActiveJointModels (robot_model group_name))) in
  {| planning_group_name_ := group_name;
     num_points_ := num_points;
     num_joints_ := num_joints;
     discretization_ := discretization;
     duration_ := (d_of_Z (size_t_of (num_points - 1)) * discretization)%D;
     trajectory_ := init num_points num_joints;
     start_index_ := 1;
     end_index_ := size_t_of (num_points - 2);
     full_trajectory_index_ := [] |}.

(** Constructor from a duration: delegates with
    [static_cast<size_t>(duration / discretization) + 1] points. *)
Definition ChompTrajectory_of_duration (robot_model : RobotModel) (duration discretization : D)
    (group_name : string) : ChompTrajectory :=
  ChompTrajectory_of_points robot_model
    (size_t_of (double_to_size_t (duration / discretization)%D + 1))
    discretization group_name.

(** One turn of the copy loop of the padded-copy constructor, for the
    padded index [i]. *)
Definition padded_source_point (source_num_points start_extra i : Z) : Z :=
  let source_traj_point := int_of (size_t_of (i - size_t_of start_extra)) in
  let source_traj_point := if source_traj_point <? 0 then 0 else source_traj_point in
  if source_num_points <=? size_t_of source_traj_point
  then int_of (size_t_of (source_num_points - 1))
  else source_traj_point.

Definition padded_copy_step (source_traj : ChompTrajectory) (start_extra : Z)
    (acc : Matrix D * list Z) (i : Z) : Matrix D * list Z :=
  let source_traj_point := padded_source_point (num_points_ source_traj) start_extra i in
  let index := <[Z.to_nat i := size_t_of source_traj_point]> (snd acc) in
  match getTrajectoryPoint source_traj source_traj_point with
  | Some row => (set_row (fst acc) i row, index)
  | None => (fst acc, index)
  end.

(** [int start_extra = (diff_rule_length - 1) - source_traj.start_index_;]
    the difference is taken in [size_t] and stored in an [int]. *)
Definition padded_start_extra (source_traj : ChompTrajectory) (diff_rule_length : Z) : Z :=
  int_of (size_t_of (size_t_of (int_of (diff_rule_length - 1)) - start_index_ source_traj)).

(** [int end_extra = (diff_rule_length - 1)
                     - ((source_traj.num_points_ - 1) - source_traj.end_index_);] *)
Definition padded_end_extra (source_traj : ChompTrajectory) (diff_rule_length : Z) : Z :=
  int_of (size_t_of (size_t_of (int_of (diff_rule_length - 1))
                     - size_t_of (size_t_of (num_points_ source_traj - 1)
                                  - end_index_ source_traj))).

(** The padded-copy constructor. *)
Definition ChompTrajectory_padded (source_traj : ChompTrajectory) (group_name : string)
    (diff_rule_length : Z) : ChompTrajectory :=
  let num_joints := getNumJoints source_traj in
  let start_extra := padded_start_extra source_traj diff_rule_length in
  let end_extra := padded_end_extra source_traj diff_rule_length in
  let num_points :=
    size_t_of (size_t_of (num_points_ source_traj + size_t_of start_extra)
               + size_t_of end_extra) in
  let copied :=
    foldl (padded_copy_step source_traj start_extra)
          (init num_points num_joints, replicate (Z.to_nat num_points) 0)
          (seqZ 0 num_points) in
  {| planning_group_name_ := group_name;
     num_points_ := num_points;
     num_joints_ := num_joints;
     discretization_ := discretization_ source_traj;
     duration_ := (d_of_Z (size_t_of (num_points - 1)) * discretization_ source_traj)%D;
     trajectory_ := fst copied;
     start_index_ := size_t_of (int_of (diff_rule_length - 1));
     end_index_ := size_t_of (size_t_of (num_points - 1)
                              - size_t_of (int_of (diff_rule_length - 1)));
     full_trajectory_index_ := snd copied |}.

(** [m.block(start_row, 0, block_rows, block_cols)], read.  Eigen asserts
    that the block lies inside the matrix; a block that does not has no
    value. *)
Definition block (m : Matrix D) (start_row block_rows block_cols : Z) : option (Matrix D) :=
  if (start_row + block_rows <=? Z.of_nat (length m))
     && forallb (fun row => block_cols <=? Z.of_nat (length row)) m
  then Some (map (take (Z.to_nat block_cols))
                 (take (Z.to_nat block_rows) (drop (Z.to_nat start_row) m)))
  else None.

(** [m.block(start_row, 0, b.rows(), block_cols) = b], for a block [b] of
    [block_cols] columns. *)
Definition set_block (m : Matrix D) (start_row block_cols : Z) (b : Matrix D)
    : option (Matrix D) :=
  if (start_row + Z.of_nat (length b) <=? Z.of_nat (length m))
     && forallb (fun row => block_cols <=? Z.of_nat (length row)) m
  then Some (take (Z.to_nat start_row) m
             ++ zip_with (fun brow row => brow ++ drop (Z.to_nat block_cols) row)
                         b (drop (Z.to_nat start_row) m)
             ++ drop (Z.to_nat start_row + length b) m)
  else None.

(** [updateFromGroupTrajectory]: the block of the free rows of
    [group_trajectory], as many rows as the buffer has free rows and as
    many columns as it has joints, is assigned to the block of the free rows
    of the buffer. *)
Definition updateFromGroupTrajectory (t group_trajectory : ChompTrajectory)
    : option ChompTrajectory :=
  let num_vars_free := size_t_of (size_t_of (end_index_ t - start_index_ t) + 1) in
  match block (trajectory_ group_trajectory) (start_index_ group_trajectory)
              num_vars_free (num_joints_ t) with
  | Some b =>
      option_map (with_trajectory t)
                 (set_block (trajectory_ t) (start_index_ t) (num_joints_ t) b)
  | None => None
  end.

(** *** Interpolation fillers

    [start_index] and [end_index] are [double] variables in the source;
    they hold the indices of the two boundary rows, integers that a
    [double] carries exactly, and are kept as integers here.  They become
    [double] where the source computes a time or a slope from them. *)

(** [for (size_t j = first; j < last; j++)] over a matrix. *)
Definition for_range (first last : Z) (body : Matrix D -> Z -> Matrix D) (m : Matrix D) : Matrix D :=
  foldl body m (seqZ first (last - first)).

Definition fillInLinearInterpolation (t : ChompTrajectory) : ChompTrajectory :=
  let start_index := size_t_of (start_index_ t - 1) in
  let end_index := size_t_of (end_index_ t + 1) in
  with_trajectory t
    (for_range 0 (num_joints_ t) (fun m i =>
       let theta := ((at_ m end_index i - at_ m start_index i)
                     / (d_of_Z end_index - d_of_Z 1))%D in
       for_range (start_index + 1) end_index (fun m j =>
         set_at m j i (at_ m start_index i + d_of_Z j * theta)%D) m)
     (trajectory_ t)).

Definition fillInCubicInterpolation (t : ChompTrajectory) : ChompTrajectory :=
  let start_index := size_t_of (start_index_ t - 1) in
  let end_index := size_t_of (end_index_ t + 1) in
  let dt := d_lit 1 1000 in
  let total_time := ((d_of_Z end_index - d_of_Z 1) * dt)%D in
  with_trajectory t
    (for_range 0 (num_joints_ t) (fun m i =>
       let c0 := at_ m start_index i in
       let c2 := ((d_of_Z 3 / d_pow total_time 2)
                  * (at_ m end_index i - at_ m start_index i))%D in
       let c3 := ((d_of_Z (-2) / d_pow total_time 3)
                  * (at_ m end_index i - at_ m start_index i))%D in
       for_range (start_index + 1) end_index (fun m j =>
         let t := (d_of_Z j * dt)%D in
         set_at m j i (c0 + c2 * d_pow t 2 + c3 * d_pow t 3)%D) m)
     (trajectory_ t)).

(** [p[0] = 1.0; p[1] = x; p[k] = p[k-1] * p[1]] for [k = 2..5]. *)
Definition powers (x : D) : list D :=
  let p0 := d_of_Z 1 in
  let p1 := x in
  let p2 := (p1 * p1)%D in
  let p3 := (p2 * p1)%D in
  let p4 := (p3 * p1)%D in
  let p5 := (p4 * p1)%D in
  [p0; p1; p2; p3; p4; p5].

(** The six spline coefficients of one joint, for the special case of
    zero start and end velocity and acceleration; [td] holds the powers of
    the time between the two boundary rows. *)
Definition minjerk_coeff (td : list D) (x0 x1 : D) : list D :=
  let td3 := default uninitialized (td !! 3%nat) in
  let td4 := default uninitialized (td !! 4%nat) in
  let td5 := default uninitialized (td !! 5%nat) in
  [ x0;
    d_of_Z 0;
    d_of_Z 0;
    ((d_of_Z (-20) * x0 + d_of_Z 20 * x1) / (d_of_Z 2 * td3))%D;
    ((d_of_Z 30 * x0 - d_of_Z 30 * x1) / (d_of_Z 2 * td4))%D;
    ((d_of_Z (-12) * x0 + d_of_Z 12 * x1) / (d_of_Z 2 * td5))%D ].

(** [x = 0.0; for k = 0..5: x += ti[k] * coeff[k]]. *)
Definition accumulate (ti coeff : list D) : D :=
  foldl (fun acc tc => (acc + fst tc * snd tc)%D) (d_of_Z 0) (zip ti coeff).

Definition fillInMinJerk (t : ChompTrajectory) : ChompTrajectory :=
  let start_index := size_t_of (start_index_ t - 1) in
  let end_index := size_t_of (end_index_ t + 1) in
  let td := powers (d_of_Z (end_index - start_index) * discretization_ t)%D in
  let coeff :=
    map (fun i => minjerk_coeff td (at_ (trajectory_ t) start_index i)
                                   (at_ (trajectory_ t) end_index i))
        (seqZ 0 (num_joints_ t)) in
  with_trajectory t
    (for_range (start_index + 1) end_index (fun m i =>
       let ti := powers (d_of_Z (i - start_index) * discretization_ t)%D in
       for_range 0 (num_joints_ t) (fun m j =>
         set_at m i j (accumulate ti (default [] (coeff !! Z.to_nat j)))) m)
     (trajectory_ t)).

(** *** Filling the buffer from an external trajectory

    A call that reads a waypoint or a row that does not exist, or that
    trips one of the two [assert]s, does not return: [None]. *)

Fixpoint for_each {S : Type} (body : S -> Z -> option S) (l : list Z) (s : S) : option S :=
  match l with
  | [] => Some s
  | i :: l' =>
      match body s i with
      | Some s' => for_each body l' s'
      | None => None
      end
  end.

Definition assignCHOMPTrajectoryPointFromInputTrajectoryPoint
    (trajectory : RobotTrajectory) (trajectory_point_index chomp_trajectory_point_index : Z)
    (m : Matrix D) : option (Matrix D) :=
  match waypoints trajectory !! Z.to_nat trajectory_point_index,
        m !! Z.to_nat chomp_trajectory_point_index with
  | Some source, Some target =>
      let joints := getActiveJointModels (getGroup trajectory) in
      if negb (Z.of_nat (length joints) =? Z.of_nat (length target)) then None
      else if negb (forallb (fun jm => getVariableCount jm =? 1) joints) then None
      else Some (set_row m chomp_trajectory_point_index
                   (map (fun jm => variable_position source (getJointIndex jm)) joints))
  | _, _ => None
  end.

Definition unsigned_of (z : Z) : Z := z mod 2 ^ 32.

(** The source index that the decimation branch samples for row [i]:
    [floor(i * decimation_sampling_factor)]. *)
Definition sampled_point (num_input_points num_chomp_trajectory_points i : Z) : Z :=
  let decimation_sampling_factor :=
    (d_of_Z num_input_points / d_of_Z num_chomp_trajectory_points)%D in
  size_t_of (d_floor (d_of_Z i * decimation_sampling_factor)%D).

(** One assignment of the repetition branch, with its
    [response_point_id++]. *)
Definition emit_point (trajectory : RobotTrajectory) (i : Z) (st : Z * Matrix D)
    : option (Z * Matrix D) :=
  let '(response_point_id, m) := st in
  match assignCHOMPTrajectoryPointFromInputTrajectoryPoint
          trajectory i response_point_id m with
  | Some m' => Some (response_point_id + 1, m')
  | None => None
  end.

(** The body of the loop over the input points, for input point [i]:
    [repeated_factor] copies, and one more when
    [i < repeated_balance_factor]. *)
Definition repeat_point (trajectory : RobotTrajectory)
    (repeated_factor repeated_balance_factor : Z) (st : Z * Matrix D) (i : Z)
    : option (Z * Matrix D) :=
  match for_each (fun st _ => emit_point trajectory i st) (seqZ 0 repeated_factor) st with
  | Some st => if i <? repeated_balance_factor then emit_point trajectory i st else Some st
  | None => None
  end.

Definition fillInFromTrajectory (t : ChompTrajectory) (trajectory : RobotTrajectory)
    : option (bool * ChompTrajectory) :=
  let num_chomp_trajectory_points := getNumPoints t in
  let num_input_points := getWayPointCount trajectory in
  if num_input_points <? 2 then Some (false, t)
  else
    let repeated_factor := unsigned_of (num_chomp_trajectory_points / num_input_points) in
    let repeated_balance_factor :=
      unsigned_of (num_chomp_trajectory_points mod num_input_points) in
    let filled :=
      if num_input_points <=? num_chomp_trajectory_points then
        option_map snd
          (for_each (repeat_point trajectory repeated_factor repeated_balance_factor)
                    (seqZ 0 num_input_points) (0, trajectory_ t))
      else
        for_each (fun m i =>
            assignCHOMPTrajectoryPointFromInputTrajectoryPoint trajectory
              (sampled_point num_input_points num_chomp_trajectory_points i) i m)
          (seqZ 0 num_chomp_trajectory_points) (trajectory_ t)
    in
    match filled with
    | Some m => Some (true, with_trajectory t m)
    | None => None
    end.

End Buffer.

Arguments ChompTrajectory D : clear implicits.
Arguments RobotState D : clear implicits.
Arguments RobotTrajectory D : clear implicits.


(** * The planner: [ChompPlanner::solve] *)

Inductive MoveItErrorCode :=
  | SUCCESS
  | FAILURE
  | PLANNING_FAILED
  | INVALID_MOTION_PLAN
  | INVALID_ROBOT_STATE
  | INVALID_GOAL_CONSTRAINTS
  | GOAL_CONSTRAINTS_VIOLATED.

(** How a call ends: it returns, it does not return normally (a failed
    [assert], an access outside a vector), or the model ran out of fuel. *)
Inductive Outcome (A : Type) :=
  | Returned (a : A)
  | Aborted
  | OutOfFuel.
Arguments Returned {A} a.
Arguments Aborted {A}.
Arguments OutOfFuel {A}.

Definition bind {A B : Type} (o : Outcome A) (k : A -> Outcome B) : Outcome B :=
  match o with
  | Returned a => k a
  | Aborted => Aborted
  | OutOfFuel => OutOfFuel
  end.

Definition checked {A : Type} (o : option A) : Outcome A :=
  match o with
  | Some a => Returned a
  | None => Aborted
  end.

Declare Scope outcome_scope.
Delimit Scope outcome_scope with outcome.
Notation "'let*' x ':=' o 'in' k" := (bind o (fun x => k))
  (at level 10, x pattern, o at level 100, k at level 200) : outcome_scope.

Fixpoint foldM {A S : Type} (body : S -> A -> Outcome S) (l : list A) (s : S) : Outcome S :=
  match l with
  | [] => Returned s
  | a :: l' => bind (body s a) (foldM body l')
  end.

Section Planner.

Context {D : Type} `{DoubleOps D}.
Variable uninitialized : D.

(** The fields of [ChompParameters] that [solve] reads or writes. *)
Record ChompParameters := {
  planning_time_limit_ : D;
  max_iterations_ : Z;
  max_recovery_attempts_ : Z;
  learning_rate_ : D;
  ridge_factor_ : D;
  enable_failure_recovery_ : bool;
  trajectory_initialization_method_ : string;
  demo_type_ : string;
}.

(** Modelled from the spec: [ChompParameters::setRecoveryParams] is
    declared in a header that is not part of the sources; the spec has the
    escalation and the restoration assign the four fields learningRate,
    ridgeFactor, planningTimeLimit and maxIterations, and nothing else. *)
Definition setRecoveryParams (learning_rate ridge_factor planning_time_limit : D)
    (max_iterations : Z) (p : ChompParameters) : ChompParameters :=
  {| planning_time_limit_ := planning_time_limit;
     max_iterations_ := max_iterations;
     max_recovery_attempts_ := max_recovery_attempts_ p;
     learning_rate_ := learning_rate;
     ridge_factor_ := ridge_factor;
     enable_failure_recovery_ := enable_failure_recovery_ p;
     trajectory_initialization_method_ := trajectory_initialization_method_ p;
     demo_type_ := demo_type_ p |}.

Record JointConstraint := {
  joint_name : string;
  position : D;
}.

Record Constraints := {
  joint_constraints : list JointConstraint;
  position_constraints : list unit;
  orientation_constraints : list unit;
}.

Record PlanningScene := {
  getCurrentState : RobotState D;
  getRobotModel : RobotModel;
}.

(** The three calls [solve] makes on an optimizer it has built. *)
Record ChompOptimizer := {
  isInitialized : bool;
  (** [optimize()] works on the buffer it was given a pointer to *)
  optimize : bool * Matrix D;
  isCollisionFree : bool;
}.

(** The collaborators of [solve]: functions of other libraries and of
    headers and files outside the two sources. *)
Record Collaborators (RobotStateMsg : Type) := {
  robotStateMsgToRobotState : PlanningScene -> RobotStateMsg -> RobotState D -> RobotState D;
  satisfiesBounds : RobotState D -> bool;
  getVariableIndex : string -> nat;
  (** [robotStateToArray(state, group, row)] of [chomp_utils.h] *)
  robotStateToArray : RobotState D -> string -> list D -> list D;
  (** [shortestAngularDistance(start, end)] of [chomp_utils.h] *)
  shortestAngularDistance : D -> D -> D;
  (** [ChompOptimizer::csvRead(matrix, path, precision)]: the matrix read *)
  csvRead : string -> Z -> Matrix D;
  (** the [n]-th optimizer built during this call, [n] counted from 0 *)
  new_ChompOptimizer : nat -> ChompTrajectory D -> PlanningScene -> string ->
                       ChompParameters -> RobotState D -> ChompOptimizer;
  (** [ChompCost::getDiffMatrix(num_point, DIFF_RULES[0])] *)
  getDiffMatrix : Z -> Matrix D;
  (** [kinematic_constraints::JointConstraint]: [configure], [decide] *)
  jc_configure : JointConstraint -> bool;
  jc_decide_satisfied : JointConstraint -> RobotState D -> bool;
  (** wall-clock seconds between entry and the end of the output loop *)
  elapsed : D;
}.

Record MotionPlanRequest (RobotStateMsg : Type) := {
  start_state : RobotStateMsg;
  group_name : string;
  goal_constraints : list Constraints;
}.

Record MotionPlanDetailedResponse := {
  res_trajectory_ : list (RobotTrajectory D);
  processing_time_ : list D;
  error_code_ : MoveItErrorCode;
}.

Definition set_error_code (val : MoveItErrorCode) (res : MotionPlanDetailedResponse) :=
  {| res_trajectory_ := res_trajectory_ res;
     processing_time_ := processing_time_ res;
     error_code_ := val |}.

(** What [solve] does that a caller or a collaborator can observe, in
    order. *)
Inductive Event :=
  | ROS_ERROR (msg : string)
  | NewOptimizer (trajectory : ChompTrajectory D) (parameters : ChompParameters)
  | Optimize (optimization_result : bool).

(** *** Goal adjustment for wrap-around joints (lines 102-119) *)

Definition fix_goal_step (sad : D -> D -> D) (joints : list JointModel) (goal_index : Z)
    (m : Matrix D) (i : Z) : Matrix D :=
  match joints !! Z.to_nat i with
  | Some model =>
      match jm_kind model with
      | Revolute true =>
          let start := at_ uninitialized m 0 i in
          let end_ := at_ uninitialized m goal_index i in
          set_at m goal_index i (start + sad start end_)%D
      | _ => m
      end
  | None => m
  end.

Definition fix_goal (sad : D -> D -> D) (joints : list JointModel) (goal_index : Z)
    (m : Matrix D) : Matrix D :=
  foldl (fix_goal_step sad joints goal_index) m (seqZ 0 (Z.of_nat (length joints))).

(** *** Initial trajectory by the configured method (lines 121-181) *)

(** Modelled from the spec: [ChompTrajectory::setTrajectory] is declared in
    a header that is not part of the sources; the spec has the file-backed
    initialization read a numeric matrix of points by joints that becomes
    the content of the buffer. *)
Definition setTrajectory (trajectory : ChompTrajectory D) (fill_trajectory : Matrix D)
    : ChompTrajectory D :=
  with_trajectory trajectory fill_trajectory.

Definition initial_fill {M : Type} (ext : Collaborators M) (params : ChompParameters)
    (trajectory : ChompTrajectory D) : ChompTrajectory D * list Event :=
  let method := trajectory_initialization_method_ params in
  if String.eqb method "quintic-spline" then (fillInMinJerk uninitialized trajectory, [])
  else if String.eqb method "linear" then (fillInLinearInterpolation uninitialized trajectory, [])
  else if String.eqb method "cubic" then (fillInCubicInterpolation uninitialized trajectory, [])
  else if String.eqb method "equal" then
    let fill_pathname :=
      ("/home/deng/ros/ws_moveit/src/moveit/moveit_planners/resource/average_datas/Pdtw_"
       ++ demo_type_ params ++ "_forward_" ++ "average.csv")%string in
    (setTrajectory trajectory (csvRead M ext fill_pathname 8), [])
  else
    (trajectory,
     [ROS_ERROR "invalid interpolation method specified in the chomp_planner file"]).

(** *** The recovery loop (lines 186-250) *)

Record LoopState := {
  replan_count : Z;
  replan_flag : bool;
  params_nonconst : ChompParameters;
  loop_trajectory : ChompTrajectory D;
  optimizer : option ChompOptimizer;
  built : nat;
  loop_trace : list Event;
}.

(** How the loop is left: by [break], or by the [return false] of a
    failed optimizer initialization. *)
Inductive LoopExit :=
  | Break (st : LoopState)
  | InitFailed (st : LoopState).

Definition escalate (p : ChompParameters) : ChompParameters :=
  setRecoveryParams (learning_rate_ p + d_lit 2 100)%D
                    (ridge_factor_ p + d_lit 2 1000)%D
                    (planning_time_limit_ p + d_of_Z 5)%D
                    (int_of (max_iterations_ p + 50)) p.

Fixpoint recovery_loop {M : Type} (ext : Collaborators M) (scene : PlanningScene)
    (group : string) (start : RobotState D) (fuel : nat) (st : LoopState)
    : Outcome LoopExit :=
  match fuel with
  | O => OutOfFuel
  | S fuel' =>
      let params := if replan_flag st then escalate (params_nonconst st)
                    else params_nonconst st in
      let opt := new_ChompOptimizer M ext (built st) (loop_trajectory st) scene group
                                    params start in
      let created := loop_trace st ++ [NewOptimizer (loop_trajectory st) params] in
      if negb (isInitialized opt) then
        Returned (InitFailed
          {| replan_count := replan_count st;
             replan_flag := replan_flag st;
             params_nonconst := params;
             loop_trajectory := loop_trajectory st;
             optimizer := Some opt;
             built := S (built st);
             loop_trace := created ++ [ROS_ERROR "Could not initialize optimizer"] |})
      else
        let optimization_result := fst (optimize opt) in
        let trajectory := with_trajectory (loop_trajectory st) (snd (optimize opt)) in
        let after retry count :=
          {| replan_count := count;
             replan_flag := retry;
             params_nonconst := params;
             loop_trajectory := trajectory;
             optimizer := Some opt;
             built := S (built st);
             loop_trace := created ++ [Optimize optimization_result] |} in
        if enable_failure_recovery_ params then
          if negb optimization_result && (replan_count st <? max_recovery_attempts_ params)
          then recovery_loop ext scene group start fuel'
                 (after true (int_of (replan_count st + 1)))
          else Returned (Break (after (replan_flag st) (replan_count st)))
        else Returned (Break (after (replan_flag st) (replan_count st)))
  end.

(** *** Output waypoints and their velocities (lines 261-293) *)

Definition dot (row v : list D) : D :=
  foldl (fun acc ab => (acc + fst ab * snd ab)%D) (d_of_Z 0) (zip row v).

(** [diff_matrix * column] *)
Definition mat_vec (m : Matrix D) (v : list D) : list D := map (fun row => dot row v) m.

(** [velocity_matrix], column by column. *)
Definition velocity_columns (diff_matrix : Matrix D) (trajectory : ChompTrajectory D)
    : list (list D) :=
  map (fun i => mat_vec diff_matrix (getJointTrajectory uninitialized trajectory i))
      (seqZ 0 (getNumJoints trajectory)).

(** The body of the loop over the active joints, for output row [i]. *)
Definition output_joint (source : list D) (boundary : bool) (initial_vel : list D)
    (velocity_matrix : list (list D)) (i : Z)
    (acc : RobotState D * nat * nat) (jm : JointModel) : Outcome (RobotState D * nat * nat) :=
  let '(state, joint_index, vel_index) := acc in
  if negb (getVariableCount jm =? 1) then Aborted
  else
    (let* p := checked (source !! joint_index) in
     let state := setVariablePosition (getFirstVariableIndex jm) p state in
     let* v := checked (if boundary then initial_vel !! vel_index
                        else velocity_matrix !! vel_index ≫= (.!! Z.to_nat i)) in
     Returned (setVariableVelocity (getFirstVariableIndex jm) v state,
               S joint_index, S vel_index))%outcome.

Definition output_trajectory (diff_matrix : Matrix D) (group : JointModelGroup)
    (start_state : RobotState D) (trajectory : ChompTrajectory D)
    : Outcome (RobotTrajectory D) :=
  let num_point := getNumPoints trajectory in
  let result := {| getGroup := group; waypoints := []; duration_from_previous := [] |} in
  let initial_vel := replicate 7 (d_of_Z 0) in
  let velocity_matrix := velocity_columns diff_matrix trajectory in
  foldM (fun result i =>
           (let* source := checked (getTrajectoryPoint trajectory i) in
            let boundary := (i =? 0) || (i =? size_t_of (num_point - 1)) in
            let* filled := foldM (output_joint source boundary initial_vel velocity_matrix i)
                                 (getActiveJointModels (getGroup result))
                                 (start_state, O, O) in
            Returned (addSuffixWayPoint (fst (fst filled)) (d_lit 1 10) result))%outcome)
        (seqZ 0 num_point) result.

(** *** [solve] *)

Record SolveReturn := {
  ret : bool;
  response : MotionPlanDetailedResponse;
  (** the caller's parameter set, behind the [const] reference *)
  params_after : ChompParameters;
  (** the local copy [params_nonconst], once it exists *)
  params_nonconst_after : option ChompParameters;
  trace : list Event;
}.

(** [robotStateToArray(state, group, trajectory.getTrajectoryPoint(i))] *)
Definition write_state_row {M : Type} (ext : Collaborators M) (state : RobotState D)
    (group : string) (i : Z) (m : Matrix D) : Matrix D :=
  match m !! Z.to_nat i with
  | Some row => set_row m i (robotStateToArray M ext state group row)
  | None => m
  end.

Definition goal_check {M : Type} (ext : Collaborators M) (last_state : RobotState D)
    (constraints : list JointConstraint) : option JointConstraint :=
  List.find (fun constraint =>
               negb (jc_configure M ext constraint)
               || negb (jc_decide_satisfied M ext constraint last_state))
            constraints.

(** Lines 69-119: the buffer with the start state in its first row, the
    goal state in its last row, and the goal adjusted for the wrap-around
    joints. *)
Definition boundary_trajectory {M : Type} (ext : Collaborators M) (scene : PlanningScene)
    (group : string) (start_state goal_state : RobotState D) : ChompTrajectory D :=
  let trajectory :=
    ChompTrajectory_of_duration uninitialized (getRobotModel scene)
      (d_of_Z 3) (d_lit 3409 100000) group in
  let trajectory :=
    with_trajectory trajectory (write_state_row ext start_state group 0 (trajectory_ trajectory)) in
  let goal_index := size_t_of (getNumPoints trajectory - 1) in
  let trajectory :=
    with_trajectory trajectory
      (write_state_row ext goal_state group goal_index (trajectory_ trajectory)) in
  let model_group := getRobotModel scene group in
  with_trajectory trajectory
    (fix_goal (shortestAngularDistance M ext) (getActiveJointModels model_group)
              goal_index (trajectory_ trajectory)).

(** Lines 88-90: the goal state. *)
Definition goal_state_of {M : Type} (ext : Collaborators M) (start_state : RobotState D)
    (goal : Constraints) : RobotState D :=
  foldl (fun s joint_constraint =>
           setVariablePosition (getVariableIndex M ext (joint_name joint_constraint))
                               (position joint_constraint) s)
        start_state (joint_constraints goal).

(** Lines 183-328: the recovery loop on the initialized buffer, the output
    and the two final checks. *)
Definition optimize_and_report {M : Type} (ext : Collaborators M) (scene : PlanningScene)
    (group : string) (start_state : RobotState D) (goal : Constraints)
    (params : ChompParameters) (res : MotionPlanDetailedResponse)
    (trajectory : ChompTrajectory D) (filled_trace : list Event) : Outcome SolveReturn :=
  let org_learning_rate := learning_rate_ params in
  let org_ridge_factor := ridge_factor_ params in
  let org_planning_time_limit := planning_time_limit_ params in
  let org_max_iterations := max_iterations_ params in
  match
    recovery_loop ext scene group start_state (S (Z.to_nat (max_recovery_attempts_ params)))
      {| replan_count := 0; replan_flag := false;
         params_nonconst := params; (* [ChompParameters params_nonconst = params;] *)
         loop_trajectory := trajectory; optimizer := None; built := O;
         loop_trace := filled_trace |}
  with
  | OutOfFuel => OutOfFuel
  | Aborted => Aborted
  | Returned (InitFailed st) =>
      Returned {| ret := false; response := set_error_code PLANNING_FAILED res;
                  params_after := params;
                  params_nonconst_after := Some (params_nonconst st);
                  trace := loop_trace st |}
  | Returned (Break st) =>
      let restored :=
        setRecoveryParams org_learning_rate org_ridge_factor org_planning_time_limit
                          org_max_iterations (params_nonconst st) in
      let trajectory := loop_trajectory st in
      (let* result := output_trajectory (getDiffMatrix M ext (getNumPoints trajectory))
                                        (getRobotModel scene group) start_state trajectory in
       let res := {| res_trajectory_ := [result];
                     processing_time_ := [elapsed M ext];
                     error_code_ := SUCCESS |} in
       let* optimizer := checked (optimizer st) in
       if negb (isCollisionFree optimizer) then
         Returned {| ret := false; response := set_error_code INVALID_MOTION_PLAN res;
                     params_after := params; params_nonconst_after := Some restored;
                     trace := loop_trace st ++ [ROS_ERROR "Motion plan is invalid."] |}
       else
         let* last_state := checked (last (waypoints result)) in
         match goal_check ext last_state (joint_constraints goal) with
         | Some constraint =>
             Returned {| ret := false; response := set_error_code GOAL_CONSTRAINTS_VIOLATED res;
                         params_after := params; params_nonconst_after := Some restored;
                         trace := loop_trace st
                                  ++ [ROS_ERROR ("Goal constraints are violated: "
                                                 ++ joint_name constraint)] |}
         | None =>
             Returned {| ret := true; response := res;
                         params_after := params; params_nonconst_after := Some restored;
                         trace := loop_trace st |}
         end)%outcome
  end.

(** A goal that is not a joint-space goal (line 79). *)
Definition unsupported_goal (goal : Constraints) : bool :=
  (match joint_constraints goal with [] => true | _ => false end)
  || (match position_constraints goal with [] => false | _ => true end)
  || (match orientation_constraints goal with [] => false | _ => true end).

Definition solve {M : Type} (ext : Collaborators M) (planning_scene : option PlanningScene)
    (req : MotionPlanRequest M) (params : ChompParameters)
    (res : MotionPlanDetailedResponse) : Outcome SolveReturn :=
  let fail code trace :=
    Returned {| ret := false; response := set_error_code code res; params_after := params;
                params_nonconst_after := None; trace := trace |} in
  match planning_scene with
  | None => fail FAILURE [ROS_ERROR "No planning scene initialized."]
  | Some scene =>
      let group := group_name M req in
      let start_state :=
        robotStateMsgToRobotState M ext scene (start_state M req) (getCurrentState scene) in
      if negb (satisfiesBounds M ext start_state) then
        fail INVALID_ROBOT_STATE [ROS_ERROR "Start state violates joint limits"]
      else
        match goal_constraints M req with
        | [goal] =>
            if unsupported_goal goal then
              fail INVALID_GOAL_CONSTRAINTS [ROS_ERROR "Only joint-space goals are supported"]
            else
              let goal_state := goal_state_of ext start_state goal in
              if negb (satisfiesBounds M ext goal_state) then
                fail INVALID_ROBOT_STATE [ROS_ERROR "Goal state violates joint limits"]
              else
                let trajectory := boundary_trajectory ext scene group start_state goal_state in
                let '(trajectory, filled_trace) := initial_fill ext params trajectory in
                optimize_and_report ext scene group start_state goal params res
                                    trajectory filled_trace
        | _ =>
            fail INVALID_GOAL_CONSTRAINTS [ROS_ERROR "Expecting exactly one goal constraint"]
        end
  end.

End Planner.

Arguments ChompParameters D : clear implicits.
Arguments JointConstraint D : clear implicits.
Arguments Constraints D : clear implicits.
Arguments PlanningScene D : clear implicits.
Arguments ChompOptimizer D : clear implicits.
Arguments Collaborators D RobotStateMsg : clear implicits.
Arguments MotionPlanRequest D RobotStateMsg : clear implicits.
Arguments MotionPlanDetailedResponse D : clear implicits.
Arguments Event D : clear implicits.
Arguments LoopState D : clear implicits.
Arguments LoopExit D : clear implicits.
Arguments SolveReturn D : clear implicits.

(** * Notions of the specification *)

(** [clamp x lo hi]: [x] brought into [lo .. hi]. *)
Definition clamp (x lo hi : Z) : Z := Z.max lo (Z.min x hi).

(** The row that an external state projects to: the positions of the
    active joints, in the order of the group. *)
Definition project {D : Type} (joints : list JointModel) (s : RobotState D) : list D :=
  map (fun jm => variable_position s (getJointIndex jm)) joints.

(** Where the copies of external waypoint [i] start in the target when
    every waypoint is repeated [tgt / ext] times and the first [tgt mod ext]
    ones once more. *)
Definition emission_start (tgt ext i : Z) : Z := i * (tgt / ext) + Z.min i (tgt mod ext).

(** How many times external waypoint [i] is emitted. *)
Definition repeat_count (tgt ext i : Z) : Z :=
  tgt / ext + (if i <? tgt mod ext then 1 else 0).

(** A matrix whose rows all have one column per joint. *)
Definition shaped {D : Type} (joints : list JointModel) (m : Matrix D) : Prop :=
  Forall (fun row => length row = length joints) m.

(** Polynomials over the reals by their coefficients, lowest degree first:
    value, sum and derivative. *)
Fixpoint peval (c : list R) (x : R) : R :=
  match c with
  | [] => 0%R
  | a :: c' => (a + x * peval c' x)%R
  end.

Fixpoint padd (p q : list R) : list R :=
  match p, q with
  | [], _ => q
  | _, [] => p
  | a :: p', b :: q' => (a + b)%R :: padd p' q'
  end.

Fixpoint pderiv (c : list R) : list R :=
  match c with
  | [] => []
  | a :: c' => padd c' (0%R :: pderiv c')
  end.

(** Modelled from the spec: [shortestAngularDistance] is defined in
    [chomp_utils.h], which is not part of the sources.  The spec defines
    [shortestAngularDistance(start, naiveGoal)] as the signed value in
    [(-PI, PI]] such that [start + delta] is [naiveGoal] modulo [2 PI],
    exactly [PI] being resolved toward positive: the difference
    [naiveGoal - start] less the multiple of [2 PI] that brings it into
    that interval. *)
Definition shortest_angular_distance (start naiveGoal : R) : R :=
  let d := (naiveGoal - start)%R in
  (d - 2 * PI * IZR (Zceil ((d - PI) / (2 * PI))))%R.

(** A continuously rotating revolute joint. *)
Definition continuous (jm : JointModel) : bool :=
  match jm_kind jm with
  | Revolute true => true
  | _ => false
  end.

(** The value the goal adjustment leaves in column [k] of the goal row,
    for the joint [jm] of that column and the function [sad] used as
    [shortestAngularDistance]. *)
Definition adjusted {D : Type} `{DoubleOps D} (u : D) (sad : D -> D -> D)
    (m : Matrix D) (goal_index : Z) (jm : JointModel) (k : nat) : D :=
  if continuous jm
  then (at_ u m 0 (Z.of_nat k)
        + sad (at_ u m 0 (Z.of_nat k)) (at_ u m goal_index (Z.of_nat k)))%D
  else at_ u m goal_index (Z.of_nat k).

Section TraceNotions.

Context {D : Type} `{DoubleOps D}.

Definition exit_state (e : LoopExit D) : LoopState D :=
  match e with
  | Break st => st
  | InitFailed st => st
  end.

(** The parameter sets of the optimization attempts recorded in a trace,
    in order: one per optimizer built. *)
Fixpoint attempts (tr : list (Event D)) : list (ChompParameters D) :=
  match tr with
  | [] => []
  | NewOptimizer _ p :: tr' => p :: attempts tr'
  | _ :: tr' => attempts tr'
  end.

(** The number of calls of [optimize()] recorded in a trace. *)
Fixpoint optimize_calls (tr : list (Event D)) : nat :=
  match tr with
  | [] => O
  | Optimize _ :: tr' => S (optimize_calls tr')
  | _ :: tr' => optimize_calls tr'
  end.

(** The errors logged in a trace. *)
Fixpoint errors (tr : list (Event D)) : list string :=
  match tr with
  | [] => []
  | ROS_ERROR msg :: tr' => msg :: errors tr'
  | _ :: tr' => errors tr'
  end.

(** [p], [escalate p], [escalate (escalate p)], ...: [n] parameter sets. *)
Fixpoint escalations (p : ChompParameters D) (n : nat) : list (ChompParameters D) :=
  match n with
  | O => []
  | S n' => p :: escalations (escalate p) n'
  end.

(** The velocity that the loop over the joints reads for the joint of
    rank [k] in row [i]: from [initial_vel] in a boundary row, from
    [velocity_matrix] in any other row. *)
Definition velocity_read (boundary : bool) (initial_vel : list D)
    (velocity_matrix : list (list D)) (i : Z) (k : nat) : option D :=
  if boundary then initial_vel !! k else velocity_matrix !! k ≫= (.!! Z.to_nat i).

End TraceNotions.

(** * Concrete inputs

    Small inputs in binary64 arithmetic on which the functions above are
    run. *)

Module Examples.

Local Open Scope string_scope.

(** A four-point, one-joint buffer whose free range is rows 1 and 2. *)
Definition four_points : ChompTrajectory float :=
  {| planning_group_name_ := "arm";
     num_points_ := 4;
     num_joints_ := 1;
     discretization_ := 0.5%float;
     duration_ := 1.5%float;
     trajectory_ := [[1%float]; [2%float]; [3%float]; [4%float]];
     start_index_ := 1;
     end_index_ := 2;
     full_trajectory_index_ := [] |}.

(** One revolute, continuously rotating joint. *)
Definition joint : JointModel :=
  {| jm_kind := Revolute true;
     getVariableCount := 1;
     getFirstVariableIndex := 0;
     getJointIndex := 0 |}.

Definition one_joint : RobotModel := fun _ => {| getActiveJointModels := [joint] |}.

(** The state whose variables all have position [x] and velocity 0. *)
Definition state_at (x : float) : RobotState float :=
  {| variable_position := fun _ => x; variable_velocity := fun _ => 0%float |}.

(** An external trajectory of [n] waypoints; waypoint [k] has its joint
    at position [k]. *)
Definition ramp (n : Z) : RobotTrajectory float :=
  {| getGroup := one_joint "arm";
     waypoints := map (fun k => state_at (d_of_Z k)) (seqZ 0 n);
     duration_from_previous := map (fun _ => 0%float) (seqZ 0 n) |}.

(** A fresh buffer of [n] points for the one-joint group. *)
Definition buffer (n : Z) : ChompTrajectory float :=
  ChompTrajectory_of_points 0%float one_joint n 0.03409%float "arm".

(** A four-point, one-joint buffer over the reals, the joint going from
    0 to 2 in 1.5 seconds. *)
Definition real_buffer : ChompTrajectory R :=
  {| planning_group_name_ := "arm";
     num_points_ := 4;
     num_joints_ := 1;
     discretization_ := (1 / 2)%R;
     duration_ := (3 / 2)%R;
     trajectory_ := [[0%R]; [5%R]; [7%R]; [2%R]];
     start_index_ := 1;
     end_index_ := 2;
     full_trajectory_index_ := [] |}.

(** Collaborators for the one-joint robot: every state is within
    bounds, every goal constraint is met, the finite-difference matrix is
    the identity, and the [n]-th optimizer built initializes, leaves the
    buffer as it is and reports [results n] from [optimize()] and
    [collision_free] from [isCollisionFree()]. *)
Definition identity_matrix (n : Z) : Matrix float :=
  map (fun i => map (fun j => if Z.eqb i j then 1%float else 0%float) (seqZ 0 n)) (seqZ 0 n).

Definition world (results : nat -> bool) (collision_free : bool)
    : Collaborators float (RobotState float) :=
  {| robotStateMsgToRobotState := fun _ msg _ => msg;
     satisfiesBounds := fun _ => true;
     getVariableIndex := fun _ => 0%nat;
     robotStateToArray := fun state _ _ =>
       map (fun jm => variable_position state (getFirstVariableIndex jm)) [joint];
     shortestAngularDistance := fun a b => (b - a)%float;
     csvRead := fun _ _ => [];
     new_ChompOptimizer := fun n trajectory _ _ _ _ =>
       {| isInitialized := true;
          optimize := (results n, trajectory_ trajectory);
          isCollisionFree := collision_free |};
     getDiffMatrix := identity_matrix;
     jc_configure := fun _ => true;
     jc_decide_satisfied := fun _ _ => true;
     elapsed := 0%float |}.

Definition scene : PlanningScene float :=
  {| getCurrentState := state_at 0%float; getRobotModel := one_joint |}.

(** A request from position 3 to position -3 of the joint. *)
Definition request : MotionPlanRequest float (RobotState float) :=
  {| start_state := state_at 3%float;
     group_name := "arm";
     goal_constraints :=
       [ {| joint_constraints := [ {| joint_name := "joint"; position := (-3)%float |} ];
            position_constraints := [];
            orientation_constraints := [] |} ] |}.

(** The default parameters, with recovery enabled and two retries. *)
Definition parameters (method : string) : ChompParameters float :=
  {| planning_time_limit_ := 10%float;
     max_iterations_ := 200;
     max_recovery_attempts_ := 2;
     learning_rate_ := 0.04%float;
     ridge_factor_ := 0%float;
     enable_failure_recovery_ := true;
     trajectory_initialization_method_ := method;
     demo_type_ := "head" |}.

Definition empty_response : MotionPlanDetailedResponse float :=
  {| res_trajectory_ := []; processing_time_ := []; error_code_ := FAILURE |}.

(** The state over the reals whose variables all have position [x] and
    velocity 0, and an external trajectory of [n] such waypoints, waypoint
    [k] at position [k]. *)
Definition real_state_at (x : R) : RobotState R :=
  {| variable_position := fun _ => x; variable_velocity := fun _ => 0%R |}.


(** Collaborators over the reals for the one-joint robot, as [world]: the
    [n]-th optimizer built initializes, leaves the buffer as it is and
    reports [results n] from [optimize()]. *)
Definition real_world (results : nat -> bool) : Collaborators R (RobotState R) :=
  {| robotStateMsgToRobotState := fun _ msg _ => msg;
     satisfiesBounds := fun _ => true;
     getVariableIndex := fun _ => 0%nat;
     robotStateToArray := fun state _ _ =>
       map (fun jm => variable_position state (getFirstVariableIndex jm)) [joint];
     shortestAngularDistance := fun a b => (b - a)%R;
     csvRead := fun _ _ => [];
     new_ChompOptimizer := fun n trajectory _ _ _ _ =>
       {| isInitialized := true;
          optimize := (results n, trajectory_ trajectory);
          isCollisionFree := true |};
     getDiffMatrix := fun _ => [];
     jc_configure := fun _ => true;
     jc_decide_satisfied := fun _ _ => true;
     elapsed := 0%R |}.

Definition real_scene : PlanningScene R :=
  {| getCurrentState := real_state_at 0%R; getRobotModel := one_joint |}.

(** The default parameters over the reals, with recovery enabled and two
    retries. *)
Definition real_parameters : ChompParameters R :=
  {| planning_time_limit_ := 10%R;
     max_iterations_ := 200;
     max_recovery_attempts_ := 2;
     learning_rate_ := (4 / 100)%R;
     ridge_factor_ := 0%R;
     enable_failure_recovery_ := true;
     trajectory_initialization_method_ := "linear";
     demo_type_ := "head" |}.

(** Collaborators as [world] with optimizers that succeed and are
    collision free, but for which no goal constraint is ever satisfied. *)
Definition unreached_world : Collaborators float (RobotState float) :=
  {| robotStateMsgToRobotState := fun _ msg _ => msg;
     satisfiesBounds := fun _ => true;
     getVariableIndex := fun _ => 0%nat;
     robotStateToArray := fun state _ _ =>
       map (fun jm => variable_position state (getFirstVariableIndex jm)) [joint];
     shortestAngularDistance := fun a b => (b - a)%float;
     csvRead := fun _ _ => [];
     new_ChompOptimizer := fun n trajectory _ _ _ _ =>
       {| isInitialized := true;
          optimize := (true, trajectory_ trajectory);
          isCollisionFree := true |};
     getDiffMatrix := identity_matrix;
     jc_configure := fun _ => true;
     jc_decide_satisfied := fun _ _ => false;
     elapsed := 0%float |}.

End Examples.

(** * The cells the fillers write

    The expression that each interpolation filler assigns to an entry of a
    free row, as a function of the row index and of the two boundary values
    of the column. *)

Section FillerValues.

Context {D : Type} `{DoubleOps D}.
Variable u : D.

(** The value the linear filler writes in row [i] for boundary values
    [x0] and [x1]: [x0 + i * theta], with
    [theta = (x1 - x0) / (end_index - 1)]. *)
Definition linear_cell (end_index : Z) (x0 x1 : D) (i : Z) : D :=
  (x0 + d_of_Z i * ((x1 - x0) / (d_of_Z end_index - d_of_Z 1)))%D.

(** The value the cubic filler writes in row [i]:
    [coeffs[0] + coeffs[2] * t^2 + coeffs[3] * t^3] at [t = i * dt]. *)
Definition cubic_cell (end_index : Z) (x0 x1 : D) (i : Z) : D :=
  let dt := d_lit 1 1000 in
  let total_time := ((d_of_Z end_index - d_of_Z 1) * dt)%D in
  let c2 := ((d_of_Z 3 / d_pow total_time 2) * (x1 - x0))%D in
  let c3 := ((d_of_Z (-2) / d_pow total_time 3) * (x1 - x0))%D in
  let t := (d_of_Z i * dt)%D in
  (x0 + c2 * d_pow t 2 + c3 * d_pow t 3)%D.

(** The value the minimum-jerk filler writes in row [i]. *)
Definition minjerk_cell (start_index end_index : Z) (discretization x0 x1 : D) (i : Z) : D :=
  accumulate (powers (d_of_Z (i - start_index) * discretization)%D)
             (minjerk_coeff u (powers (d_of_Z (end_index - start_index) * discretization)%D)
                            x0 x1).

End FillerValues.

Section MoreTraceNotions.

Context {D : Type} `{DoubleOps D}.

(** What the calls of [optimize()] recorded in a trace returned, in
    order. *)
Fixpoint optimize_results (tr : list (Event D)) : list bool :=
  match tr with
  | [] => []
  | Optimize b :: tr' => b :: optimize_results tr'
  | _ :: tr' => optimize_results tr'
  end.

End MoreTraceNotions.

(** * Machine integers and binary64 literals *)

Lemma size_t_of_small z : 0 <= z < 2 ^ 64 -> size_t_of z = z.
Proof. intros Hz. unfold size_t_of. apply Z.mod_small. exact Hz. Qed.

Lemma int_of_small z : - 2 ^ 31 <= z < 2 ^ 31 -> int_of z = z.
Proof. intros Hz. unfold int_of. rewrite Z.mod_small; lia. Qed.

Lemma int_of_size_t_of z : int_of (size_t_of z) = int_of z.
Proof.
  unfold int_of, size_t_of.
  f_equal.
  rewrite <- (Zplus_mod_idemp_l (z mod _)).
  rewrite Z.mod_mod_divide by (exists (2 ^ 32); reflexivity).
  rewrite Zplus_mod_idemp_l. reflexivity.
Qed.

Lemma size_t_of_idemp_add a b : size_t_of (size_t_of a + b) = size_t_of (a + b).
Proof. unfold size_t_of. apply Zplus_mod_idemp_l. Qed.

Lemma size_t_of_idemp_add_r a b : size_t_of (a + size_t_of b) = size_t_of (a + b).
Proof. unfold size_t_of. apply Zplus_mod_idemp_r. Qed.

Lemma size_t_of_idemp_sub_r a b : size_t_of (a - size_t_of b) = size_t_of (a - b).
Proof. unfold size_t_of. apply Zminus_mod_idemp_r. Qed.

(** The decimal literals of the source, as [d_lit] builds them, are the
    binary64 values the compiler reads. *)
Example float_lit_002 : d_lit 2 100 = 0.02%float.
Proof. vm_compute. reflexivity. Qed.

Example float_lit_003409 : d_lit 3409 100000 = 0.03409%float.
Proof. vm_compute. reflexivity. Qed.

Example float_floor_neg : d_floor (-2.5)%float = -3.
Proof. vm_compute. reflexivity. Qed.


(** * Sizing of a buffer built from a duration *)

Section Sizing.

Local Open Scope R_scope.




Lemma length_init {D : Type} (u : D) (n k : Z) : length (init u n k) = Z.to_nat n.
Proof. unfold init. apply length_replicate. Qed.





End Sizing.

(** * The padded copy *)

Section Padded.

Context {D : Type} `{DoubleOps D}.
Variable u : D.

Lemma padded_source_point_clamp (np se i : Z) :
  1 <= np < 2 ^ 31 -> - 2 ^ 31 <= i - se < 2 ^ 31 ->
  padded_source_point np se i = clamp (i - se) 0 (np - 1).
Proof.
  intros Hnp Hi. unfold padded_source_point, clamp.
  rewrite size_t_of_idemp_sub_r, int_of_size_t_of, int_of_small by lia.
  destruct (Z.ltb_spec (i - se) 0) as [Hneg | Hpos].
  - rewrite (size_t_of_small 0) by lia.
    destruct (Z.leb_spec np 0); lia.
  - rewrite (size_t_of_small (i - se)) by lia.
    destruct (Z.leb_spec np (i - se)) as [Hbig | Hsmall].
    + rewrite int_of_size_t_of, int_of_small by lia. lia.
    + lia.
Qed.

Lemma padded_copy_loop (s : ChompTrajectory D) (se : Z) (m0 : Matrix D) (l0 : list Z) (k : nat) :
  (forall i, 0 <= i < Z.of_nat k ->
             is_Some (getTrajectoryPoint s (padded_source_point (num_points_ s) se i))) ->
  let r := foldl (padded_copy_step s se) (m0, l0) (seqZ 0 (Z.of_nat k)) in
  length (fst r) = length m0
  /\ length (snd r) = length l0
  /\ (forall i : nat, (i < k)%nat -> (i < length m0)%nat ->
        fst r !! i
        = getTrajectoryPoint s (padded_source_point (num_points_ s) se (Z.of_nat i)))
  /\ (forall i : nat, (i < k)%nat -> (i < length l0)%nat ->
        snd r !! i = Some (size_t_of (padded_source_point (num_points_ s) se (Z.of_nat i)))).
Proof.
  induction k as [ | k IH ]; intros Hsrc r.
  - subst r. simpl. repeat split; intros; lia.
  - subst r. rewrite seqZ_S, foldl_app. cbn [foldl]. rewrite Z.add_0_l.
    destruct IH as (Hlm & Hll & Hrows & Hidx).
    { intros i Hi. apply Hsrc. lia. }
    set (r := foldl (padded_copy_step s se) (m0, l0) (seqZ 0 (Z.of_nat k))) in *.
    destruct (Hsrc (Z.of_nat k)) as [row Hrow]; [ lia | ].
    replace (padded_copy_step s se r (Z.of_nat k))
      with (<[k := row]> (fst r),
            <[k := size_t_of (padded_source_point (num_points_ s) se (Z.of_nat k))]> (snd r))
      by (unfold padded_copy_step, set_row; rewrite Hrow, Nat2Z.id; reflexivity).
    cbn [fst snd].
    split; [ rewrite length_insert; exact Hlm | ].
    split; [ rewrite length_insert; exact Hll | ]. split.
    + intros i Hi Hlen. destruct (decide (i = k)) as [-> | Hne].
      * rewrite list_lookup_insert_eq by lia. symmetry. exact Hrow.
      * rewrite list_lookup_insert_ne by congruence. apply Hrows; lia.
    + intros i Hi Hlen. destruct (decide (i = k)) as [-> | Hne].
      * rewrite list_lookup_insert_eq by lia. reflexivity.
      * rewrite list_lookup_insert_ne by congruence. apply Hidx; lia.
Qed.

(** What the two extras and the new size are when nothing wraps. *)
Lemma padded_extras (s : ChompTrajectory D) (w : Z) :
  1 <= w ->
  1 <= num_points_ s ->
  0 <= start_index_ s -> end_index_ s <= num_points_ s - 1 ->
  start_index_ s <= end_index_ s ->
  num_points_ s + 2 * w < 2 ^ 31 ->
  padded_start_extra s w = w - 1 - start_index_ s
  /\ padded_end_extra s w = w - 1 - (num_points_ s - 1 - end_index_ s)
  /\ size_t_of (size_t_of (num_points_ s + size_t_of (padded_start_extra s w))
                + size_t_of (padded_end_extra s w))
     = num_points_ s + (w - 1 - start_index_ s) + (w - 1 - (num_points_ s - 1 - end_index_ s)).
Proof.
  intros Hw Hnp Hs He Hse Hr.
  assert (Hse' : padded_start_extra s w = w - 1 - start_index_ s).
  { unfold padded_start_extra.
    rewrite int_of_size_t_of.
    rewrite (int_of_small (w - 1)) by lia.
    rewrite (size_t_of_small (w - 1)) by lia.
    apply int_of_small. lia. }
  assert (Hee' : padded_end_extra s w = w - 1 - (num_points_ s - 1 - end_index_ s)).
  { unfold padded_end_extra.
    rewrite int_of_size_t_of.
    rewrite (int_of_small (w - 1)) by lia.
    rewrite (size_t_of_small (w - 1)) by lia.
    rewrite (size_t_of_small (num_points_ s - 1)) by lia.
    rewrite (size_t_of_small (num_points_ s - 1 - end_index_ s)) by lia.
    apply int_of_small. lia. }
  split; [ exact Hse' | ]. split; [ exact Hee' | ].
  rewrite Hse', Hee'.
  rewrite size_t_of_idemp_add, size_t_of_idemp_add_r.
  rewrite Z.add_shuffle0, size_t_of_idemp_add_r.
  rewrite size_t_of_small; lia.
Qed.

(** C3, as the code has it: the two extras are the signed differences
    [stencilWidth-1 - startIndex] and
    [stencilWidth-1 - ((numPoints-1) - endIndex)], not clamped at 0; the
    new size, start and end indices follow from them as stated; every
    padded row [i] is the source row [clamp(i - startExtra, 0,
    numPoints-1)], which the index map records; the free range keeps its
    length; and the rows before [startExtra] and from
    [numPoints + startExtra] on are the first and the last source row. *)
Theorem padded_copy (s : ChompTrajectory D) (g : string) (stencilWidth : Z) :
  1 <= stencilWidth ->
  1 <= num_points_ s ->
  length (trajectory_ s) = Z.to_nat (num_points_ s) ->
  0 <= start_index_ s -> end_index_ s <= num_points_ s - 1 ->
  start_index_ s <= end_index_ s ->
  num_points_ s + 2 * stencilWidth < 2 ^ 31 ->
  let padded := ChompTrajectory_padded u s g stencilWidth in
  let startExtra := padded_start_extra s stencilWidth in
  let endExtra := padded_end_extra s stencilWidth in
  startExtra = stencilWidth - 1 - start_index_ s
  /\ endExtra = stencilWidth - 1 - ((num_points_ s - 1) - end_index_ s)
  /\ num_points_ padded = num_points_ s + startExtra + endExtra
  /\ start_index_ padded = stencilWidth - 1
  /\ end_index_ padded = num_points_ padded - 1 - (stencilWidth - 1)
  /\ length (trajectory_ padded) = Z.to_nat (num_points_ padded)
  /\ (forall i, 0 <= i < num_points_ padded ->
        getTrajectoryPoint padded i
        = getTrajectoryPoint s (clamp (i - startExtra) 0 (num_points_ s - 1))
        /\ is_Some (getTrajectoryPoint padded i)
        /\ full_trajectory_index_ padded !! Z.to_nat i
           = Some (clamp (i - startExtra) 0 (num_points_ s - 1)))
  /\ end_index_ padded - start_index_ padded + 1 = end_index_ s - start_index_ s + 1
  /\ (forall i, 0 <= i < startExtra ->
        getTrajectoryPoint padded i = getTrajectoryPoint s 0)
  /\ (forall i, num_points_ s + startExtra <= i < num_points_ padded ->
        getTrajectoryPoint padded i = getTrajectoryPoint s (num_points_ s - 1)).
Proof.
  intros Hw Hnp Hlen Hs He Hse Hr padded startExtra endExtra.
  destruct (padded_extras s stencilWidth Hw Hnp Hs He Hse Hr) as (Hse' & Hee' & Hnp').
  fold startExtra in Hse'. fold endExtra in Hee'.
  assert (Hnum : num_points_ padded = num_points_ s + startExtra + endExtra).
  { subst padded. unfold ChompTrajectory_padded. cbn [num_points_].
    rewrite Hnp'. lia. }
  assert (Hstart : start_index_ padded = stencilWidth - 1).
  { subst padded. unfold ChompTrajectory_padded. cbn [start_index_].
    rewrite int_of_small, size_t_of_small; lia. }
  assert (Hend : end_index_ padded = num_points_ padded - 1 - (stencilWidth - 1)).
  { subst padded. unfold ChompTrajectory_padded. cbn [end_index_ num_points_].
    rewrite Hnp'.
    rewrite int_of_small by lia.
    rewrite (size_t_of_small (stencilWidth - 1)) by lia.
    rewrite (size_t_of_small (_ + _ + _ - 1)) by lia.
    apply size_t_of_small. lia. }
  (* the copy loop *)
  set (np' := num_points_ s + startExtra + endExtra) in *.
  assert (Hsz : size_t_of (size_t_of (num_points_ s
                                      + size_t_of (padded_start_extra s stencilWidth))
                           + size_t_of (padded_end_extra s stencilWidth)) = np').
  { rewrite Hnp'. subst np'. lia. }
  assert (Hsrc : forall i, 0 <= i < np' ->
            padded_source_point (num_points_ s) startExtra i
            = clamp (i - startExtra) 0 (num_points_ s - 1)).
  { intros i Hi. apply padded_source_point_clamp; lia. }
  assert (Hrow : forall x, is_Some (getTrajectoryPoint s (clamp x 0 (num_points_ s - 1)))).
  { intros x. unfold getTrajectoryPoint. apply lookup_lt_is_Some.
    rewrite Hlen. unfold clamp. lia. }
  pose proof (padded_copy_loop s startExtra
                (init u np' (getNumJoints s)) (replicate (Z.to_nat np') 0)
                (Z.to_nat np')) as Hloop.
  rewrite Z2Nat.id in Hloop by lia.
  destruct Hloop as (Hlm & Hll & Hrows & Hidx).
  { intros i Hi. rewrite Hsrc by lia. apply Hrow. }
  assert (Htraj : trajectory_ padded
                  = fst (foldl (padded_copy_step s startExtra)
                           (init u np' (getNumJoints s), replicate (Z.to_nat np') 0)
                           (seqZ 0 np'))).
  { subst padded. unfold ChompTrajectory_padded. cbn [trajectory_].
    rewrite Hsz. reflexivity. }
  assert (Hindex : full_trajectory_index_ padded
                  = snd (foldl (padded_copy_step s startExtra)
                           (init u np' (getNumJoints s), replicate (Z.to_nat np') 0)
                           (seqZ 0 np'))).
  { subst padded. unfold ChompTrajectory_padded. cbn [full_trajectory_index_].
    rewrite Hsz. reflexivity. }
  rewrite length_init in Hlm, Hrows. rewrite length_replicate in Hll, Hidx.
  assert (Hall : forall i, 0 <= i < num_points_ padded ->
        getTrajectoryPoint padded i
        = getTrajectoryPoint s (clamp (i - startExtra) 0 (num_points_ s - 1))
        /\ is_Some (getTrajectoryPoint padded i)
        /\ full_trajectory_index_ padded !! Z.to_nat i
           = Some (clamp (i - startExtra) 0 (num_points_ s - 1))).
  { intros i Hi. rewrite Hnum in Hi.
    assert (Hget : getTrajectoryPoint padded i
        = getTrajectoryPoint s (clamp (i - startExtra) 0 (num_points_ s - 1))).
    { unfold getTrajectoryPoint at 1. rewrite Htraj, Hrows by lia.
      rewrite Z2Nat.id by lia. rewrite Hsrc by lia. reflexivity. }
    split; [ exact Hget | ]. split; [ rewrite Hget; apply Hrow | ].
    rewrite Hindex, Hidx by lia. rewrite Z2Nat.id by lia. rewrite Hsrc by lia.
    f_equal. apply size_t_of_small. unfold clamp. lia. }
  split; [ exact Hse' | ]. split; [ exact Hee' | ]. split; [ exact Hnum | ].
  split; [ exact Hstart | ]. split; [ exact Hend | ].
  split; [ rewrite Htraj, Hlm, Hnum; reflexivity | ].
  split; [ exact Hall | ].
  split; [ rewrite Hend, Hstart, Hnum; lia | ].
  split.
  - intros i Hi. destruct (Hall i) as (Hget & _); [ lia | ].
    rewrite Hget. f_equal. unfold clamp. lia.
  - intros i Hi. destruct (Hall i) as (Hget & _); [ lia | ].
    rewrite Hget. f_equal. unfold clamp. lia.
Qed.

End Padded.

Lemma padded_copy_witness :
  let s := Examples.four_points in
  let padded := ChompTrajectory_padded 0%float s "arm" 3 in
  let startExtra := padded_start_extra s 3 in
  let endExtra := padded_end_extra s 3 in
  startExtra = 3 - 1 - start_index_ s
  /\ endExtra = 3 - 1 - ((num_points_ s - 1) - end_index_ s)
  /\ num_points_ padded = num_points_ s + startExtra + endExtra
  /\ start_index_ padded = 3 - 1
  /\ end_index_ padded = num_points_ padded - 1 - (3 - 1)
  /\ length (trajectory_ padded) = Z.to_nat (num_points_ padded)
  /\ (forall i, 0 <= i < num_points_ padded ->
        getTrajectoryPoint padded i
        = getTrajectoryPoint s (clamp (i - startExtra) 0 (num_points_ s - 1))
        /\ is_Some (getTrajectoryPoint padded i)
        /\ full_trajectory_index_ padded !! Z.to_nat i
           = Some (clamp (i - startExtra) 0 (num_points_ s - 1)))
  /\ end_index_ padded - start_index_ padded + 1 = end_index_ s - start_index_ s + 1
  /\ (forall i, 0 <= i < startExtra ->
        getTrajectoryPoint padded i = getTrajectoryPoint s 0)
  /\ (forall i, num_points_ s + startExtra <= i < num_points_ padded ->
        getTrajectoryPoint padded i = getTrajectoryPoint s (num_points_ s - 1)).
Proof.
  apply (padded_copy 0%float Examples.four_points "arm" 3); simpl; lia.
Defined.

(** The padded copy of the example, row by row: one copy of the first row
    before it and one copy of the last row after it. *)
Example padded_copy_rows :
  trajectory_ (ChompTrajectory_padded 0%float Examples.four_points "arm" 3)
  = [[1%float]; [1%float]; [2%float]; [3%float]; [4%float]; [4%float]]
  /\ full_trajectory_index_ (ChompTrajectory_padded 0%float Examples.four_points "arm" 3)
     = [0; 0; 1; 2; 3; 3].
Proof. vm_compute. split; reflexivity. Qed.

(** C3 as stated fails: with stencil width 1 on a buffer whose free range
    starts at row 1, the code's start extra is -1 where the clamped formula
    gives 0, and the padded buffer has 2 points (the two free rows of the
    source) where the clamped formulas give 4. *)
Lemma padded_copy_not_clamped :
  let s := Examples.four_points in
  let padded := ChompTrajectory_padded 0%float s "arm" 1 in
  padded_start_extra s 1 = -1
  /\ padded_start_extra s 1 <> Z.max 0 (1 - 1 - start_index_ s)
  /\ num_points_ padded = 2
  /\ num_points_ padded
     <> num_points_ s + Z.max 0 (1 - 1 - start_index_ s)
        + Z.max 0 (1 - 1 - ((num_points_ s - 1) - end_index_ s))
  /\ trajectory_ padded = [[2%float]; [3%float]].
Proof. vm_compute. repeat split; congruence. Qed.

(** * Filling the buffer from an external trajectory *)

Section Resampler.

Context {D : Type} `{DoubleOps D}.

Lemma for_each_app {S : Type} (body : S -> Z -> option S) (l1 l2 : list Z) (s : S) :
  for_each body (l1 ++ l2) s
  = match for_each body l1 s with
    | Some s' => for_each body l2 s'
    | None => None
    end.
Proof.
  revert s. induction l1 as [ | i l1 IH ]; intros s; simpl.
  - reflexivity.
  - destruct (body s i); [ apply IH | reflexivity ].
Qed.

Lemma shaped_insert joints m i (s : RobotState D) :
  shaped joints m -> shaped joints (<[i := project joints s]> m).
Proof.
  intros Hm. unfold shaped. apply Forall_insert; [ exact Hm | ].
  unfold project. apply length_map.
Qed.

Section Assign.

Variable trajectory : RobotTrajectory D.
Let joints := getActiveJointModels (getGroup trajectory).
Hypothesis single : forallb (fun jm => getVariableCount jm =? 1) joints = true.

Lemma assign_point (i id : Z) (m : Matrix D) (s : RobotState D) :
  waypoints trajectory !! Z.to_nat i = Some s ->
  (Z.to_nat id < length m)%nat ->
  shaped joints m ->
  assignCHOMPTrajectoryPointFromInputTrajectoryPoint trajectory i id m
  = Some (<[Z.to_nat id := project joints s]> m).
Proof using single.
  intros Hs Hid Hm.
  unfold assignCHOMPTrajectoryPointFromInputTrajectoryPoint.
  rewrite Hs.
  destruct (lookup_lt_is_Some_2 m (Z.to_nat id) Hid) as [target Ht].
  rewrite Ht. fold joints.
  assert (Hlen : length target = length joints).
  { exact (Forall_lookup_1 (fun row => length row = length joints) m _ _ Hm Ht). }
  rewrite Hlen, Z.eqb_refl, single. reflexivity.
Qed.

(** The loop that repeats waypoint [i] [r] times from row [id] on. *)
Lemma repeat_loop (i : Z) (s : RobotState D) (r : nat) (id : Z) (m : Matrix D) :
  waypoints trajectory !! Z.to_nat i = Some s ->
  0 <= id -> (Z.to_nat id + r <= length m)%nat ->
  shaped joints m ->
  exists m',
    for_each (fun st _ => emit_point trajectory i st) (seqZ 0 (Z.of_nat r)) (id, m)
    = Some (id + Z.of_nat r, m')
    /\ length m' = length m
    /\ shaped joints m'
    /\ (forall j, (Z.to_nat id <= j < Z.to_nat id + r)%nat ->
          m' !! j = Some (project joints s))
    /\ (forall j, (j < Z.to_nat id \/ Z.to_nat id + r <= j)%nat -> m' !! j = m !! j).
Proof using single.
  intros Hs Hid. induction r as [ | r IH ]; intros Hlen Hm.
  - exists m. simpl. rewrite Z.add_0_r.
    repeat split; [ exact Hm | intros; lia ].
  - destruct IH as (m1 & Hrun & Hl1 & Hm1 & Hin & Hout); [ lia | exact Hm | ].
    exists (<[Z.to_nat (id + Z.of_nat r) := project joints s]> m1).
    rewrite seqZ_S, for_each_app, Hrun. cbn [for_each emit_point].
    rewrite (assign_point i (id + Z.of_nat r) m1 s Hs) by (try exact Hm1; lia).
    split; [ do 2 f_equal; lia | ].
    split; [ rewrite length_insert; exact Hl1 | ].
    split; [ apply shaped_insert; exact Hm1 | ].
    replace (Z.to_nat (id + Z.of_nat r)) with (Z.to_nat id + r)%nat by lia.
    split.
    + intros j Hj. destruct (decide (j = Z.to_nat id + r)%nat) as [-> | Hne].
      * apply list_lookup_insert_eq. lia.
      * rewrite list_lookup_insert_ne by congruence. apply Hin. lia.
    + intros j Hj. rewrite list_lookup_insert_ne by lia. apply Hout. lia.
Qed.

Lemma repeat_point_step (rf rbf i id : Z) (m : Matrix D) (s : RobotState D) :
  waypoints trajectory !! Z.to_nat i = Some s ->
  0 <= rf -> 0 <= id ->
  let cnt := rf + (if i <? rbf then 1 else 0) in
  id + cnt <= Z.of_nat (length m) ->
  shaped joints m ->
  exists m',
    repeat_point trajectory rf rbf (id, m) i = Some (id + cnt, m')
    /\ length m' = length m
    /\ shaped joints m'
    /\ (forall j : nat, id <= Z.of_nat j < id + cnt -> m' !! j = Some (project joints s))
    /\ (forall j : nat, Z.of_nat j < id \/ id + cnt <= Z.of_nat j -> m' !! j = m !! j).
Proof using single.
  intros Hs Hrf Hid cnt Hlen Hm.
  destruct (repeat_loop i s (Z.to_nat rf) id m Hs Hid) as (m1 & Hrun & Hl1 & Hm1 & Hin & Hout);
    [ subst cnt; destruct (i <? rbf); lia | exact Hm | ].
  rewrite Z2Nat.id in Hrun by lia.
  unfold repeat_point. rewrite Hrun. subst cnt.
  destruct (Z.ltb_spec i rbf) as [Hlt | Hge].
  - exists (<[Z.to_nat (id + rf) := project joints s]> m1).
    cbn [emit_point].
    rewrite (assign_point i (id + rf) m1 s Hs) by (try exact Hm1; lia).
    split; [ do 2 f_equal; lia | ].
    split; [ rewrite length_insert; exact Hl1 | ].
    split; [ apply shaped_insert; exact Hm1 | ].
    split.
    + intros j Hj. destruct (decide (j = Z.to_nat (id + rf))) as [-> | Hne].
      * apply list_lookup_insert_eq. lia.
      * rewrite list_lookup_insert_ne by congruence. apply Hin. lia.
    + intros j Hj. rewrite list_lookup_insert_ne by lia. apply Hout. lia.
  - exists m1. rewrite Z.add_0_r.
    split; [ reflexivity | ]. split; [ exact Hl1 | ]. split; [ exact Hm1 | ].
    split.
    + intros j Hj. apply Hin. lia.
    + intros j Hj. apply Hout. lia.
Qed.

Lemma emission_start_succ (tgt ext i : Z) :
  0 <= i ->
  emission_start tgt ext (i + 1) = emission_start tgt ext i + repeat_count tgt ext i.
Proof.
  intros Hi. unfold emission_start, repeat_count.
  destruct (Z.ltb_spec i (tgt mod ext)); lia.
Qed.

Lemma emission_start_mono (tgt ext i : Z) :
  0 < ext -> 0 <= tgt -> 0 <= i ->
  emission_start tgt ext i <= emission_start tgt ext (i + 1).
Proof.
  intros Hext Htgt Hi. rewrite emission_start_succ by lia.
  unfold repeat_count.
  pose proof (Z.div_pos tgt ext) as Hq.
  destruct (i <? tgt mod ext); lia.
Qed.

Lemma emission_start_total (tgt ext : Z) :
  0 < ext -> 0 <= tgt -> emission_start tgt ext ext = tgt.
Proof.
  intros Hext Htgt. unfold emission_start.
  pose proof (Z.mod_pos_bound tgt ext Hext) as Hm.
  pose proof (Z.div_mod tgt ext) as Hd.
  lia.
Qed.

(** The loop over the first [k] input points. *)
Lemma repeat_all (tgt : Z) (m0 : Matrix D) (k : nat) :
  let ext := getWayPointCount trajectory in
  0 < ext -> 0 <= tgt ->
  (k <= length (waypoints trajectory))%nat ->
  length m0 = Z.to_nat tgt ->
  shaped joints m0 ->
  exists m',
    for_each (repeat_point trajectory (tgt / ext) (tgt mod ext))
             (seqZ 0 (Z.of_nat k)) (0, m0)
    = Some (emission_start tgt ext (Z.of_nat k), m')
    /\ length m' = length m0
    /\ shaped joints m'
    /\ (forall (i : nat) (s : RobotState D) (j : nat),
          (i < k)%nat -> waypoints trajectory !! i = Some s ->
          emission_start tgt ext (Z.of_nat i) <= Z.of_nat j
            < emission_start tgt ext (Z.of_nat i + 1) ->
          m' !! j = Some (project joints s)).
Proof using single.
  intros ext Hext Htgt Hk Hlen Hm.
  assert (Hq : 0 <= tgt / ext) by (apply Z.div_pos; lia).
  assert (Hbound : forall i, 0 <= i <= ext -> emission_start tgt ext i <= tgt).
  { intros i Hi. rewrite <- (emission_start_total tgt ext Hext Htgt) at 2.
    unfold emission_start.
    pose proof (Z.mod_pos_bound tgt ext Hext). nia. }
  induction k as [ | k IH ].
  - exists m0. simpl. unfold emission_start. rewrite Z.min_l by (apply Z.mod_pos_bound; lia).
    repeat split; [ exact Hm | intros; lia ].
  - destruct IH as (m1 & Hrun & Hl1 & Hm1 & Hrows); [ lia | ].
    destruct (lookup_lt_is_Some_2 (waypoints trajectory) k) as [s Hs]; [ lia | ].
    assert (Hstart : 0 <= emission_start tgt ext (Z.of_nat k)).
    { unfold emission_start. pose proof (Z.mod_pos_bound tgt ext Hext). nia. }
    destruct (repeat_point_step (tgt / ext) (tgt mod ext) (Z.of_nat k)
                (emission_start tgt ext (Z.of_nat k)) m1 s)
      as (m2 & Hstep & Hl2 & Hm2 & Hin & Hout).
    { rewrite Nat2Z.id. exact Hs. }
    { exact Hq. }
    { exact Hstart. }
    { fold (repeat_count tgt ext (Z.of_nat k)).
      rewrite <- emission_start_succ by lia.
      rewrite Hl1, Hlen, Z2Nat.id by lia.
      apply Hbound. unfold ext, getWayPointCount. lia. }
    { exact Hm1. }
    fold (repeat_count tgt ext (Z.of_nat k)) in Hstep, Hin, Hout.
    rewrite <- emission_start_succ in Hstep, Hin, Hout by lia.
    exists m2. rewrite seqZ_S, for_each_app, Hrun. cbn [for_each].
    rewrite Z.add_0_l, Hstep, Nat2Z.inj_succ, <- Z.add_1_r.
    split; [ reflexivity | ]. split; [ congruence | ]. split; [ exact Hm2 | ].
    intros i s' j Hi Hs' Hj.
    destruct (decide (i = k)) as [-> | Hne].
    + assert (s' = s) by congruence. subst s'. apply Hin. exact Hj.
    + rewrite Hout.
      * apply (Hrows i s' j); [ lia | exact Hs' | exact Hj ].
      * left. eapply Z.lt_le_trans; [ apply Hj | ].
        assert (Hmono : forall a b : nat, (a <= b)%nat ->
                  emission_start tgt ext (Z.of_nat a) <= emission_start tgt ext (Z.of_nat b)).
        { intros a b Hab. induction Hab as [ | b Hab IHab ]; [ lia | ].
          etransitivity; [ exact IHab | ].
          rewrite Nat2Z.inj_succ, <- Z.add_1_r.
          apply emission_start_mono; lia. }
        replace (Z.of_nat i + 1) with (Z.of_nat (S i)) by lia.
        apply Hmono. lia.
Qed.


End Assign.

End Resampler.


Section ResamplerClaim.

Context {D : Type} `{DoubleOps D}.


End ResamplerClaim.



(** * The interpolation fillers *)

Section Cells.

Context {D : Type} `{DoubleOps D}.
Variable u : D.

Lemma for_range_nat (body : Matrix D -> Z -> Matrix D) (first : Z) (k : nat) (m : Matrix D) :
  for_range first (first + Z.of_nat (S k)) body m
  = body (for_range first (first + Z.of_nat k) body m) (first + Z.of_nat k).
Proof.
  unfold for_range.
  replace (first + Z.of_nat (S k) - first) with (Z.of_nat (S k)) by lia.
  replace (first + Z.of_nat k - first) with (Z.of_nat k) by lia.
  rewrite seqZ_S, foldl_app. reflexivity.
Qed.

Lemma for_range_empty (body : Matrix D -> Z -> Matrix D) (first last : Z) (m : Matrix D) :
  last <= first -> for_range first last body m = m.
Proof. intros Hle. unfold for_range. rewrite seqZ_nil by lia. reflexivity. Qed.

(** Writing the first [k] cells of row [i], each with a value that does
    not depend on the matrix. *)
Lemma fill_row (f : Z -> D) (i : Z) (row : list D) (m : Matrix D) (k : nat) :
  m !! Z.to_nat i = Some row ->
  (k <= length row)%nat ->
  exists row',
    for_range 0 (Z.of_nat k) (fun m j => set_at m i j (f j)) m = <[Z.to_nat i := row']> m
    /\ length row' = length row
    /\ (forall j : nat, (j < k)%nat -> row' !! j = Some (f (Z.of_nat j)))
    /\ (forall j : nat, (k <= j)%nat -> row' !! j = row !! j).
Proof.
  intros Hrow. induction k as [ | k IH ]; intros Hk.
  - exists row. rewrite for_range_empty by lia.
    split; [ symmetry; apply list_insert_id; exact Hrow | ].
    split; [ reflexivity | ]. split; [ intros; lia | reflexivity ].
  - destruct IH as (row1 & Hrun & Hlen & Hin & Hout); [ lia | ].
    exists (<[k := f (Z.of_nat k)]> row1).
    pose proof (for_range_nat (fun m j => set_at m i j (f j)) 0 k m) as Hstep.
    rewrite !Z.add_0_l in Hstep. rewrite Hstep, Hrun.
    unfold set_at. rewrite list_lookup_insert_eq by (eapply lookup_lt_Some; exact Hrow).
    rewrite list_insert_insert_eq, Nat2Z.id.
    split; [ reflexivity | ].
    split; [ rewrite length_insert; exact Hlen | ].
    split.
    + intros j Hj. destruct (decide (j = k)) as [-> | Hne].
      * apply list_lookup_insert_eq. lia.
      * rewrite list_lookup_insert_ne by congruence. apply Hin. lia.
    + intros j Hj. rewrite list_lookup_insert_ne by lia. apply Hout. lia.
Qed.

(** Writing the cells [(i, j)] with [first <= i < first + k] and
    [j < columns], each with a value [g i j] that does not depend on the
    matrix. *)
Lemma fill_cells (g : Z -> Z -> D) (first : Z) (columns : nat) (m : Matrix D) (k : nat) :
  0 <= first ->
  (Z.to_nat first + k <= length m)%nat ->
  Forall (fun row => length row = columns) m ->
  let m' := for_range first (first + Z.of_nat k)
              (fun m i => for_range 0 (Z.of_nat columns)
                            (fun m j => set_at m i j (g i j)) m) m in
  length m' = length m
  /\ Forall (fun row => length row = columns) m'
  /\ (forall i j : nat, (Z.to_nat first <= i < Z.to_nat first + k)%nat -> (j < columns)%nat ->
        at_ u m' (Z.of_nat i) (Z.of_nat j) = g (Z.of_nat i) (Z.of_nat j))
  /\ (forall i : nat, (i < Z.to_nat first \/ Z.to_nat first + k <= i)%nat ->
        m' !! i = m !! i).
Proof.
  intros Hfirst. induction k as [ | k IH ]; intros Hlen Hshape m'.
  - subst m'. rewrite for_range_empty by lia.
    split; [ reflexivity | ]. split; [ exact Hshape | ].
    split; [ intros; lia | reflexivity ].
  - subst m'. rewrite for_range_nat.
    destruct IH as (Hl1 & Hs1 & Hin & Hout); [ lia | exact Hshape | ].
    set (m1 := for_range first (first + Z.of_nat k) _ m) in *.
    destruct (lookup_lt_is_Some_2 m1 (Z.to_nat (first + Z.of_nat k))) as [row Hrow];
      [ lia | ].
    assert (Hrl : length row = columns).
    { exact (Forall_lookup_1 (fun row => length row = columns) m1 _ _ Hs1 Hrow). }
    destruct (fill_row (g (first + Z.of_nat k)) (first + Z.of_nat k) row m1 columns Hrow)
      as (row' & Hrun & Hlen' & Hin' & _); [ lia | ].
    rewrite Hrun.
    split; [ rewrite length_insert; exact Hl1 | ].
    split; [ apply Forall_insert; [ exact Hs1 | congruence ] | ].
    replace (Z.to_nat (first + Z.of_nat k)) with (Z.to_nat first + k)%nat by lia.
    split.
    + intros i j Hi Hj. unfold at_. rewrite !Nat2Z.id.
      destruct (decide (i = Z.to_nat first + k)%nat) as [-> | Hne].
      * rewrite list_lookup_insert_eq by lia.
        rewrite (Hin' j Hj). simpl. f_equal. lia.
      * rewrite list_lookup_insert_ne by congruence.
        specialize (Hin i j ltac:(lia) Hj). unfold at_ in Hin.
        rewrite !Nat2Z.id in Hin. exact Hin.
    + intros i Hi. rewrite list_lookup_insert_ne by lia. apply Hout. lia.
Qed.

End Cells.

Section Polynomials.

Local Open Scope R_scope.

Lemma peval_padd (p q : list R) (x : R) : peval (padd p q) x = peval p x + peval q x.
Proof.
  revert q. induction p as [ | a p IH ]; intros q; simpl.
  - ring.
  - destruct q as [ | b q ]; simpl.
    + ring.
    + rewrite IH. ring.
Qed.

(** [pderiv] is the derivative. *)
Lemma peval_derivable (c : list R) (x : R) :
  derivable_pt_lim (peval c) x (peval (pderiv c) x).
Proof.
  revert x. induction c as [ | a c IH ]; intros x.
  - simpl. apply (derivable_pt_lim_const 0).
  - assert (Hd : derivable_pt_lim (fun y => a + y * peval c y) x
                   (0 + (1 * peval c x + x * peval (pderiv c) x))).
    { apply (derivable_pt_lim_plus (fun _ => a) (fun y => y * peval c y)).
      - apply derivable_pt_lim_const.
      - apply (derivable_pt_lim_mult (fun y => y) (peval c)).
        + apply derivable_pt_lim_id.
        + apply IH. }
    replace (peval (pderiv (a :: c)) x)
      with (0 + (1 * peval c x + x * peval (pderiv c) x))
      by (simpl; rewrite peval_padd; simpl; ring).
    exact Hd.
Qed.

(** The accumulation loop of the source computes the value of the
    polynomial. *)
Lemma accumulate_peval (c0 c1 c2 c3 c4 c5 x : R) :
  accumulate (powers x) [c0; c1; c2; c3; c4; c5] = peval [c0; c1; c2; c3; c4; c5] x.
Proof. unfold accumulate, powers. simpl. ring. Qed.

(** The closed form of the minimum-jerk coefficients. *)
Lemma minjerk_coeff_R (u T x0 x1 : R) :
  minjerk_coeff u (powers T) x0 x1
  = [ x0; 0; 0;
      (-20 * x0 + 20 * x1) / (2 * (T * T * T));
      (30 * x0 - 30 * x1) / (2 * (T * T * T * T));
      (-12 * x0 + 12 * x1) / (2 * (T * T * T * T * T)) ].
Proof. reflexivity. Qed.

Lemma minjerk_boundary (u T x0 x1 : R) :
  T <> 0 ->
  let c := minjerk_coeff u (powers T) x0 x1 in
  peval c 0 = x0 /\ peval c T = x1
  /\ peval (pderiv c) 0 = 0 /\ peval (pderiv c) T = 0
  /\ peval (pderiv (pderiv c)) 0 = 0 /\ peval (pderiv (pderiv c)) T = 0.
Proof.
  intros HT c. subst c. rewrite minjerk_coeff_R. simpl.
  repeat split; field; exact HT.
Qed.

End Polynomials.

Section MinJerk.

Local Open Scope R_scope.

Variable u : R.

(** C7: on a buffer whose two boundary rows exist, the minimum-jerk
    filler leaves both boundary rows as they were, and writes in every
    free row [i], for every joint, the value at
    [t_i = (i - startBoundary) * discretization] of one quintic
    polynomial of that joint; this polynomial takes the two boundary
    values at [t = 0] and at the time of the end boundary, and its first
    and second derivatives are zero at both. *)
Theorem fillInMinJerk_quintic (t : ChompTrajectory R) (j : Z) :
  (1 <= start_index_ t)%Z -> (start_index_ t <= end_index_ t + 1)%Z ->
  (end_index_ t + 1 < num_points_ t)%Z -> (num_points_ t < 2 ^ 64)%Z ->
  length (trajectory_ t) = Z.to_nat (num_points_ t) ->
  Forall (fun row => length row = Z.to_nat (num_joints_ t)) (trajectory_ t) ->
  discretization_ t <> 0 ->
  (0 <= j < num_joints_ t)%Z ->
  let startBoundary := (start_index_ t - 1)%Z in
  let endBoundary := (end_index_ t + 1)%Z in
  let T := IZR (endBoundary - startBoundary) * discretization_ t in
  let x0 := at_ u (trajectory_ t) startBoundary j in
  let x1 := at_ u (trajectory_ t) endBoundary j in
  let c := minjerk_coeff u (powers T) x0 x1 in
  let filled := trajectory_ (fillInMinJerk u t) in
  at_ u filled startBoundary j = x0
  /\ at_ u filled endBoundary j = x1
  /\ (forall i, (startBoundary < i < endBoundary)%Z ->
        at_ u filled i j = peval c (IZR (i - startBoundary) * discretization_ t))
  /\ length c = 6%nat
  /\ peval c (IZR (startBoundary - startBoundary) * discretization_ t) = x0
  /\ peval c (IZR (endBoundary - startBoundary) * discretization_ t) = x1
  /\ (forall x, derivable_pt_lim (peval c) x (peval (pderiv c) x))
  /\ peval (pderiv c) 0 = 0
  /\ peval (pderiv c) T = 0
  /\ (forall x, derivable_pt_lim (peval (pderiv c)) x (peval (pderiv (pderiv c)) x))
  /\ peval (pderiv (pderiv c)) 0 = 0
  /\ peval (pderiv (pderiv c)) T = 0.
Proof.
  intros Hs Hse He Hmax Hlen Hshape Hdisc Hj sb eb T x0 x1 c filled.
  assert (HT : T <> 0).
  { subst T. apply Rmult_integral_contrapositive_currified; [ | exact Hdisc ].
    apply not_0_IZR. subst sb eb. lia. }
  destruct (minjerk_boundary u T x0 x1 HT) as (Hq0 & HqT & Hv0 & HvT & Ha0 & HaT).
  fold c in Hq0, HqT, Hv0, HvT, Ha0, HaT.
  (* the loop *)
  assert (Hsb : size_t_of (start_index_ t - 1) = sb) by (apply size_t_of_small; lia).
  assert (Heb : size_t_of (end_index_ t + 1) = eb) by (apply size_t_of_small; subst eb; lia).
  set (coeff := map (fun i => minjerk_coeff u (powers T) (at_ u (trajectory_ t) sb i)
                                            (at_ u (trajectory_ t) eb i))
                    (seqZ 0 (num_joints_ t))).
  set (g := fun i j : Z =>
              accumulate (powers (IZR (i - sb) * discretization_ t))
                         (default [] (coeff !! Z.to_nat j))).
  assert (Hfilled : filled
                    = for_range (sb + 1) (sb + 1 + Z.of_nat (Z.to_nat (eb - sb - 1)))
                        (fun m i => for_range 0 (Z.of_nat (Z.to_nat (num_joints_ t)))
                                      (fun m j => set_at m i j (g i j)) m)
                        (trajectory_ t)).
  { subst filled. unfold fillInMinJerk. cbn [trajectory_ with_trajectory].
    rewrite Hsb, Heb. rewrite !Z2Nat.id by (subst sb eb; lia).
    replace (sb + 1 + (eb - sb - 1))%Z with eb by lia.
    reflexivity. }
  destruct (fill_cells u g (sb + 1) (Z.to_nat (num_joints_ t)) (trajectory_ t)
              (Z.to_nat (eb - sb - 1))) as (Hl & _ & Hin & Hout).
  { subst sb. lia. }
  { rewrite Hlen. subst sb eb. lia. }
  { exact Hshape. }
  rewrite <- Hfilled in Hl, Hin, Hout.
  assert (Hcoeff : coeff !! Z.to_nat j = Some c).
  { subst coeff. rewrite list_lookup_fmap, lookup_seqZ_lt by lia.
    simpl. rewrite Z2Nat.id by lia. reflexivity. }
  assert (Hsame : forall i : Z, (0 <= i)%Z -> (i <= sb \/ eb <= i)%Z ->
            at_ u filled i j = at_ u (trajectory_ t) i j).
  { intros i Hi0 Hi. unfold at_. rewrite Hout; [ reflexivity | subst sb eb; lia ]. }
  split; [ apply Hsame; subst sb; lia | ].
  split; [ apply Hsame; subst sb eb; lia | ].
  split.
  { intros i Hi.
    specialize (Hin (Z.to_nat i) (Z.to_nat j) ltac:(subst sb eb; lia) ltac:(lia)).
    rewrite !Z2Nat.id in Hin by (subst sb; lia).
    rewrite Hin. subst g. cbv beta. rewrite Hcoeff. simpl default.
    subst c. rewrite minjerk_coeff_R. apply accumulate_peval. }
  split; [ reflexivity | ].
  split; [ rewrite Z.sub_diag, Rmult_0_l; exact Hq0 | ].
  split; [ exact HqT | ].
  split; [ intros x; apply peval_derivable | ].
  split; [ exact Hv0 | ]. split; [ exact HvT | ].
  split; [ intros x; apply peval_derivable | ].
  split; [ exact Ha0 | exact HaT ].
Qed.

End MinJerk.

Lemma fillInMinJerk_quintic_witness :
  let filled := trajectory_ (fillInMinJerk 0%R Examples.real_buffer) in
  at_ 0%R filled 0 0 = 0%R
  /\ at_ 0%R filled 3 0 = 2%R
  /\ at_ 0%R filled 1 0 = (34 / 81)%R
  /\ at_ 0%R filled 2 0 = (128 / 81)%R.
Proof.
  destruct (fillInMinJerk_quintic 0%R Examples.real_buffer 0)
    as (Hstart & Hend & Hfree & _).
  - simpl. lia.
  - simpl. lia.
  - simpl. lia.
  - simpl. lia.
  - reflexivity.
  - repeat constructor.
  - simpl. lra.
  - simpl. lia.
  - split; [ exact Hstart | ]. split; [ exact Hend | ].
    split.
    + rewrite (Hfree 1%Z) by (simpl; lia). rewrite minjerk_coeff_R. simpl.
      change (IZR (1 - (1 - 1))) with 1%R. change (IZR (2 + 1 - (1 - 1))) with 3%R.
      change (at_ 0%R [[0%R]; [5%R]; [7%R]; [2%R]] (1 - 1) 0) with 0%R.
      change (at_ 0%R [[0%R]; [5%R]; [7%R]; [2%R]] (2 + 1) 0) with 2%R.
      field.
    + rewrite (Hfree 2%Z) by (simpl; lia). rewrite minjerk_coeff_R. simpl.
      change (IZR (2 - (1 - 1))) with 2%R. change (IZR (2 + 1 - (1 - 1))) with 3%R.
      change (at_ 0%R [[0%R]; [5%R]; [7%R]; [2%R]] (1 - 1) 0) with 0%R.
      change (at_ 0%R [[0%R]; [5%R]; [7%R]; [2%R]] (2 + 1) 0) with 2%R.
      field.
Defined.

(** * The recovery loop *)

Section Recovery.

Context {D : Type} `{DoubleOps D} {M : Type}.
Variable ext : Collaborators D M.
Variable scene : PlanningScene D.
Variable group : string.
Variable start : RobotState D.

Lemma attempts_app (a b : list (Event D)) : attempts (a ++ b) = attempts a ++ attempts b.
Proof.
  induction a as [ | e a IH ]; simpl; [ reflexivity | ].
  destruct e; simpl; rewrite IH; reflexivity.
Qed.

Lemma optimize_calls_app (a b : list (Event D)) :
  optimize_calls (a ++ b) = (optimize_calls a + optimize_calls b)%nat.
Proof.
  induction a as [ | e a IH ]; simpl; [ reflexivity | ].
  destruct e; simpl; rewrite IH; reflexivity.
Qed.

Lemma errors_app (a b : list (Event D)) : errors (a ++ b) = errors a ++ errors b.
Proof.
  induction a as [ | e a IH ]; simpl; [ reflexivity | ].
  destruct e; simpl; rewrite IH; reflexivity.
Qed.

Lemma escalate_keeps (p : ChompParameters D) :
  max_recovery_attempts_ (escalate p) = max_recovery_attempts_ p
  /\ enable_failure_recovery_ (escalate p) = enable_failure_recovery_ p
  /\ trajectory_initialization_method_ (escalate p) = trajectory_initialization_method_ p.
Proof. repeat split. Qed.

Lemma length_escalations (p : ChompParameters D) (n : nat) : length (escalations p n) = n.
Proof. revert p. induction n as [ | n IH ]; intros p; simpl; [ | rewrite IH ]; reflexivity. Qed.

Lemma escalations_step (p : ChompParameters D) (n k : nat) (a b : ChompParameters D) :
  escalations p n !! k = Some a -> escalations p n !! S k = Some b -> b = escalate a.
Proof.
  revert p k. induction n as [ | n IH ]; intros p k Ha Hb; [ discriminate | ].
  destruct k as [ | k ].
  - simpl in Ha. injection Ha as <-. destruct n; [ discriminate | ].
    simpl in Hb. injection Hb as <-. reflexivity.
  - simpl in Ha, Hb. exact (IH _ _ Ha Hb).
Qed.

(** The loop from any state: it returns within
    [max_recovery_attempts_ - replan_count + 1] turns. *)
Lemma recovery_loop_run (fuel : nat) (st : LoopState D) :
  let p := if replan_flag st then escalate (params_nonconst st) else params_nonconst st in
  let max := max_recovery_attempts_ p in
  0 <= replan_count st -> max <= INT_MAX ->
  (Z.to_nat (max - replan_count st) < fuel)%nat ->
  exists exit new,
    recovery_loop ext scene group start fuel st = Returned exit
    /\ loop_trace (exit_state exit) = loop_trace st ++ new
    /\ (1 <= length (attempts new) <= Z.to_nat (max - replan_count st) + 1)%nat
    /\ (enable_failure_recovery_ p = false -> length (attempts new) = 1%nat)
    /\ attempts new = escalations p (length (attempts new))
    /\ (optimize_calls new <= length (attempts new))%nat
    /\ last (attempts new) = Some (params_nonconst (exit_state exit))
    /\ is_Some (optimizer (exit_state exit))
    /\ (exists rest, new = NewOptimizer (loop_trajectory st) p :: rest)
    /\ (exit = InitFailed (exit_state exit) ->
        exists before t q,
          new = before ++ [NewOptimizer t q; ROS_ERROR "Could not initialize optimizer"])
    /\ (exit = Break (exit_state exit) -> exists before b, new = before ++ [Optimize b]).
Proof.
  revert st. induction fuel as [ | fuel IH ]; intros st p max Hcount Hmax Hfuel; [ lia | ].
  cbn [recovery_loop]. fold p.
  set (opt := new_ChompOptimizer M ext (built st) (loop_trajectory st) scene group p start).
  destruct (isInitialized opt) eqn:Hinit; cbn [negb].
  2:{ eexists _, _. split; [ reflexivity | ]. cbn [exit_state loop_trace optimizer].
      split; [ rewrite <- app_assoc; reflexivity | ].
      cbn [attempts app optimize_calls length last escalations].
      repeat split; try lia; eauto; try discriminate.
      intros _. exists [], (loop_trajectory st), p. reflexivity. }
  destruct (enable_failure_recovery_ p) eqn:Hen.
  2:{ eexists _, _. split; [ reflexivity | ]. cbn [exit_state loop_trace optimizer].
      split; [ rewrite <- app_assoc; reflexivity | ].
      cbn [attempts app optimize_calls length last escalations params_nonconst].
      repeat split; try lia; eauto; try discriminate.
      intros _. exists [NewOptimizer (loop_trajectory st) p], (fst (optimize opt)).
      reflexivity. }
  destruct (negb (fst (optimize opt)) && (replan_count st <? max_recovery_attempts_ p))
    eqn:Hretry.
  2:{ eexists _, _. split; [ reflexivity | ]. cbn [exit_state loop_trace optimizer].
      split; [ rewrite <- app_assoc; reflexivity | ].
      cbn [attempts app optimize_calls length last escalations params_nonconst].
      repeat split; try lia; eauto; try discriminate.
      intros _. exists [NewOptimizer (loop_trajectory st) p], (fst (optimize opt)).
      reflexivity. }
  apply andb_prop in Hretry as [Hfail Hlt]. apply Z.ltb_lt in Hlt. fold max in Hlt.
  rewrite int_of_small by (unfold INT_MAX in Hmax; lia).
  match goal with
  | |- context [recovery_loop ext scene group start fuel ?s] => set (st' := s)
  end.
  destruct (IH st') as (exit & new & Hrun & Htrace & Hlen & Hdis & Hchain & Hopt & Hlast & Hsome
                        & _ & Hinitfail & Hbreak).
  { subst st'. cbn [replan_count]. lia. }
  { subst st'. cbn [replan_flag params_nonconst]. exact Hmax. }
  { subst st'. cbn [replan_flag params_nonconst replan_count].
    change (max_recovery_attempts_ (escalate p)) with max. lia. }
  subst st'. cbn [replan_flag params_nonconst replan_count loop_trace] in *.
  change (max_recovery_attempts_ (escalate p)) with max in *.
  exists exit, ([NewOptimizer (loop_trajectory st) p] ++ [Optimize (fst (optimize opt))] ++ new).
  split; [ exact Hrun | ].
  split; [ rewrite Htrace, <- !app_assoc; reflexivity | ].
  cbn [attempts app optimize_calls length].
  split; [ lia | ].
  split; [ intros Hoff; congruence | ].
  split; [ cbn [escalations]; f_equal; exact Hchain | ].
  split; [ lia | ].
  split.
  { destruct (attempts new) as [ | q qs ] eqn:Hq; [ simpl in Hlen; lia | ]. exact Hlast. }
  split; [ exact Hsome | ].
  split; [ eexists; reflexivity | ].
  split.
  - intros Hexit. destruct (Hinitfail Hexit) as (before & t & q & ->).
    exists (NewOptimizer (loop_trajectory st) p :: Optimize (fst (optimize opt)) :: before), t, q.
    reflexivity.
  - intros Hexit. destruct (Hbreak Hexit) as (before & b & ->).
    exists (NewOptimizer (loop_trajectory st) p :: Optimize (fst (optimize opt)) :: before), b.
    reflexivity.
Qed.

End Recovery.

Section RecoveryClaim.

Context {D : Type} `{DoubleOps D} {M : Type}.
Variable ext : Collaborators D M.
Variable scene : PlanningScene D.
Variable group : string.
Variable start : RobotState D.

(** C1: from the state in which [solve] enters it, the recovery loop
    returns, whatever the optimizers do, as soon as the fuel exceeds
    [max_recovery_attempts_]; it has then made at least one and at most
    [max_recovery_attempts_ + 1] attempts, exactly one when
    [enable_failure_recovery_] is false; [optimize()] ran at most once per
    attempt; the first attempt uses the caller's parameters and every
    later one the parameters of the attempt before it with 0.02 added to
    the learning rate, 0.002 to the ridge factor, 5 to the planning time
    limit and 50 to the maximal number of iterations. *)
Theorem recovery_loop_bounded (params : ChompParameters D) (trajectory : ChompTrajectory D)
    (trace0 : list (Event D)) (fuel : nat) :
  max_recovery_attempts_ params <= INT_MAX ->
  (Z.to_nat (max_recovery_attempts_ params) < fuel)%nat ->
  exists exit new,
    recovery_loop ext scene group start fuel
      {| replan_count := 0; replan_flag := false; params_nonconst := params;
         loop_trajectory := trajectory; optimizer := None; built := O;
         loop_trace := trace0 |}
    = Returned exit
    /\ loop_trace (exit_state exit) = trace0 ++ new
    /\ (1 <= length (attempts new) <= Z.to_nat (max_recovery_attempts_ params) + 1)%nat
    /\ (0 <= max_recovery_attempts_ params ->
        Z.of_nat (length (attempts new)) <= max_recovery_attempts_ params + 1)
    /\ (enable_failure_recovery_ params = false -> length (attempts new) = 1%nat)
    /\ (optimize_calls new <= length (attempts new))%nat
    /\ attempts new !! 0%nat = Some params
    /\ (forall (k : nat) (p q : ChompParameters D),
          attempts new !! k = Some p -> attempts new !! S k = Some q ->
          learning_rate_ q = (learning_rate_ p + d_lit 2 100)%D
          /\ ridge_factor_ q = (ridge_factor_ p + d_lit 2 1000)%D
          /\ planning_time_limit_ q = (planning_time_limit_ p + d_of_Z 5)%D
          /\ max_iterations_ q = int_of (max_iterations_ p + 50)
          /\ (- 2 ^ 31 <= max_iterations_ p -> max_iterations_ p + 50 <= INT_MAX ->
              max_iterations_ q = max_iterations_ p + 50)
          /\ max_recovery_attempts_ q = max_recovery_attempts_ p
          /\ enable_failure_recovery_ q = enable_failure_recovery_ p).
Proof.
  intros Hmax Hfuel.
  destruct (recovery_loop_run ext scene group start fuel
              {| replan_count := 0; replan_flag := false; params_nonconst := params;
                 loop_trajectory := trajectory; optimizer := None; built := O;
                 loop_trace := trace0 |})
    as (exit & new & Hrun & Htrace & Hlen & Hdis & Hchain & Hopt & _).
  { cbn. lia. }
  { cbn. exact Hmax. }
  { cbn. rewrite Z.sub_0_r. exact Hfuel. }
  cbn [replan_flag params_nonconst replan_count loop_trace] in *.
  rewrite Z.sub_0_r in Hlen.
  exists exit, new.
  split; [ exact Hrun | ]. split; [ exact Htrace | ]. split; [ exact Hlen | ].
  split; [ lia | ]. split; [ exact Hdis | ]. split; [ exact Hopt | ].
  split.
  - rewrite Hchain. destruct (length (attempts new)); [ lia | reflexivity ].
  - intros k p q Hp Hq. rewrite Hchain in Hp, Hq.
    rewrite (escalations_step _ _ _ _ _ Hp Hq).
    unfold escalate, setRecoveryParams.
    cbn [learning_rate_ ridge_factor_ planning_time_limit_ max_iterations_
         max_recovery_attempts_ enable_failure_recovery_].
    repeat split. intros Hlo Hhi. apply int_of_small. unfold INT_MAX in Hhi. lia.
Qed.

End RecoveryClaim.

Lemma recovery_loop_bounded_witness :
  exists exit new,
    recovery_loop (Examples.world (fun _ => false) true) Examples.scene "arm"
      (Examples.state_at 3%float) 3
      {| replan_count := 0; replan_flag := false;
         params_nonconst := Examples.parameters "linear";
         loop_trajectory := Examples.buffer 89; optimizer := None; built := O;
         loop_trace := [] |}
    = Returned exit
    /\ loop_trace (exit_state exit) = new
    /\ (length (attempts new) <= 3)%nat.
Proof.
  destruct (recovery_loop_bounded (Examples.world (fun _ => false) true) Examples.scene "arm"
              (Examples.state_at 3%float) (Examples.parameters "linear")
              (Examples.buffer 89) [] 3)
    as (exit & new & Hrun & Htrace & Hlen & _).
  - vm_compute. discriminate.
  - vm_compute. lia.
  - exists exit, new. split; [ exact Hrun | ]. split; [ exact Htrace | ].
    vm_compute in Hlen. exact (proj2 Hlen).
Defined.

(** The example run: three attempts, each with escalated parameters. *)
Example recovery_loop_three_attempts :
  match
    recovery_loop (Examples.world (fun _ => false) true) Examples.scene "arm"
      (Examples.state_at 3%float) 3
      {| replan_count := 0; replan_flag := false;
         params_nonconst := Examples.parameters "linear";
         loop_trajectory := Examples.buffer 89; optimizer := None; built := O;
         loop_trace := [] |}
  with
  | Returned exit =>
      map (fun p => (learning_rate_ p, ridge_factor_ p, planning_time_limit_ p, max_iterations_ p))
          (attempts (loop_trace (exit_state exit)))
  | _ => []
  end
  = [ (0.04%float, 0%float, 10%float, 200);
      (0.06%float, 0.002%float, 15%float, 250);
      ((0.06 + 0.02)%float, 0.004%float, 20%float, 300) ].
Proof. vm_compute. reflexivity. Qed.

(** * [solve] *)

Section Solve.

Context {D : Type} `{DoubleOps D} {M : Type}.
Variable uninitialized : D.
Variable ext : Collaborators D M.

(** The returns of the part of [solve] that starts with the recovery loop,
    one by one. *)
Lemma optimize_and_report_returned (scene : PlanningScene D) (group : string)
    (start_state : RobotState D) (goal : Constraints D) (params : ChompParameters D)
    (res : MotionPlanDetailedResponse D) (trajectory : ChompTrajectory D)
    (filled_trace : list (Event D)) (r : SolveReturn D) :
  optimize_and_report uninitialized ext scene group start_state goal params res
                      trajectory filled_trace = Returned r ->
  exists exit,
    recovery_loop ext scene group start_state (S (Z.to_nat (max_recovery_attempts_ params)))
      {| replan_count := 0; replan_flag := false; params_nonconst := params;
         loop_trajectory := trajectory; optimizer := None; built := O;
         loop_trace := filled_trace |} = Returned exit
    /\ params_after r = params
    /\ ((exit = InitFailed (exit_state exit)
         /\ ret r = false
         /\ response r = set_error_code PLANNING_FAILED res
         /\ params_nonconst_after r = Some (params_nonconst (exit_state exit))
         /\ trace r = loop_trace (exit_state exit))
        \/ (exit = Break (exit_state exit)
            /\ exists result opt,
                 output_trajectory uninitialized
                   (getDiffMatrix M ext (getNumPoints (loop_trajectory (exit_state exit))))
                   (getRobotModel scene group) start_state (loop_trajectory (exit_state exit))
                 = Returned result
                 /\ optimizer (exit_state exit) = Some opt
                 /\ res_trajectory_ (response r) = [result]
                 /\ processing_time_ (response r) = [elapsed M ext]
                 /\ params_nonconst_after r
                    = Some (setRecoveryParams (learning_rate_ params) (ridge_factor_ params)
                              (planning_time_limit_ params) (max_iterations_ params)
                              (params_nonconst (exit_state exit)))
                 /\ ((isCollisionFree opt = false
                      /\ ret r = false
                      /\ error_code_ (response r) = INVALID_MOTION_PLAN
                      /\ trace r = loop_trace (exit_state exit)
                                   ++ [ROS_ERROR "Motion plan is invalid."])
                     \/ (isCollisionFree opt = true
                         /\ exists last_state,
                              last (waypoints result) = Some last_state
                              /\ ((exists constraint,
                                     goal_check ext last_state (joint_constraints goal)
                                     = Some constraint
                                     /\ ret r = false
                                     /\ error_code_ (response r) = GOAL_CONSTRAINTS_VIOLATED
                                     /\ trace r
                                        = loop_trace (exit_state exit)
                                          ++ [ROS_ERROR ("Goal constraints are violated: "
                                                         ++ joint_name constraint)])
                                  \/ (goal_check ext last_state (joint_constraints goal) = None
                                      /\ ret r = true
                                      /\ error_code_ (response r) = SUCCESS
                                      /\ trace r = loop_trace (exit_state exit))))))).
Proof.
  unfold optimize_and_report. intros Hrun.
  destruct (recovery_loop _ _ _ _ _ _) as [ [st | st] | | ]; try discriminate.
  - (* break *)
    exists (Break st). split; [ reflexivity | ]. cbn [exit_state].
    destruct (output_trajectory _ _ _ _ _) as [ result | | ] eqn:Hout; try discriminate.
    cbn [bind] in Hrun.
    destruct (optimizer st) as [ opt | ] eqn:Hopt; try discriminate.
    cbn [checked bind] in Hrun.
    destruct (isCollisionFree opt) eqn:Hfree; cbn [negb] in Hrun.
    + destruct (last (waypoints result)) as [ last_state | ] eqn:Hlast; try discriminate.
      cbn [checked bind] in Hrun.
      destruct (goal_check ext last_state (joint_constraints goal)) as [ c | ] eqn:Hgoal;
        injection Hrun as <-; cbn.
      * split; [ reflexivity | ]. right. split; [ reflexivity | ].
        exists result, opt. repeat split. right. split; [ exact Hfree | ].
        exists last_state. split; [ exact Hlast | ]. left. exists c. repeat split. exact Hgoal.
      * split; [ reflexivity | ]. right. split; [ reflexivity | ].
        exists result, opt. repeat split. right. split; [ exact Hfree | ].
        exists last_state. split; [ exact Hlast | ]. right. repeat split. exact Hgoal.
    + injection Hrun as <-; cbn.
      split; [ reflexivity | ]. right. split; [ reflexivity | ].
      exists result, opt. repeat split. left. repeat split. exact Hfree.
  - (* optimizer not initialized *)
    exists (InitFailed st). split; [ reflexivity | ]. cbn [exit_state].
    injection Hrun as <-; cbn. split; [ reflexivity | ]. left. repeat split.
Qed.

(** The returns of [solve]: the five early failures, or a return of the
    part that starts with the recovery loop. *)
Lemma solve_returned (planning_scene : option (PlanningScene D)) (req : MotionPlanRequest D M)
    (params : ChompParameters D) (res : MotionPlanDetailedResponse D) (r : SolveReturn D) :
  solve uninitialized ext planning_scene req params res = Returned r ->
  (exists code msg,
     r = {| ret := false; response := set_error_code code res; params_after := params;
            params_nonconst_after := None; trace := [ROS_ERROR msg] |}
     /\ (code = FAILURE \/ code = INVALID_ROBOT_STATE \/ code = INVALID_GOAL_CONSTRAINTS))
  \/ (exists scene goal,
        planning_scene = Some scene
        /\ goal_constraints M req = [goal]
        /\ let start_state :=
             robotStateMsgToRobotState M ext scene (start_state M req)
                                       (getCurrentState scene) in
           let filled :=
             initial_fill uninitialized ext params
               (boundary_trajectory uninitialized ext scene (group_name M req) start_state
                  (goal_state_of ext start_state goal)) in
           satisfiesBounds M ext start_state = true
           /\ unsupported_goal goal = false
           /\ satisfiesBounds M ext (goal_state_of ext start_state goal) = true
           /\ optimize_and_report uninitialized ext scene (group_name M req) start_state goal
                params res (fst filled) (snd filled) = Returned r).
Proof.
  unfold solve. intros Hrun.
  destruct planning_scene as [ scene | ].
  2:{ left. injection Hrun as <-. eexists _, _. split; [ reflexivity | tauto ]. }
  destruct (satisfiesBounds M ext _) eqn:Hstart; cbn [negb] in Hrun.
  2:{ left. injection Hrun as <-. eexists _, _. split; [ reflexivity | tauto ]. }
  destruct (goal_constraints M req) as [ | goal [ | ] ] eqn:Hgoals.
  1, 3: left; injection Hrun as <-; eexists _, _; split; [ reflexivity | tauto ].
  destruct (unsupported_goal goal) eqn:Hgoal.
  { left. injection Hrun as <-. eexists _, _. split; [ reflexivity | tauto ]. }
  destruct (satisfiesBounds M ext (goal_state_of _ _ _)) eqn:Hbounds; cbn [negb] in Hrun.
  2:{ left. injection Hrun as <-. eexists _, _. split; [ reflexivity | tauto ]. }
  right. exists scene, goal. split; [ reflexivity | ]. split; [ reflexivity | ].
  cbv zeta. rewrite Hstart, Hgoal, Hbounds.
  destruct (initial_fill _ _ _ _) as [ trajectory filled_trace ].
  repeat split. exact Hrun.
Qed.

(** A loop whose body needs no fuel needs none. *)
Lemma foldM_fuel_free {A S : Type} (body : S -> A -> Outcome S) (l : list A) :
  (forall s a, body s a <> OutOfFuel) -> forall s, foldM body l s <> OutOfFuel.
Proof.
  intros Hbody. induction l as [ | a l IH ]; intros s; cbn [foldM].
  - discriminate.
  - destruct (body s a) eqn:Hstep; cbn [bind].
    + apply IH.
    + discriminate.
    + destruct (Hbody s a Hstep).
Qed.

Lemma output_trajectory_fuel_free (diff_matrix : Matrix D) (group : JointModelGroup)
    (start_state : RobotState D) (trajectory : ChompTrajectory D) :
  output_trajectory uninitialized diff_matrix group start_state trajectory <> OutOfFuel.
Proof.
  unfold output_trajectory. cbv zeta.
  apply foldM_fuel_free. intros result i.
  destruct (getTrajectoryPoint trajectory i) as [ source | ]; cbn [checked bind];
    [ | discriminate ].
  match goal with
  | |- bind (foldM ?body ?l ?s) _ <> _ =>
      pose proof (foldM_fuel_free body l) as Hinner; destruct (foldM body l s) eqn:Hrun
  end; cbn [bind]; try discriminate.
  exfalso. revert Hrun. apply Hinner.
  intros [ [state joint_index] vel_index ] jm. unfold output_joint.
  destruct (negb (getVariableCount jm =? 1)); [ discriminate | ].
  destruct (source !! joint_index); cbn [checked bind]; [ | discriminate ].
  match goal with
  | |- bind (checked ?o) _ <> _ => destruct o
  end; cbn [checked bind]; discriminate.
Qed.

(** [solve] always comes to an end: with a retry bound that the counter can
    reach, the fuel given to the recovery loop is never used up. *)
Lemma solve_fuel_suffices (planning_scene : option (PlanningScene D))
    (req : MotionPlanRequest D M) (params : ChompParameters D)
    (res : MotionPlanDetailedResponse D) :
  max_recovery_attempts_ params <= INT_MAX ->
  solve uninitialized ext planning_scene req params res <> OutOfFuel.
Proof.
  intros Hmax. unfold solve.
  destruct planning_scene as [ scene | ]; [ | discriminate ].
  destruct (satisfiesBounds M ext _); cbn [negb]; [ | discriminate ].
  destruct (goal_constraints M req) as [ | goal [ | ] ]; try discriminate.
  destruct (unsupported_goal goal); [ discriminate | ].
  destruct (satisfiesBounds M ext (goal_state_of _ _ _)); cbn [negb]; [ | discriminate ].
  cbv zeta.
  destruct (initial_fill _ _ _ _) as [ trajectory filled_trace ].
  unfold optimize_and_report.
  match goal with
  | |- context [recovery_loop ext ?scene ?group ?start ?fuel ?st] =>
      destruct (recovery_loop_run ext scene group start fuel st) as (exit & new & Hloop & _);
        [ cbn; lia | cbn; exact Hmax | cbn; lia | rewrite Hloop ]
  end.
  destruct exit as [ st | st ]; [ | discriminate ].
  match goal with
  | |- bind ?o _ <> _ =>
      pose proof (output_trajectory_fuel_free
                    (getDiffMatrix M ext (getNumPoints (loop_trajectory st)))
                    (getRobotModel scene (group_name M req))
                    (robotStateMsgToRobotState M ext scene (start_state M req)
                       (getCurrentState scene))
                    (loop_trajectory st)) as Hout;
        destruct o eqn:Hrun
  end; cbn [bind]; try discriminate; [ | contradiction ].
  destruct (optimizer st) as [ opt | ]; cbn [checked bind]; [ | discriminate ].
  destruct (isCollisionFree opt); cbn [negb]; [ | discriminate ].
  destruct (last (waypoints _)); cbn [checked bind]; [ | discriminate ].
  destruct (goal_check _ _ _); discriminate.
Qed.

(** C9: whatever [solve] returns, and however many escalations the
    recovery loop made, the parameter set the caller passed is what it was
    before the call, field by field; the escalations were made on the local
    copy, which is itself reset to the caller's four values whenever the
    loop is left by [break]. *)
Theorem solve_keeps_caller_parameters (planning_scene : option (PlanningScene D))
    (req : MotionPlanRequest D M) (params : ChompParameters D)
    (res : MotionPlanDetailedResponse D) (r : SolveReturn D) :
  solve uninitialized ext planning_scene req params res = Returned r ->
  params_after r = params
  /\ learning_rate_ (params_after r) = learning_rate_ params
  /\ ridge_factor_ (params_after r) = ridge_factor_ params
  /\ planning_time_limit_ (params_after r) = planning_time_limit_ params
  /\ max_iterations_ (params_after r) = max_iterations_ params
  /\ (forall local, params_nonconst_after r = Some local ->
        error_code_ (response r) <> PLANNING_FAILED ->
        learning_rate_ local = learning_rate_ params
        /\ ridge_factor_ local = ridge_factor_ params
        /\ planning_time_limit_ local = planning_time_limit_ params
        /\ max_iterations_ local = max_iterations_ params).
Proof.
  intros Hrun.
  assert (Hsame : params_after r = params
          /\ (forall local, params_nonconst_after r = Some local ->
                error_code_ (response r) <> PLANNING_FAILED ->
                learning_rate_ local = learning_rate_ params
                /\ ridge_factor_ local = ridge_factor_ params
                /\ planning_time_limit_ local = planning_time_limit_ params
                /\ max_iterations_ local = max_iterations_ params)).
  { destruct (solve_returned _ _ _ _ _ Hrun)
      as [ (code & msg & -> & _) | (scene & goal & _ & _ & _ & _ & _ & Hreport) ].
    - split; [ reflexivity | ]. intros local Hlocal. discriminate.
    - destruct (optimize_and_report_returned _ _ _ _ _ _ _ _ _ Hreport)
        as (exit & _ & Hparams & Hcases).
      split; [ exact Hparams | ].
      intros local Hlocal Hcode.
      destruct Hcases as [ (_ & _ & Hres & _) | (_ & result & opt & _ & _ & _ & _ & Hrestored & _) ].
      + rewrite Hres in Hcode. contradiction Hcode. reflexivity.
      + rewrite Hrestored in Hlocal. injection Hlocal as <-. repeat split. }
  destruct Hsame as [Hsame Hlocal].
  rewrite Hsame.
  split; [ reflexivity | ]. split; [ reflexivity | ]. split; [ reflexivity | ].
  split; [ reflexivity | ]. split; [ reflexivity | exact Hlocal ].
Qed.

End Solve.

Lemma solve_keeps_caller_parameters_witness :
  exists r,
    solve 0%float (Examples.world (fun _ => false) true) (Some Examples.scene)
          Examples.request (Examples.parameters "linear") Examples.empty_response
    = Returned r
    /\ length (attempts (trace r)) = 3%nat
    /\ params_after r = Examples.parameters "linear".
Proof.
  destruct (solve 0%float (Examples.world (fun _ => false) true) (Some Examples.scene)
              Examples.request (Examples.parameters "linear") Examples.empty_response)
    as [ r | | ] eqn:Hrun.
  2, 3: vm_compute in Hrun; discriminate.
  exists r. split; [ reflexivity | ].
  split.
  - vm_compute in Hrun. injection Hrun as <-. reflexivity.
  - apply (solve_keeps_caller_parameters 0%float _ _ _ _ _ _ Hrun).
Defined.

(** * Goal adjustment for wrap-around joints *)

Section GoalAdjustment.

Context {D : Type} `{DoubleOps D}.
Variable u : D.
Variable sad : D -> D -> D.

Lemma set_at_other_row (m : Matrix D) (i j : Z) (v : D) (k : nat) :
  k <> Z.to_nat i -> set_at m i j v !! k = m !! k.
Proof.
  intros Hk. unfold set_at. destruct (m !! Z.to_nat i); [ | reflexivity ].
  apply list_lookup_insert_ne. congruence.
Qed.

Lemma length_set_at (m : Matrix D) (i j : Z) (v : D) : length (set_at m i j v) = length m.
Proof. unfold set_at. destruct (m !! Z.to_nat i); [ apply length_insert | reflexivity ]. Qed.

Lemma fix_goal_step_other_row (joints : list JointModel) (goal_index : Z) (m : Matrix D)
    (i : Z) (k : nat) :
  k <> Z.to_nat goal_index -> fix_goal_step u sad joints goal_index m i !! k = m !! k.
Proof.
  intros Hk. unfold fix_goal_step.
  destruct (joints !! Z.to_nat i) as [ model | ]; [ | reflexivity ].
  destruct (jm_kind model) as [ [ | ] | | | | ]; try reflexivity.
  apply set_at_other_row. exact Hk.
Qed.

(** The adjustment writes in the goal row only. *)
Lemma fix_goal_other_rows (joints : list JointModel) (goal_index : Z) (m : Matrix D) (k : nat) :
  k <> Z.to_nat goal_index -> fix_goal u sad joints goal_index m !! k = m !! k.
Proof.
  intros Hk. unfold fix_goal.
  generalize (seqZ 0 (Z.of_nat (length joints))). intros l. revert m.
  induction l as [ | i l IH ]; intros m; simpl; [ reflexivity | ].
  rewrite IH. apply fix_goal_step_other_row. exact Hk.
Qed.

Lemma length_fix_goal (joints : list JointModel) (goal_index : Z) (m : Matrix D) :
  length (fix_goal u sad joints goal_index m) = length m.
Proof.
  unfold fix_goal.
  generalize (seqZ 0 (Z.of_nat (length joints))). intros l. revert m.
  induction l as [ | i l IH ]; intros m; simpl; [ reflexivity | ].
  rewrite IH. unfold fix_goal_step.
  destruct (joints !! Z.to_nat i) as [ model | ]; [ | reflexivity ].
  destruct (jm_kind model) as [ [ | ] | | | | ]; try reflexivity.
  apply length_set_at.
Qed.

(** The loop over the first [n] joints. *)
Lemma fix_goal_loop (joints : list JointModel) (goal_index : Z) (m : Matrix D) (n : nat) :
  0 <= goal_index ->
  (Z.to_nat goal_index < length m)%nat ->
  (0 < length m)%nat ->
  Forall (fun row => (length joints <= length row)%nat) m ->
  (n <= length joints)%nat ->
  let m' := foldl (fix_goal_step u sad joints goal_index) m (seqZ 0 (Z.of_nat n)) in
  length m' = length m
  /\ Forall (fun row => (length joints <= length row)%nat) m'
  /\ (forall i : nat, i <> Z.to_nat goal_index -> m' !! i = m !! i)
  /\ (forall (k : nat) (jm : JointModel), joints !! k = Some jm ->
        at_ u m' goal_index (Z.of_nat k)
        = if decide (k < n)%nat then adjusted u sad m goal_index jm k
          else at_ u m goal_index (Z.of_nat k))
  /\ (forall k : nat, (n <= k)%nat -> at_ u m' 0 (Z.of_nat k) = at_ u m 0 (Z.of_nat k)).
Proof.
  intros Hgoal Hrow Hrow0 Hshape. induction n as [ | n IH ]; intros Hn m'.
  - subst m'. simpl. split; [ reflexivity | ]. split; [ exact Hshape | ].
    split; [ reflexivity | ]. split; [ | reflexivity ].
    intros k jm Hk. destruct (decide (k < 0)%nat); [ lia | reflexivity ].
  - subst m'. rewrite seqZ_S, foldl_app. cbn [foldl]. rewrite Z.add_0_l.
    destruct IH as (Hl & Hs & Hother & Hgoalrow & Hstart); [ lia | ].
    set (m1 := foldl (fix_goal_step u sad joints goal_index) m (seqZ 0 (Z.of_nat n))) in *.
    destruct (lookup_lt_is_Some_2 joints n) as [model Hmodel]; [ lia | ].
    assert (Hkeep : continuous model = false ->
                    fix_goal_step u sad joints goal_index m1 (Z.of_nat n) = m1).
    { unfold fix_goal_step, continuous. rewrite Nat2Z.id, Hmodel.
      destruct (jm_kind model) as [ [ | ] | | | | ]; intros; try reflexivity; discriminate. }
    assert (Hset : continuous model = true ->
                   fix_goal_step u sad joints goal_index m1 (Z.of_nat n)
                   = set_at m1 goal_index (Z.of_nat n) (adjusted u sad m goal_index model n)).
    { intros Hc. unfold adjusted. rewrite Hc.
      unfold fix_goal_step. rewrite Nat2Z.id, Hmodel.
      unfold continuous in Hc.
      destruct (jm_kind model) as [ [ | ] | | | | ]; try discriminate.
      cbv zeta.
      rewrite (Hstart n (le_n n)).
      rewrite (Hgoalrow n model Hmodel).
      destruct (decide (n < n)%nat); [ lia | ].
      reflexivity. }
    destruct (continuous model) eqn:Hcont.
    2:{ rewrite (Hkeep eq_refl).
        split; [ exact Hl | ]. split; [ exact Hs | ]. split; [ exact Hother | ].
        split.
        - intros k jm Hk. rewrite (Hgoalrow k jm Hk).
          destruct (decide (k < n)%nat), (decide (k < S n)%nat); try lia; try reflexivity.
          assert (k = n) by lia. subst k.
          assert (jm = model) by congruence. subst jm.
          unfold adjusted. rewrite Hcont. reflexivity.
        - intros k Hk. apply Hstart. lia. }
    rewrite (Hset eq_refl).
    destruct (lookup_lt_is_Some_2 m1 (Z.to_nat goal_index)) as [row Hr]; [ lia | ].
    assert (Hrl : (length joints <= length row)%nat).
    { exact (Forall_lookup_1 (fun row => (length joints <= length row)%nat) m1 _ _ Hs Hr). }
    assert (Hm2 : set_at m1 goal_index (Z.of_nat n) (adjusted u sad m goal_index model n)
                  = <[Z.to_nat goal_index := <[n := adjusted u sad m goal_index model n]> row]> m1).
    { unfold set_at. rewrite Hr, Nat2Z.id. reflexivity. }
    rewrite Hm2.
    split; [ rewrite length_insert; exact Hl | ].
    split; [ apply Forall_insert; [ exact Hs | rewrite length_insert; exact Hrl ] | ].
    split; [ intros i Hi; rewrite list_lookup_insert_ne by congruence; apply Hother; exact Hi | ].
    assert (Hat : forall k : nat,
              at_ u (<[Z.to_nat goal_index := <[n := adjusted u sad m goal_index model n]> row]> m1)
                  goal_index (Z.of_nat k)
              = if decide (k = n) then adjusted u sad m goal_index model n
                else at_ u m1 goal_index (Z.of_nat k)).
    { intros k. unfold at_. rewrite list_lookup_insert_eq by lia. rewrite Hr, Nat2Z.id.
      destruct (decide (k = n)) as [-> | Hne].
      - rewrite list_lookup_insert_eq by lia. reflexivity.
      - rewrite list_lookup_insert_ne by congruence. reflexivity. }
    split.
    + intros k jm Hk. rewrite Hat, (Hgoalrow k jm Hk).
      destruct (decide (k = n)) as [-> | Hne].
      * assert (jm = model) by congruence. subst jm.
        destruct (decide (n < S n)%nat); [ reflexivity | lia ].
      * destruct (decide (k < n)%nat), (decide (k < S n)%nat); try lia; reflexivity.
    + intros k Hk. rewrite <- (Hstart k) by lia.
      destruct (decide (Z.to_nat goal_index = 0%nat)) as [Hzero | Hnz].
      * assert (goal_index = 0) by lia. subst goal_index.
        rewrite Hat. destruct (decide (k = n)); [ lia | reflexivity ].
      * unfold at_. change (Z.to_nat 0) with 0%nat.
        rewrite list_lookup_insert_ne by congruence. reflexivity.
Qed.

End GoalAdjustment.

Section ShortestAngularDistance.

Local Open Scope R_scope.

Lemma PI_bounds : 3.14159 < PI < 3.1416.
Proof.
  pose proof (PI_2_3_7_ineq 2) as [Hlo Hhi].
  unfold sum_f_R0, tg_alt, PI_2_3_7_tg, Ratan_seq in Hlo, Hhi.
  simpl in Hlo, Hhi.
  split; lra.
Qed.

Lemma shortest_angular_distance_range (a b : R) :
  - PI < shortest_angular_distance a b <= PI.
Proof.
  unfold shortest_angular_distance. cbv zeta.
  pose proof PI_RGT_0 as Hpi.
  set (x := (b - a - PI) / (2 * PI)).
  pose proof (Zceil_bound x) as [Hlo Hhi].
  assert (Hx : x * (2 * PI) = b - a - PI) by (subst x; field; lra).
  split; nra.
Qed.

Lemma shortest_angular_distance_congruent (a b : R) :
  exists n : Z, a + shortest_angular_distance a b = b + 2 * PI * IZR n.
Proof.
  exists (- Zceil ((b - a - PI) / (2 * PI)))%Z.
  unfold shortest_angular_distance. cbv zeta. rewrite opp_IZR. ring.
Qed.

(** No other value of [(-PI, PI]] is congruent to the difference. *)
Lemma shortest_angular_distance_unique (a b delta : R) (n : Z) :
  - PI < delta <= PI -> a + delta = b + 2 * PI * IZR n ->
  delta = shortest_angular_distance a b.
Proof.
  intros Hrange Hcong.
  pose proof (shortest_angular_distance_range a b) as Hr.
  destruct (shortest_angular_distance_congruent a b) as [k Hk].
  pose proof PI_RGT_0 as Hpi.
  assert (Hdiff : delta - shortest_angular_distance a b = 2 * PI * IZR (n - k)).
  { rewrite minus_IZR. lra. }
  assert (Hnk : (n - k = 0)%Z).
  { assert (Hlt : (-1 < n - k < 1)%Z); [ | lia ].
    split; apply lt_IZR; simpl; nra. }
  rewrite Hnk in Hdiff. simpl in Hdiff. lra.
Qed.

Lemma shortest_angular_distance_3_m3 : shortest_angular_distance 3 (-3) = 2 * PI - 6.
Proof.
  pose proof PI_bounds as Hpi.
  assert (Hfloor : Zfloor (- ((-3 - 3 - PI) / (2 * PI))) = 1%Z).
  { apply Zfloor_eq. simpl.
    assert (Hx : - ((-3 - 3 - PI) / (2 * PI)) * (2 * PI) = 6 + PI) by (field; lra).
    split; nra. }
  unfold shortest_angular_distance, Zceil. cbv zeta. rewrite Hfloor, opp_IZR. lra.
Qed.

End ShortestAngularDistance.

Section GoalAdjustmentClaim.

Local Open Scope R_scope.

Variable u : R.

(** C6: on a buffer whose rows have a column for every active joint, the
    goal-adjustment step leaves every row but the goal row as it was; in
    the goal row, the entry of a continuously rotating revolute joint
    becomes [start + delta], with [delta] the shortest angular distance
    from the start entry to the former goal entry, which lies in
    [(-PI, PI]] and makes [start + delta] congruent to the former goal
    modulo [2 PI], and the entry of any other joint is left as it was.
    From 3.0 to -3.0 the distance is [2 PI - 6], about 0.2832, and the
    adjusted goal about 3.2832. *)
Theorem fix_goal_shortest (joints : list JointModel) (goal_index : Z) (m : Matrix R) :
  (0 <= goal_index)%Z ->
  (Z.to_nat goal_index < length m)%nat ->
  Forall (fun row => (length joints <= length row)%nat) m ->
  let m' := fix_goal u shortest_angular_distance joints goal_index m in
  (forall i : nat, i <> Z.to_nat goal_index -> m' !! i = m !! i)
  /\ (forall (k : nat) (jm : JointModel), joints !! k = Some jm ->
        let start := at_ u m 0 (Z.of_nat k) in
        let naiveGoal := at_ u m goal_index (Z.of_nat k) in
        let delta := shortest_angular_distance start naiveGoal in
        (continuous jm = true ->
           at_ u m' goal_index (Z.of_nat k) = start + delta
           /\ - PI < delta <= PI
           /\ (exists n : Z, start + delta = naiveGoal + 2 * PI * IZR n)
           /\ (forall delta' (n : Z), - PI < delta' <= PI ->
                 start + delta' = naiveGoal + 2 * PI * IZR n -> delta' = delta))
        /\ (continuous jm = false -> at_ u m' goal_index (Z.of_nat k) = naiveGoal))
  /\ shortest_angular_distance 3 (-3) = 2 * PI - 6
  /\ Rabs (shortest_angular_distance 3 (-3) - 0.2832) < 0.0001
  /\ Rabs (3 + shortest_angular_distance 3 (-3) - 3.2832) < 0.0001.
Proof.
  intros Hgoal Hrow Hshape m'.
  destruct (fix_goal_loop u shortest_angular_distance joints goal_index m (length joints)
              Hgoal Hrow ltac:(lia) Hshape (le_n _)) as (_ & _ & Hother & Hgoalrow & _).
  fold (fix_goal u shortest_angular_distance joints goal_index m) in Hother, Hgoalrow.
  fold m' in Hother, Hgoalrow.
  split; [ exact Hother | ].
  split.
  - intros k jm Hk start naiveGoal delta.
    specialize (Hgoalrow k jm Hk).
    destruct (decide (k < length joints)%nat) as [ _ | Hge ].
    2:{ apply lookup_lt_Some in Hk. lia. }
    unfold adjusted in Hgoalrow.
    split.
    + intros Hc. rewrite Hc in Hgoalrow.
      split; [ exact Hgoalrow | ].
      split; [ apply shortest_angular_distance_range | ].
      split; [ apply shortest_angular_distance_congruent | ].
      intros delta' n Hr Hn. exact (shortest_angular_distance_unique _ _ _ _ Hr Hn).
    + intros Hc. rewrite Hc in Hgoalrow. exact Hgoalrow.
  - pose proof PI_bounds as Hpi.
    rewrite shortest_angular_distance_3_m3.
    split; [ reflexivity | ].
    split; apply Rabs_def1; lra.
Qed.

End GoalAdjustmentClaim.

Lemma fix_goal_shortest_witness :
  let m := [[3%R]; [0%R]; [(-3)%R]] in
  let start := at_ 0%R m 0 (Z.of_nat 0) in
  let naiveGoal := at_ 0%R m 2 (Z.of_nat 0) in
  at_ 0%R (fix_goal 0%R shortest_angular_distance [Examples.joint] 2 m) 2 (Z.of_nat 0)
  = (start + shortest_angular_distance start naiveGoal)%R.
Proof.
  intros m start naiveGoal.
  destruct (fix_goal_shortest 0%R [Examples.joint] 2 m) as (_ & Hgoal & _).
  - lia.
  - simpl. lia.
  - repeat constructor.
  - destruct (Hgoal 0%nat Examples.joint eq_refl) as [Hcontinuous _].
    destruct (Hcontinuous eq_refl) as [Hvalue _].
    exact Hvalue.
Defined.

(** * The output waypoints *)

Section Output.

Context {D : Type} `{DoubleOps D}.
Variable u : D.

Lemma foldM_app {A S : Type} (body : S -> A -> Outcome S) (l1 l2 : list A) (s : S) :
  foldM body (l1 ++ l2) s = bind (foldM body l1 s) (foldM body l2).
Proof.
  revert s. induction l1 as [ | a l1 IH ]; intros s; simpl.
  - reflexivity.
  - destruct (body s a); simpl; [ apply IH | reflexivity | reflexivity ].
Qed.

(** The loop over the active joints, from any rank on: every joint gets the
    position and the velocity read at its rank. *)
Lemma output_joints_run (source : list D) (boundary : bool) (initial_vel : list D)
    (velocity_matrix : list (list D)) (i : Z) (joints : list JointModel) :
  forall (state : RobotState D) (rank : nat) (final : RobotState D * nat * nat),
    foldM (output_joint source boundary initial_vel velocity_matrix i) joints
          (state, rank, rank) = Returned final ->
    (forall index, index ∉ map getFirstVariableIndex joints ->
        variable_position (fst (fst final)) index = variable_position state index
        /\ variable_velocity (fst (fst final)) index = variable_velocity state index)
    /\ (NoDup (map getFirstVariableIndex joints) ->
        forall (k : nat) (jm : JointModel), joints !! k = Some jm ->
          source !! (rank + k)%nat = Some (variable_position (fst (fst final))
                                             (getFirstVariableIndex jm))
          /\ velocity_read boundary initial_vel velocity_matrix i (rank + k)
             = Some (variable_velocity (fst (fst final)) (getFirstVariableIndex jm))).
Proof.
  induction joints as [ | jm0 joints IH ]; intros state rank final Hrun.
  - simpl in Hrun. injection Hrun as <-. simpl.
    split; [ intros; split; reflexivity | ]. intros _ k jm Hk. discriminate.
  - cbn [foldM] in Hrun. unfold output_joint at 1 in Hrun.
    destruct (getVariableCount jm0 =? 1); cbn [negb] in Hrun; [ | discriminate ].
    destruct (source !! rank) as [ p | ] eqn:Hp; cbn [checked bind] in Hrun; [ | discriminate ].
    fold (velocity_read boundary initial_vel velocity_matrix i rank) in Hrun.
    destruct (velocity_read boundary initial_vel velocity_matrix i rank) as [ v | ] eqn:Hv;
      cbn [checked bind] in Hrun; [ | discriminate ].
    destruct (IH _ _ _ Hrun) as [Hother Hjoints].
    split.
    + intros index Hindex. rewrite list_elem_of_In in Hindex. simpl in Hindex.
      destruct (Hother index) as [Hpos Hvel].
      { rewrite list_elem_of_In. tauto. }
      rewrite Hpos, Hvel. simpl.
      destruct (Nat.eqb_spec index (getFirstVariableIndex jm0)); [ | split; reflexivity ].
      subst index. tauto.
    + intros Hnodup k jm Hk. simpl in Hnodup. apply NoDup_cons in Hnodup as [Hfresh Hnodup].
      destruct k as [ | k ].
      * simpl in Hk. injection Hk as <-. rewrite Nat.add_0_r.
        destruct (Hother (getFirstVariableIndex jm0) Hfresh) as [Hpos Hvel].
        rewrite Hpos, Hvel, Hp, Hv. simpl. rewrite Nat.eqb_refl. split; reflexivity.
      * simpl in Hk. replace (rank + S k)%nat with (S rank + k)%nat by lia.
        apply (Hjoints Hnodup k jm Hk).
Qed.

(** The loop over the rows. *)
Lemma output_rows (diff_matrix : Matrix D) (group : JointModelGroup)
    (start_state : RobotState D) (trajectory : ChompTrajectory D) (n : nat)
    (result : RobotTrajectory D) :
  let num_point := getNumPoints trajectory in
  let initial_vel := replicate 7 (d_of_Z 0) in
  let velocity_matrix := velocity_columns u diff_matrix trajectory in
  foldM (fun result i =>
           (let* source := checked (getTrajectoryPoint trajectory i) in
            let boundary := (i =? 0) || (i =? size_t_of (num_point - 1)) in
            let* filled := foldM (output_joint source boundary initial_vel velocity_matrix i)
                                 (getActiveJointModels (getGroup result))
                                 (start_state, O, O) in
            Returned (addSuffixWayPoint (fst (fst filled)) (d_lit 1 10) result))%outcome)
        (seqZ 0 (Z.of_nat n))
        {| getGroup := group; waypoints := []; duration_from_previous := [] |}
  = Returned result ->
  getGroup result = group
  /\ length (waypoints result) = n
  /\ duration_from_previous result = replicate n (d_lit 1 10)
  /\ (forall (i : nat) (wp : RobotState D), waypoints result !! i = Some wp ->
        exists source final,
          getTrajectoryPoint trajectory (Z.of_nat i) = Some source
          /\ foldM (output_joint source
                      ((Z.of_nat i =? 0) || (Z.of_nat i =? size_t_of (num_point - 1)))
                      initial_vel velocity_matrix (Z.of_nat i))
                   (getActiveJointModels group) (start_state, O, O) = Returned final
          /\ wp = fst (fst final)).
Proof.
  intros num_point initial_vel velocity_matrix.
  revert result. induction n as [ | n IH ]; intros result Hrun.
  - simpl in Hrun. injection Hrun as <-. simpl.
    repeat split. intros i wp Hwp. discriminate.
  - rewrite seqZ_S, foldM_app in Hrun.
    destruct (foldM _ (seqZ 0 (Z.of_nat n)) _) as [ result1 | | ] eqn:Hrun1;
      cbn [bind] in Hrun; try discriminate.
    destruct (IH result1 eq_refl) as (Hgroup & Hlen & Hdur & Hrows).
    cbn [foldM] in Hrun. rewrite Z.add_0_l in Hrun.
    destruct (getTrajectoryPoint trajectory (Z.of_nat n)) as [ source | ] eqn:Hsource;
      cbn [checked bind] in Hrun; try discriminate.
    rewrite Hgroup in Hrun.
    destruct (foldM (output_joint source _ initial_vel velocity_matrix (Z.of_nat n)) _ _)
      as [ final | | ] eqn:Hfinal; cbn [bind] in Hrun; try discriminate.
    injection Hrun as <-. cbn [addSuffixWayPoint getGroup waypoints duration_from_previous].
    split; [ exact Hgroup | ].
    split; [ rewrite length_app, Hlen; simpl; lia | ].
    split.
    { rewrite Hdur. replace (S n) with (n + 1)%nat by lia.
      rewrite replicate_add. reflexivity. }
    intros i wp Hwp.
    destruct (decide (i < n)%nat) as [Hlt | Hge].
    + rewrite lookup_app_l in Hwp by lia. apply (Hrows i wp Hwp).
    + rewrite lookup_app_r in Hwp by lia. rewrite Hlen in Hwp.
      destruct (i - n)%nat as [ | d ] eqn:Hd; [ | destruct d; discriminate ].
      simpl in Hwp. injection Hwp as <-.
      assert (i = n) by lia.
      subst i. exists source, final. repeat split; assumption.
Qed.

End Output.

Section OutputClaim.

Context {D : Type} `{DoubleOps D} {M : Type}.
Variable u : D.
Variable ext : Collaborators D M.

(** The size of the buffer is fixed when it is built: neither the fillers
    nor the optimizers change it. *)
Lemma initial_fill_size (params : ChompParameters D) (t : ChompTrajectory D) :
  num_points_ (fst (initial_fill u ext params t)) = num_points_ t
  /\ num_joints_ (fst (initial_fill u ext params t)) = num_joints_ t.
Proof.
  unfold initial_fill.
  repeat (match goal with |- context [if ?b then _ else _] => destruct b end);
    split; reflexivity.
Qed.

Lemma recovery_loop_size (scene : PlanningScene D) (group : string) (start : RobotState D)
    (fuel : nat) (st : LoopState D) (exit : LoopExit D) :
  recovery_loop ext scene group start fuel st = Returned exit ->
  num_points_ (loop_trajectory (exit_state exit)) = num_points_ (loop_trajectory st)
  /\ num_joints_ (loop_trajectory (exit_state exit)) = num_joints_ (loop_trajectory st).
Proof.
  revert st. induction fuel as [ | fuel IH ]; intros st Hrun; [ discriminate | ].
  cbn [recovery_loop] in Hrun.
  repeat (match type of Hrun with
          | context [if ?b then _ else _] => destruct b
          end);
    try (injection Hrun as <-; split; reflexivity).
  all: apply IH in Hrun; exact Hrun.
Qed.

Lemma boundary_trajectory_size (scene : PlanningScene D) (group : string)
    (start_state goal_state : RobotState D) :
  0 <= num_points_ (boundary_trajectory u ext scene group start_state goal_state) < 2 ^ 64.
Proof.
  unfold boundary_trajectory, ChompTrajectory_of_duration. cbn.
  unfold size_t_of at 1. apply Z.mod_pos_bound. lia.
Qed.


End OutputClaim.

Section OutputReturns.

Context {D : Type} `{DoubleOps D}.
Variable u : D.



End OutputReturns.

Section SolveOutput.

Context {D : Type} `{DoubleOps D} {M : Type}.
Variable u : D.
Variable ext : Collaborators D M.


End SolveOutput.



(** A group of 8 active joints: the zero velocities of the first waypoint
    are read from a vector of 7 entries, and the call does not return. *)
Example output_trajectory_eight_joints :
  let joints :=
    map (fun k => {| jm_kind := Prismatic; getVariableCount := 1;
                     getFirstVariableIndex := k; getJointIndex := k |}) (seq 0 8) in
  let model : RobotModel := fun _ => {| getActiveJointModels := joints |} in
  output_trajectory 0%float (Examples.identity_matrix 4)
    (model "arm"%string) (Examples.state_at 0%float)
    (ChompTrajectory_of_points 0%float model 4 0.5%float "arm")
  = Aborted.
Proof. vm_compute. reflexivity. Qed.

(** * Failures of [solve] *)

Section Failures.

Context {D : Type} `{DoubleOps D} {M : Type}.
Variable u : D.
Variable ext : Collaborators D M.


(** What [solve] has built when it returns after the recovery loop was left
    by [break]. *)
Lemma solve_after_loop (planning_scene : option (PlanningScene D)) (req : MotionPlanRequest D M)
    (params : ChompParameters D) (res : MotionPlanDetailedResponse D) (r : SolveReturn D) :
  solve u ext planning_scene req params res = Returned r ->
  error_code_ (response r) = SUCCESS
  \/ error_code_ (response r) = INVALID_MOTION_PLAN
  \/ error_code_ (response r) = GOAL_CONSTRAINTS_VIOLATED ->
  exists scene trajectory result,
    planning_scene = Some scene
    /\ output_trajectory u (getDiffMatrix M ext (getNumPoints trajectory))
         (getRobotModel scene (group_name M req))
         (robotStateMsgToRobotState M ext scene (start_state M req) (getCurrentState scene))
         trajectory = Returned result
    /\ 0 <= getNumPoints trajectory < 2 ^ 64
    /\ res_trajectory_ (response r) = [result]
    /\ processing_time_ (response r) = [elapsed M ext]
    /\ (ret r = false -> exists before msg, trace r = before ++ [ROS_ERROR msg]).
Proof.
  intros Hrun Hcode.
  destruct (solve_returned _ _ _ _ _ _ _ Hrun)
    as [ (code & msg & -> & Hearly)
       | (scene & goal & Hscene & _ & _ & _ & _ & Hreport) ].
  { cbn in Hcode. intuition congruence. }
  destruct (optimize_and_report_returned _ _ _ _ _ _ _ _ _ _ _ Hreport)
    as (exit & Hloop & _ & Hcases).
  destruct Hcases as [ (_ & _ & Hres & _)
                     | (_ & result & opt & Hout & _ & Htraj & Htime & _ & Hchecks) ].
  { rewrite Hres in Hcode. cbn in Hcode. intuition congruence. }
  exists scene, (loop_trajectory (exit_state exit)), result.
  split; [ exact Hscene | ]. split; [ exact Hout | ].
  split.
  { unfold getNumPoints.
    destruct (recovery_loop_size ext _ _ _ _ _ _ Hloop) as [Hnp _].
    rewrite Hnp. cbn [loop_trajectory].
    destruct (initial_fill_size u ext params
                (boundary_trajectory u ext scene (group_name M req)
                   (robotStateMsgToRobotState M ext scene (start_state M req)
                      (getCurrentState scene))
                   (goal_state_of ext
                      (robotStateMsgToRobotState M ext scene (start_state M req)
                         (getCurrentState scene)) goal))) as [Hfill _].
    rewrite Hfill. apply boundary_trajectory_size. }
  split; [ exact Htraj | ]. split; [ exact Htime | ].
  intros Hret.
  destruct Hchecks as [ (_ & _ & _ & Htrace)
                      | (_ & last_state & _ & [ (c & _ & _ & _ & Htrace) | (_ & Hok & _) ]) ].
  - eexists _, _. exact Htrace.
  - eexists _, _. exact Htrace.
  - congruence.
Qed.


End Failures.



(** * An unrecognized initialization method *)

(** A run of [solve] with the method "bogus": it logs the error and
    returns success. *)
Lemma solve_bogus_succeeds :
  exists r,
    solve 0%float (Examples.world (fun _ => true) true) (Some Examples.scene)
          Examples.request (Examples.parameters "bogus") Examples.empty_response
    = Returned r
    /\ ret r = true
    /\ error_code_ (response r) = SUCCESS
    /\ errors (trace r)
       = ["invalid interpolation method specified in the chomp_planner file"%string].
Proof.
  eexists. split; [ vm_compute; reflexivity | ].
  repeat split.
Qed.

Section UnknownMethod.

Context {D : Type} `{DoubleOps D} {M : Type}.
Variable u : D.
Variable ext : Collaborators D M.

Lemma write_state_row_other (state : RobotState D) (group : string) (i : Z) (m : Matrix D)
    (k : nat) :
  k <> Z.to_nat i -> write_state_row ext state group i m !! k = m !! k.
Proof.
  intros Hk. unfold write_state_row. destruct (m !! Z.to_nat i); [ | reflexivity ].
  unfold set_row. apply list_lookup_insert_ne. congruence.
Qed.

(** The rows of the buffer that [solve] has not written before it fills
    it: all but the first one and the goal row are as [init] left them. *)
Lemma boundary_trajectory_free_rows (scene : PlanningScene D) (group : string)
    (start_state goal_state : RobotState D) (k : nat) :
  let buffer := boundary_trajectory u ext scene group start_state goal_state in
  k <> 0%nat -> k <> Z.to_nat (size_t_of (getNumPoints buffer - 1)) ->
  (k < Z.to_nat (getNumPoints buffer))%nat ->
  trajectory_ buffer !! k = Some (replicate (Z.to_nat (getNumJoints buffer)) u).
Proof.
  intros buffer Hfirst Hgoal Hk.
  subst buffer. unfold boundary_trajectory in *.
  cbn [trajectory_ with_trajectory getNumPoints num_points_ getNumJoints num_joints_] in *.
  rewrite fix_goal_other_rows by exact Hgoal.
  rewrite write_state_row_other by exact Hgoal.
  rewrite write_state_row_other by (change (Z.to_nat 0) with 0%nat; exact Hfirst).
  unfold ChompTrajectory_of_duration, ChompTrajectory_of_points in *.
  cbn [trajectory_ num_points_ num_joints_] in *.
  unfold init. apply lookup_replicate_2. exact Hk.
Qed.

(** C10: when the configured method is none of the four recognized ones,
    the initialization step logs an error and returns the buffer as it got
    it; past its checks, [solve] is then the recovery loop, the output and
    the final checks on the buffer whose rows between the first and the
    goal row are still as allocated; the loop is entered, its first
    optimizer being built on that buffer with the caller's parameters; and
    a run with the method "bogus" returns success. *)
Theorem unknown_method_continues (params : ChompParameters D) (scene : PlanningScene D)
    (req : MotionPlanRequest D M) (goal : Constraints D)
    (res : MotionPlanDetailedResponse D) :
  let method := trajectory_initialization_method_ params in
  method <> "quintic-spline"%string -> method <> "linear"%string ->
  method <> "cubic"%string -> method <> "equal"%string ->
  let start_state :=
    robotStateMsgToRobotState M ext scene (start_state M req) (getCurrentState scene) in
  let buffer :=
    boundary_trajectory u ext scene (group_name M req) start_state
                        (goal_state_of ext start_state goal) in
  let logged :=
    [ROS_ERROR "invalid interpolation method specified in the chomp_planner file"] in
  (forall t : ChompTrajectory D, initial_fill u ext params t = (t, logged))
  /\ (forall k : nat,
        k <> 0%nat -> k <> Z.to_nat (size_t_of (getNumPoints buffer - 1)) ->
        (k < Z.to_nat (getNumPoints buffer))%nat ->
        trajectory_ buffer !! k = Some (replicate (Z.to_nat (getNumJoints buffer)) u))
  /\ (satisfiesBounds M ext start_state = true ->
      goal_constraints M req = [goal] ->
      unsupported_goal goal = false ->
      satisfiesBounds M ext (goal_state_of ext start_state goal) = true ->
      solve u ext (Some scene) req params res
      = optimize_and_report u ext scene (group_name M req) start_state goal params res
                            buffer logged)
  /\ (max_recovery_attempts_ params <= INT_MAX ->
      exists exit rest,
        recovery_loop ext scene (group_name M req) start_state
          (S (Z.to_nat (max_recovery_attempts_ params)))
          {| replan_count := 0; replan_flag := false; params_nonconst := params;
             loop_trajectory := buffer; optimizer := None; built := O;
             loop_trace := logged |} = Returned exit
        /\ loop_trace (exit_state exit) = logged ++ NewOptimizer buffer params :: rest)
  /\ (exists r,
        solve 0%float (Examples.world (fun _ => true) true) (Some Examples.scene)
              Examples.request (Examples.parameters "bogus") Examples.empty_response
        = Returned r
        /\ ret r = true
        /\ error_code_ (response r) = SUCCESS
        /\ errors (trace r)
           = ["invalid interpolation method specified in the chomp_planner file"%string]).
Proof.
  intros method Hq Hl Hc He start_state buffer logged.
  assert (Hfill : forall t : ChompTrajectory D, initial_fill u ext params t = (t, logged)).
  { intros t. unfold initial_fill. fold method.
    apply String.eqb_neq in Hq, Hl, Hc, He. rewrite Hq, Hl, Hc, He. reflexivity. }
  split; [ exact Hfill | ].
  split; [ apply boundary_trajectory_free_rows | ].
  split.
  { intros Hstart Hgoals Hgoal Hbounds.
    unfold solve. fold start_state. rewrite Hstart, Hgoals, Hgoal.
    cbn [negb]. rewrite Hbounds. cbn [negb].
    fold buffer. rewrite Hfill. reflexivity. }
  split.
  { intros Hmax.
    set (st0 := {| replan_count := 0; replan_flag := false; params_nonconst := params;
                   loop_trajectory := buffer; optimizer := None; built := O;
                   loop_trace := logged |}).
    destruct (recovery_loop_run ext scene (group_name M req) start_state
                (S (Z.to_nat (max_recovery_attempts_ params))) st0)
      as (exit & new & Hrun & Htrace & _ & _ & _ & _ & _ & _ & (rest & Hnew) & _).
    { change (replan_count st0) with 0. lia. }
    { change (replan_flag st0) with false. cbv iota.
      change (params_nonconst st0) with params. exact Hmax. }
    { change (replan_flag st0) with false. cbv iota.
      change (params_nonconst st0) with params. change (replan_count st0) with 0. lia. }
    exists exit, rest. split; [ exact Hrun | ].
    rewrite Htrace, Hnew.
    change (loop_trace st0) with logged.
    change (loop_trajectory st0) with buffer.
    change (replan_flag st0) with false. cbv iota.
    change (params_nonconst st0) with params.
    reflexivity. }
  exact solve_bogus_succeeds.
Qed.

End UnknownMethod.

Lemma unknown_method_continues_witness :
  initial_fill 0%float (Examples.world (fun _ => true) true) (Examples.parameters "bogus")
               (Examples.buffer 89)
  = (Examples.buffer 89,
     [ROS_ERROR "invalid interpolation method specified in the chomp_planner file"]).
Proof.
  destruct (unknown_method_continues 0%float (Examples.world (fun _ => true) true)
              (Examples.parameters "bogus") Examples.scene Examples.request
              {| joint_constraints := [ {| joint_name := "joint"; position := (-3)%float |} ];
                 position_constraints := []; orientation_constraints := [] |}
              Examples.empty_response) as [Hfill _].
  - vm_compute. discriminate.
  - vm_compute. discriminate.
  - vm_compute. discriminate.
  - vm_compute. discriminate.
  - apply Hfill.
Defined.

(** * The trajectory buffer: construction, padding and update *)

Section Construction.

Context {D : Type} `{DoubleOps D}.
Variable u : D.

(** X1: The constructor from a number of points: the matrix has that many
    rows of one column per active joint of the group, row 1 starts the free
    range, and the free range ends inside the matrix, one row before the
    last, exactly when there are at least 2 points; with 0 or 1 point the
    subtraction [num_points_ - 2] is done on [size_t] and [end_index_] is
    [2^64 - 2] or [2^64 - 1]. *)
Theorem ChompTrajectory_of_points_free_range (rm : RobotModel) (n : Z) (disc : D)
    (g : string) :
  0 <= n < 2 ^ 64 ->
  let t := ChompTrajectory_of_points u rm n disc g in
  let joints := getActiveJointModels (rm g) in
  getNumPoints t = n
  /\ getNumJoints t = Z.of_nat (length joints)
  /\ length (trajectory_ t) = Z.to_nat n
  /\ Forall (fun row => length row = length joints) (trajectory_ t)
  /\ start_index_ t = 1
  /\ (2 <= n -> end_index_ t = n - 2)
  /\ (end_index_ t + 1 < n <-> 2 <= n)
  /\ (n < 2 -> end_index_ t = 2 ^ 64 - 2 + n).
Proof.
  intros Hn t joints. subst t.
  unfold ChompTrajectory_of_points, getNumPoints, getNumJoints.
  cbn [num_points_ num_joints_ trajectory_ start_index_ end_index_].
  fold joints.
  assert (Hbig : n < 2 -> size_t_of (n - 2) = 2 ^ 64 - 2 + n).
  { intros Hlt. unfold size_t_of.
    replace (n - 2) with (2 ^ 64 - 2 + n + (-1) * 2 ^ 64) by lia.
    rewrite Z.mod_add by lia. apply Z.mod_small. lia. }
  split; [ reflexivity | ]. split; [ reflexivity | ].
  split; [ apply length_init | ].
  split.
  { unfold init. apply Forall_replicate. rewrite length_replicate. apply Nat2Z.id. }
  split; [ reflexivity | ].
  split; [ intros Hge; apply size_t_of_small; lia | ].
  split; [ | exact Hbig ].
  split.
  - intros Hlt. destruct (Z_lt_le_dec n 2) as [Hsmall | Hge]; [ | exact Hge ].
    rewrite (Hbig Hsmall) in Hlt. lia.
  - intros Hge. rewrite size_t_of_small by lia. lia.
Qed.

End Construction.

Lemma ChompTrajectory_of_points_free_range_witness :
  end_index_ (Examples.buffer 89) = 87 /\ length (trajectory_ (Examples.buffer 89)) = 89%nat.
Proof.
  destruct (ChompTrajectory_of_points_free_range 0%float Examples.one_joint 89
              0.03409%float "arm") as (_ & _ & Hlen & _ & _ & Hend & _).
  - lia.
  - split; [ apply Hend; lia | exact Hlen ].
Defined.

Section Duration.

Local Open Scope R_scope.


End Duration.


Section Update.

Context {D : Type} `{DoubleOps D}.

Lemma take_all_columns (columns : nat) (m : Matrix D) :
  Forall (fun row => length row = columns) m -> map (take columns) m = m.
Proof.
  intros Hshape. induction Hshape as [ | row m Hrow _ IH ]; simpl.
  - reflexivity.
  - rewrite IH, take_ge by lia. reflexivity.
Qed.

Lemma columns_fit (columns : Z) (m : Matrix D) :
  0 <= columns ->
  Forall (fun row => length row = Z.to_nat columns) m ->
  forallb (fun row => columns <=? Z.of_nat (length row)) m = true.
Proof.
  intros Hc Hshape. apply forallb_forall. intros row Hin.
  rewrite Forall_forall in Hshape.
  rewrite (Hshape row) by (apply list_elem_of_In; exact Hin).
  apply Z.leb_le. lia.
Qed.

(** A block of whole rows. *)
Lemma block_rows (m : Matrix D) (start_row block_rows columns : Z) :
  0 <= start_row -> 0 <= block_rows -> 0 <= columns ->
  Forall (fun row => length row = Z.to_nat columns) m ->
  start_row + block_rows <= Z.of_nat (length m) ->
  block m start_row block_rows columns
  = Some (take (Z.to_nat block_rows) (drop (Z.to_nat start_row) m)).
Proof.
  intros Hs Hb Hc Hshape Hfit. unfold block.
  rewrite (columns_fit columns m Hc Hshape).
  destruct (Z.leb_spec (start_row + block_rows) (Z.of_nat (length m))); [ | lia ].
  cbn [andb]. f_equal. apply take_all_columns.
  apply Forall_take, Forall_drop. exact Hshape.
Qed.

(** Writing a block of whole rows. *)
Lemma set_block_rows (m b : Matrix D) (start_row columns : Z) :
  0 <= start_row -> 0 <= columns ->
  Forall (fun row => length row = Z.to_nat columns) m ->
  start_row + Z.of_nat (length b) <= Z.of_nat (length m) ->
  exists m',
    set_block m start_row columns b = Some m'
    /\ length m' = length m
    /\ (forall k : nat, (k < length b)%nat -> m' !! (Z.to_nat start_row + k)%nat = b !! k)
    /\ (forall i : nat, (i < Z.to_nat start_row \/ Z.to_nat start_row + length b <= i)%nat ->
          m' !! i = m !! i).
Proof.
  intros Hs Hc Hshape Hfit. unfold set_block.
  rewrite (columns_fit columns m Hc Hshape).
  destruct (Z.leb_spec (start_row + Z.of_nat (length b)) (Z.of_nat (length m))); [ | lia ].
  cbn [andb]. eexists. split; [ reflexivity | ].
  assert (Hzip : zip_with (fun brow row : list D => brow ++ drop (Z.to_nat columns) row)
                          b (drop (Z.to_nat start_row) m) = b).
  { apply list_eq. intros k. rewrite lookup_zip_with.
    destruct (b !! k) as [ brow | ] eqn:Hb; [ | reflexivity ]. simpl.
    apply lookup_lt_Some in Hb.
    destruct (lookup_lt_is_Some_2 (drop (Z.to_nat start_row) m) k) as [row Hrow].
    { rewrite length_drop. lia. }
    rewrite Hrow. simpl. f_equal.
    rewrite drop_ge; [ apply app_nil_r | ].
    rewrite lookup_drop in Hrow.
    rewrite (Forall_lookup_1 (fun row => length row = Z.to_nat columns) m _ _ Hshape Hrow).
    lia. }
  rewrite Hzip.
  split.
  { rewrite !length_app, length_take, length_drop. lia. }
  split.
  - intros k Hk. rewrite lookup_app_r by (rewrite length_take; lia).
    rewrite length_take. rewrite lookup_app_l by lia.
    f_equal. lia.
  - intros i [Hi | Hi].
    + rewrite lookup_app_l by (rewrite length_take; lia).
      apply lookup_take_lt. lia.
    + rewrite lookup_app_r by (rewrite length_take; lia).
      rewrite length_take. rewrite lookup_app_r by lia.
      rewrite lookup_drop. f_equal. lia.
Qed.

(** X3: [updateFromGroupTrajectory] on two buffers of the same number of
    columns: when the group trajectory has, from its own start index on, as
    many rows as the buffer has free rows, every free row of the buffer
    becomes the row of the same rank in the free range of the group
    trajectory, and the rows outside the free range, the size and every
    other field of the buffer are kept; when the group trajectory has fewer
    rows than that, the block read does not fit and the call does not
    return. *)
Theorem updateFromGroupTrajectory_rows (t g : ChompTrajectory D) :
  0 <= start_index_ t <= end_index_ t ->
  end_index_ t < num_points_ t < 2 ^ 64 ->
  length (trajectory_ t) = Z.to_nat (num_points_ t) ->
  0 <= num_joints_ t ->
  Forall (fun row => length row = Z.to_nat (num_joints_ t)) (trajectory_ t) ->
  Forall (fun row => length row = Z.to_nat (num_joints_ t)) (trajectory_ g) ->
  0 <= start_index_ g ->
  let free := end_index_ t - start_index_ t + 1 in
  (start_index_ g + free <= Z.of_nat (length (trajectory_ g)) ->
   exists m',
     updateFromGroupTrajectory t g = Some (with_trajectory t m')
     /\ length m' = length (trajectory_ t)
     /\ (forall k, 0 <= k < free ->
           m' !! Z.to_nat (start_index_ t + k)
           = getTrajectoryPoint g (start_index_ g + k))
     /\ (forall i, 0 <= i < start_index_ t \/ end_index_ t < i ->
           m' !! Z.to_nat i = getTrajectoryPoint t i))
  /\ (Z.of_nat (length (trajectory_ g)) < start_index_ g + free ->
      updateFromGroupTrajectory t g = None).
Proof.
  intros Hse He Hlen Hnj Hshape Hgshape Hgs free.
  assert (Hfree : size_t_of (size_t_of (end_index_ t - start_index_ t) + 1) = free).
  { rewrite size_t_of_idemp_add. apply size_t_of_small. subst free. lia. }
  split.
  - intros Hfit. unfold updateFromGroupTrajectory. rewrite Hfree.
    rewrite (block_rows (trajectory_ g) (start_index_ g) free (num_joints_ t))
      by (try assumption; subst free; lia).
    set (b := take (Z.to_nat free) (drop (Z.to_nat (start_index_ g)) (trajectory_ g))).
    assert (Hb : length b = Z.to_nat free).
    { subst b. rewrite length_take, length_drop. lia. }
    destruct (set_block_rows (trajectory_ t) b (start_index_ t) (num_joints_ t))
      as (m' & Hset & Hl & Hin & Hout); try assumption; try (subst free; lia).
    exists m'. rewrite Hset. split; [ reflexivity | ]. split; [ exact Hl | ].
    split.
    + intros k Hk.
      replace (Z.to_nat (start_index_ t + k))
        with (Z.to_nat (start_index_ t) + Z.to_nat k)%nat by lia.
      rewrite Hin by lia. subst b.
      rewrite lookup_take_lt by lia. rewrite lookup_drop.
      unfold getTrajectoryPoint. f_equal. lia.
    + intros i Hi. unfold getTrajectoryPoint. apply Hout. rewrite Hb. subst free. lia.
  - intros Hshort. unfold updateFromGroupTrajectory. rewrite Hfree.
    unfold block.
    destruct (Z.leb_spec (start_index_ g + free) (Z.of_nat (length (trajectory_ g))));
      [ lia | reflexivity ].
Qed.

End Update.

Lemma updateFromGroupTrajectory_rows_witness :
  exists m',
    updateFromGroupTrajectory Examples.four_points
      (with_trajectory Examples.four_points [[5%float]; [6%float]; [7%float]; [8%float]])
    = Some (with_trajectory Examples.four_points m')
    /\ m' !! 1%nat = Some [6%float]
    /\ m' !! 2%nat = Some [7%float]
    /\ m' !! 0%nat = Some [1%float]
    /\ m' !! 3%nat = Some [4%float].
Proof.
  destruct (updateFromGroupTrajectory_rows Examples.four_points
              (with_trajectory Examples.four_points [[5%float]; [6%float]; [7%float]; [8%float]]))
    as [Hfit _].
  - simpl. lia.
  - simpl. lia.
  - reflexivity.
  - simpl. lia.
  - repeat constructor.
  - repeat constructor.
  - simpl. lia.
  - destruct Hfit as (m' & Hrun & _ & Hin & Hout).
    + simpl. lia.
    + exists m'. split; [ exact Hrun | ].
      split; [ exact (Hin 0 ltac:(simpl; lia)) | ].
      split; [ exact (Hin 1 ltac:(simpl; lia)) | ].
      split; [ exact (Hout 0 ltac:(simpl; lia)) | exact (Hout 3 ltac:(simpl; lia)) ].
Defined.

Section PaddedUpdate.

Context {D : Type} `{DoubleOps D}.
Variable u : D.

(** The layout of a padded copy: its size and free range, and the source
    row and the index map entry of each of its rows. *)
Lemma padded_layout (s : ChompTrajectory D) (g : string) (w : Z) :
  1 <= w ->
  1 <= num_points_ s ->
  length (trajectory_ s) = Z.to_nat (num_points_ s) ->
  0 <= start_index_ s -> end_index_ s <= num_points_ s - 1 ->
  start_index_ s <= end_index_ s ->
  num_points_ s + 2 * w < 2 ^ 31 ->
  let p := ChompTrajectory_padded u s g w in
  let source_row i := clamp (i - (w - 1 - start_index_ s)) 0 (num_points_ s - 1) in
  num_points_ p = end_index_ s - start_index_ s + 1 + 2 * (w - 1)
  /\ start_index_ p = w - 1
  /\ end_index_ p = num_points_ p - w
  /\ length (trajectory_ p) = Z.to_nat (num_points_ p)
  /\ length (full_trajectory_index_ p) = Z.to_nat (num_points_ p)
  /\ (forall i, 0 <= i < num_points_ p ->
        getTrajectoryPoint p i = getTrajectoryPoint s (source_row i)
        /\ full_trajectory_index_ p !! Z.to_nat i = Some (source_row i)).
Proof.
  intros Hw Hnp Hlen Hs He Hse Hr p source_row.
  destruct (padded_extras s w Hw Hnp Hs He Hse Hr) as (Hse' & Hee' & Hnp').
  set (np' := end_index_ s - start_index_ s + 1 + 2 * (w - 1)).
  assert (Hsz : size_t_of (size_t_of (num_points_ s + size_t_of (padded_start_extra s w))
                           + size_t_of (padded_end_extra s w)) = np').
  { rewrite Hnp'. subst np'. lia. }
  assert (Hnum : num_points_ p = np').
  { subst p. unfold ChompTrajectory_padded. cbn [num_points_]. exact Hsz. }
  assert (Hsrc : forall i, 0 <= i < np' ->
            padded_source_point (num_points_ s) (padded_start_extra s w) i = source_row i).
  { intros i Hi. rewrite Hse'. apply padded_source_point_clamp; subst np'; lia. }
  pose proof (padded_copy_loop s (padded_start_extra s w)
                (init u np' (getNumJoints s)) (replicate (Z.to_nat np') 0)
                (Z.to_nat np')) as Hloop.
  rewrite Z2Nat.id in Hloop by (subst np'; lia).
  destruct Hloop as (Hlm & Hll & Hrows & Hidx).
  { intros i Hi. rewrite Hsrc by lia. unfold getTrajectoryPoint.
    apply lookup_lt_is_Some. rewrite Hlen. subst source_row. unfold clamp. lia. }
  rewrite length_init in Hlm, Hrows. rewrite length_replicate in Hll, Hidx.
  assert (Htraj : trajectory_ p
                  = fst (foldl (padded_copy_step s (padded_start_extra s w))
                           (init u np' (getNumJoints s), replicate (Z.to_nat np') 0)
                           (seqZ 0 np'))).
  { subst p. unfold ChompTrajectory_padded. cbn [trajectory_]. rewrite Hsz. reflexivity. }
  assert (Hindex : full_trajectory_index_ p
                  = snd (foldl (padded_copy_step s (padded_start_extra s w))
                           (init u np' (getNumJoints s), replicate (Z.to_nat np') 0)
                           (seqZ 0 np'))).
  { subst p. unfold ChompTrajectory_padded. cbn [full_trajectory_index_].
    rewrite Hsz. reflexivity. }
  split; [ exact Hnum | ].
  split.
  { subst p. unfold ChompTrajectory_padded. cbn [start_index_].
    rewrite int_of_small, size_t_of_small; lia. }
  split.
  { rewrite Hnum. subst p. unfold ChompTrajectory_padded. cbn [end_index_].
    rewrite Hsz.
    rewrite int_of_small by lia.
    rewrite (size_t_of_small (w - 1)) by lia.
    rewrite (size_t_of_small (np' - 1)) by (subst np'; lia).
    rewrite size_t_of_small by (subst np'; lia). lia. }
  split; [ rewrite Htraj, Hlm, Hnum; reflexivity | ].
  split; [ rewrite Hindex, Hll, Hnum; reflexivity | ].
  intros i Hi. rewrite Hnum in Hi. split.
  - unfold getTrajectoryPoint at 1. rewrite Htraj, Hrows by lia.
    rewrite Z2Nat.id by lia. rewrite Hsrc by lia. reflexivity.
  - rewrite Hindex, Hidx by lia. rewrite Z2Nat.id by lia. rewrite Hsrc by lia.
    f_equal. apply size_t_of_small. subst source_row. unfold clamp. lia.
Qed.

Lemma with_trajectory_same (t : ChompTrajectory D) : with_trajectory t (trajectory_ t) = t.
Proof. destruct t. reflexivity. Qed.

(** X4: Padding and updating compose to nothing: a padded copy updated from
    the buffer it was copied from is the padded copy itself, since its free
    rows are the free rows of the source, in order. *)
Theorem padded_copy_update_round_trip (s : ChompTrajectory D) (g : string) (w : Z) :
  1 <= w ->
  1 <= num_points_ s ->
  length (trajectory_ s) = Z.to_nat (num_points_ s) ->
  0 <= num_joints_ s ->
  Forall (fun row => length row = Z.to_nat (num_joints_ s)) (trajectory_ s) ->
  0 <= start_index_ s -> end_index_ s <= num_points_ s - 1 ->
  start_index_ s <= end_index_ s ->
  num_points_ s + 2 * w < 2 ^ 31 ->
  let p := ChompTrajectory_padded u s g w in
  (forall k, 0 <= k <= end_index_ s - start_index_ s ->
     getTrajectoryPoint p (start_index_ p + k) = getTrajectoryPoint s (start_index_ s + k))
  /\ end_index_ p - start_index_ p = end_index_ s - start_index_ s
  /\ updateFromGroupTrajectory p s = Some p.
Proof.
  intros Hw Hnp Hlen Hnj Hshape Hs He Hse Hr p.
  destruct (padded_layout s g w Hw Hnp Hlen Hs He Hse Hr)
    as (Hnum & Hstart & Hend & Hplen & _ & Hrows).
  fold p in Hnum, Hstart, Hend, Hplen, Hrows.
  assert (Hfree_rows : forall k, 0 <= k <= end_index_ s - start_index_ s ->
            getTrajectoryPoint p (start_index_ p + k)
            = getTrajectoryPoint s (start_index_ s + k)).
  { intros k Hk. destruct (Hrows (start_index_ p + k)) as [Hrow _]; [ lia | ].
    rewrite Hrow. f_equal. unfold clamp. lia. }
  split; [ exact Hfree_rows | ]. split; [ lia | ].
  assert (Hjoints : num_joints_ p = num_joints_ s) by reflexivity.
  assert (Hpshape : Forall (fun row => length row = Z.to_nat (num_joints_ s)) (trajectory_ p)).
  { apply Forall_lookup_2. intros i row Hrow.
    pose proof (lookup_lt_Some _ _ _ Hrow) as Hi.
    destruct (Hrows (Z.of_nat i)) as [Hget _]; [ lia | ].
    unfold getTrajectoryPoint at 1 in Hget. rewrite Nat2Z.id, Hrow in Hget.
    symmetry in Hget.
    exact (Forall_lookup_1 (fun row => length row = Z.to_nat (num_joints_ s))
             (trajectory_ s) _ _ Hshape Hget). }
  unfold updateFromGroupTrajectory. rewrite Hjoints.
  set (free := end_index_ s - start_index_ s + 1).
  assert (Hfree : size_t_of (size_t_of (end_index_ p - start_index_ p) + 1) = free).
  { rewrite size_t_of_idemp_add. rewrite size_t_of_small by lia. subst free. lia. }
  rewrite Hfree.
  rewrite (block_rows (trajectory_ s) (start_index_ s) free (num_joints_ s))
    by (try assumption; subst free; lia).
  set (b := take (Z.to_nat free) (drop (Z.to_nat (start_index_ s)) (trajectory_ s))).
  assert (Hb : length b = Z.to_nat free).
  { subst b. rewrite length_take, length_drop. subst free. lia. }
  destruct (set_block_rows (trajectory_ p) b (start_index_ p) (num_joints_ s))
    as (m' & Hset & Hl & Hin & Hout); try assumption; try (subst free; lia).
  rewrite Hset. cbn [option_map]. f_equal.
  rewrite <- (with_trajectory_same p) at 2. f_equal.
  apply list_eq. intros i.
  destruct (decide (Z.to_nat (start_index_ p) <= i < Z.to_nat (start_index_ p) + length b)%nat)
    as [Hi | Hi].
  - replace i with (Z.to_nat (start_index_ p) + (i - Z.to_nat (start_index_ p)))%nat by lia.
    rewrite Hin by lia. subst b.
    rewrite lookup_take_lt by lia. rewrite lookup_drop.
    specialize (Hfree_rows (Z.of_nat (i - Z.to_nat (start_index_ p)))
                  ltac:(subst free; lia)).
    unfold getTrajectoryPoint in Hfree_rows.
    replace (Z.to_nat (start_index_ p + Z.of_nat (i - Z.to_nat (start_index_ p))))
      with (Z.to_nat (start_index_ p) + (i - Z.to_nat (start_index_ p)))%nat
      in Hfree_rows by lia.
    rewrite Hfree_rows. f_equal. lia.
  - apply Hout. lia.
Qed.

(** X5: Padding twice with the same stencil width adds nothing: the copy of a
    padded copy has the same size, free range, rows, discretization and
    duration, and its index map is the identity. *)
Theorem padded_copy_idempotent (s : ChompTrajectory D) (g g' : string) (w : Z) :
  1 <= w ->
  1 <= num_points_ s ->
  length (trajectory_ s) = Z.to_nat (num_points_ s) ->
  0 <= start_index_ s -> end_index_ s <= num_points_ s - 1 ->
  start_index_ s <= end_index_ s ->
  num_points_ s + 4 * w < 2 ^ 31 ->
  let p := ChompTrajectory_padded u s g w in
  let q := ChompTrajectory_padded u p g' w in
  num_points_ q = num_points_ p
  /\ num_joints_ q = num_joints_ p
  /\ start_index_ q = start_index_ p
  /\ end_index_ q = end_index_ p
  /\ discretization_ q = discretization_ p
  /\ duration_ q = duration_ p
  /\ trajectory_ q = trajectory_ p
  /\ full_trajectory_index_ q = seqZ 0 (num_points_ p).
Proof.
  intros Hw Hnp Hlen Hs He Hse Hr p q.
  destruct (padded_layout s g w Hw Hnp Hlen Hs He Hse ltac:(lia))
    as (Hnum & Hstart & Hend & Hplen & _ & _).
  fold p in Hnum, Hstart, Hend, Hplen.
  destruct (padded_layout p g' w Hw ltac:(lia) Hplen ltac:(lia) ltac:(lia) ltac:(lia)
              ltac:(lia))
    as (Hqnum & Hqstart & Hqend & Hqlen & Hqilen & Hqrows).
  fold q in Hqnum, Hqstart, Hqend, Hqlen, Hqilen, Hqrows.
  assert (Hsame : num_points_ q = num_points_ p) by lia.
  split; [ exact Hsame | ]. split; [ reflexivity | ].
  split; [ lia | ]. split; [ lia | ]. split; [ reflexivity | ].
  split.
  { change (duration_ q)
      with (d_of_Z (size_t_of (num_points_ q - 1)) * discretization_ p)%D.
    rewrite Hsame.
    change (duration_ p)
      with (d_of_Z (size_t_of (num_points_ p - 1)) * discretization_ s)%D.
    reflexivity. }
  split.
  - apply list_eq. intros i.
    destruct (decide (i < Z.to_nat (num_points_ p))%nat) as [Hi | Hi].
    + destruct (Hqrows (Z.of_nat i)) as [Hrow _]; [ lia | ].
      unfold getTrajectoryPoint in Hrow. rewrite Nat2Z.id in Hrow.
      rewrite Hrow. f_equal. unfold clamp. lia.
    + rewrite !lookup_ge_None_2 by lia. reflexivity.
  - apply list_eq. intros i.
    destruct (decide (i < Z.to_nat (num_points_ p))%nat) as [Hi | Hi].
    + destruct (Hqrows (Z.of_nat i)) as [_ Hidx]; [ lia | ].
      rewrite Nat2Z.id in Hidx. rewrite Hidx.
      rewrite lookup_seqZ_lt by lia. f_equal. unfold clamp. lia.
    + rewrite lookup_ge_None_2 by lia.
      symmetry. apply lookup_ge_None_2. rewrite length_seqZ. lia.
Qed.

End PaddedUpdate.

Lemma padded_copy_update_round_trip_witness :
  updateFromGroupTrajectory (ChompTrajectory_padded 0%float Examples.four_points "arm" 3)
                            Examples.four_points
  = Some (ChompTrajectory_padded 0%float Examples.four_points "arm" 3).
Proof.
  apply (padded_copy_update_round_trip 0%float Examples.four_points "arm" 3).
  - lia.
  - simpl. lia.
  - reflexivity.
  - simpl. lia.
  - repeat constructor.
  - simpl. lia.
  - simpl. lia.
  - simpl. lia.
  - simpl. lia.
Defined.

Lemma padded_copy_idempotent_witness :
  trajectory_ (ChompTrajectory_padded 0%float
                 (ChompTrajectory_padded 0%float Examples.four_points "arm" 3) "arm" 3)
  = trajectory_ (ChompTrajectory_padded 0%float Examples.four_points "arm" 3).
Proof.
  apply (padded_copy_idempotent 0%float Examples.four_points "arm" "arm" 3).
  - lia.
  - simpl. lia.
  - reflexivity.
  - simpl. lia.
  - simpl. lia.
  - simpl. lia.
  - simpl. lia.
Defined.

(** * The linear, cubic and minimum-jerk fillers *)

Section Columns.

Context {D : Type} `{DoubleOps D}.
Variable u : D.

(** The inner loop of the linear and cubic fillers: column [col] of the
    rows [first .. first + k - 1] is written, each value computed from the
    row index and from an entry [(sb, col)] that lies outside these rows. *)
Lemma fill_column (F : D -> Z -> D) (sb : Z) (col : nat) (first : Z) (m : Matrix D) (k : nat) :
  0 <= first -> 0 <= sb ->
  (sb < first \/ first + Z.of_nat k <= sb) ->
  (Z.to_nat first + k <= length m)%nat ->
  let m' := for_range first (first + Z.of_nat k)
              (fun m1 j => set_at m1 j (Z.of_nat col) (F (at_ u m1 sb (Z.of_nat col)) j)) m in
  length m' = length m
  /\ (forall r : nat, (Z.to_nat first <= r < Z.to_nat first + k)%nat ->
        exists row,
          m !! r = Some row
          /\ m' !! r = Some (<[col := F (at_ u m sb (Z.of_nat col)) (Z.of_nat r)]> row))
  /\ (forall r : nat, (r < Z.to_nat first \/ Z.to_nat first + k <= r)%nat -> m' !! r = m !! r).
Proof.
  intros Hfirst Hsb Hout. induction k as [ | k IH ]; intros Hlen m'.
  - subst m'. rewrite for_range_empty by lia.
    split; [ reflexivity | ]. split; [ intros; lia | reflexivity ].
  - subst m'. rewrite for_range_nat.
    destruct IH as (Hl1 & Hin1 & Hout1); [ lia | lia | ].
    set (m1 := for_range first (first + Z.of_nat k) _ m) in *.
    assert (Hsame : at_ u m1 sb (Z.of_nat col) = at_ u m sb (Z.of_nat col)).
    { unfold at_. rewrite Hout1 by lia. reflexivity. }
    rewrite Hsame.
    destruct (lookup_lt_is_Some_2 m (Z.to_nat first + k)) as [row Hrow]; [ lia | ].
    assert (Hrow1 : m1 !! Z.to_nat (first + Z.of_nat k) = Some row).
    { replace (Z.to_nat (first + Z.of_nat k)) with (Z.to_nat first + k)%nat by lia.
      rewrite Hout1 by lia. exact Hrow. }
    unfold set_at. rewrite Hrow1, Nat2Z.id.
    replace (Z.to_nat (first + Z.of_nat k)) with (Z.to_nat first + k)%nat by lia.
    split; [ rewrite length_insert; exact Hl1 | ].
    split.
    + intros r Hr. destruct (decide (r = Z.to_nat first + k)%nat) as [-> | Hne].
      * exists row. split; [ exact Hrow | ].
        rewrite list_lookup_insert_eq by lia. do 3 f_equal. lia.
      * rewrite list_lookup_insert_ne by congruence. apply Hin1. lia.
    + intros r Hr. rewrite list_lookup_insert_ne by lia. apply Hout1. lia.
Qed.

(** The two nested loops of the linear and cubic fillers: for every
    column, the rows [first .. first + k - 1] are written with a value
    computed from the row index and from the entries of that column in two
    rows [sb] and [eb] outside them. *)
Lemma fill_columns (F : D -> D -> D -> Z -> D) (sb eb first : Z) (k : nat)
    (m : Matrix D) (columns : nat) :
  0 <= first -> 0 <= sb -> 0 <= eb ->
  (sb < first \/ first + Z.of_nat k <= sb) ->
  (eb < first \/ first + Z.of_nat k <= eb) ->
  (Z.to_nat first + k <= length m)%nat ->
  Forall (fun row => length row = columns) m ->
  forall c : nat, (c <= columns)%nat ->
  let m' := for_range 0 (Z.of_nat c)
              (fun m0 i =>
                 for_range first (first + Z.of_nat k)
                   (fun m1 j => set_at m1 j i (F (at_ u m0 sb i) (at_ u m0 eb i)
                                                 (at_ u m1 sb i) j)) m0) m in
  length m' = length m
  /\ Forall (fun row => length row = columns) m'
  /\ (forall r : nat, (r < Z.to_nat first \/ Z.to_nat first + k <= r)%nat -> m' !! r = m !! r)
  /\ (forall r j : nat, (Z.to_nat first <= r < Z.to_nat first + k)%nat -> (j < c)%nat ->
        at_ u m' (Z.of_nat r) (Z.of_nat j)
        = F (at_ u m sb (Z.of_nat j)) (at_ u m eb (Z.of_nat j)) (at_ u m sb (Z.of_nat j))
            (Z.of_nat r))
  /\ (forall r j : nat, (Z.to_nat first <= r < Z.to_nat first + k)%nat -> (c <= j)%nat ->
        at_ u m' (Z.of_nat r) (Z.of_nat j) = at_ u m (Z.of_nat r) (Z.of_nat j)).
Proof.
  intros Hfirst Hsb Heb Hsbout Hebout Hlen Hshape.
  induction c as [ | c IH ]; intros Hc m'.
  - subst m'. rewrite for_range_empty by lia.
    split; [ reflexivity | ]. split; [ exact Hshape | ].
    split; [ reflexivity | ]. split; [ intros; lia | reflexivity ].
  - subst m'.
    pose proof (for_range_nat
                  (fun m0 i =>
                     for_range first (first + Z.of_nat k)
                       (fun m1 j => set_at m1 j i (F (at_ u m0 sb i) (at_ u m0 eb i)
                                                     (at_ u m1 sb i) j)) m0) 0 c m) as Hstep.
    rewrite !Z.add_0_l in Hstep. rewrite Hstep. clear Hstep.
    destruct IH as (Hl1 & Hs1 & Hout1 & Hdone1 & Hrest1); [ lia | ].
    set (m1 := for_range 0 (Z.of_nat c) _ m) in *.
    assert (Hx0 : at_ u m1 sb (Z.of_nat c) = at_ u m sb (Z.of_nat c)).
    { unfold at_. rewrite Hout1 by lia. reflexivity. }
    assert (Hx1 : at_ u m1 eb (Z.of_nat c) = at_ u m eb (Z.of_nat c)).
    { unfold at_. rewrite Hout1 by lia. reflexivity. }
    destruct (fill_column (F (at_ u m1 sb (Z.of_nat c)) (at_ u m1 eb (Z.of_nat c)))
                sb c first m1 k) as (Hl2 & Hin2 & Hout2); try lia.
    set (m2 := for_range first (first + Z.of_nat k) _ m1) in *.
    split; [ lia | ].
    split.
    { apply Forall_lookup_2. intros r row' Hrow'.
      destruct (decide (Z.to_nat first <= r < Z.to_nat first + k)%nat) as [Hr | Hr].
      - destruct (Hin2 r Hr) as (row & Hrow & Hnew).
        rewrite Hnew in Hrow'. injection Hrow' as <-. rewrite length_insert.
        exact (Forall_lookup_1 (fun row => length row = columns) m1 _ _ Hs1 Hrow).
      - rewrite Hout2 in Hrow' by lia.
        exact (Forall_lookup_1 (fun row => length row = columns) m1 _ _ Hs1 Hrow'). }
    split; [ intros r Hr; rewrite Hout2 by lia; apply Hout1; lia | ].
    split.
    + intros r j Hr Hj.
      destruct (Hin2 r Hr) as (row & Hrow & Hnew).
      assert (Hrl : length row = columns).
      { exact (Forall_lookup_1 (fun row => length row = columns) m1 _ _ Hs1 Hrow). }
      unfold at_ at 1. rewrite !Nat2Z.id, Hnew.
      destruct (decide (j = c)) as [-> | Hne].
      * rewrite list_lookup_insert_eq by lia. simpl. rewrite Hx0, Hx1. reflexivity.
      * rewrite list_lookup_insert_ne by congruence.
        specialize (Hdone1 r j Hr ltac:(lia)). unfold at_ at 1 in Hdone1.
        rewrite !Nat2Z.id, Hrow in Hdone1. exact Hdone1.
    + intros r j Hr Hj.
      destruct (Hin2 r Hr) as (row & Hrow & Hnew).
      unfold at_ at 1. rewrite !Nat2Z.id, Hnew.
      rewrite list_lookup_insert_ne by lia.
      specialize (Hrest1 r j Hr ltac:(lia)). unfold at_ at 1 in Hrest1.
      rewrite !Nat2Z.id, Hrow in Hrest1. exact Hrest1.
Qed.

End Columns.

Section FillerCells.

Context {D : Type} `{DoubleOps D}.
Variable u : D.

Lemma for_range_columns (body : Matrix D -> Z -> Matrix D) (n : Z) (m : Matrix D) :
  for_range 0 n body m = for_range 0 (Z.of_nat (Z.to_nat n)) body m.
Proof.
  destruct (Z_lt_le_dec n 0) as [Hneg | Hpos].
  - unfold for_range. rewrite !seqZ_nil by lia. reflexivity.
  - rewrite Z2Nat.id by lia. reflexivity.
Qed.

Lemma for_range_ext (body1 body2 : Matrix D -> Z -> Matrix D) (first last : Z)
    (m : Matrix D) :
  (forall m i, body1 m i = body2 m i) ->
  for_range first last body1 m = for_range first last body2 m.
Proof.
  intros Hbody. unfold for_range. revert m.
  induction (seqZ first (last - first)) as [ | i l IH ]; intros m; simpl.
  - reflexivity.
  - rewrite Hbody. apply IH.
Qed.

Section OneBuffer.

Variable t : ChompTrajectory D.
Hypothesis Hstart : 1 <= start_index_ t.
Hypothesis Hrange : start_index_ t <= end_index_ t + 1.
Hypothesis Hend : end_index_ t + 1 < num_points_ t.
Hypothesis Hmax : num_points_ t < 2 ^ 64.
Hypothesis Hlen : length (trajectory_ t) = Z.to_nat (num_points_ t).
Hypothesis Hshape :
  Forall (fun row => length row = Z.to_nat (num_joints_ t)) (trajectory_ t).

Let sb := start_index_ t - 1.
Let eb := end_index_ t + 1.

Let Esb : sb = start_index_ t - 1 := eq_refl.
Let Eeb : eb = end_index_ t + 1 := eq_refl.

Lemma boundary_indices :
  size_t_of (start_index_ t - 1) = sb /\ size_t_of (end_index_ t + 1) = eb.
Proof.
  split; apply size_t_of_small; lia.
Qed.

(** What a filler that runs the two nested loops over columns and free
    rows leaves in the matrix. *)
Lemma column_filler_cells (F : D -> D -> D -> Z -> D) :
  let m' := for_range 0 (num_joints_ t)
              (fun m0 i =>
                 for_range (sb + 1) eb
                   (fun m1 j => set_at m1 j i (F (at_ u m0 sb i) (at_ u m0 eb i)
                                                 (at_ u m1 sb i) j)) m0)
              (trajectory_ t) in
  length m' = length (trajectory_ t)
  /\ Forall (fun row => length row = Z.to_nat (num_joints_ t)) m'
  /\ (forall i, 0 <= i <= sb \/ eb <= i -> m' !! Z.to_nat i = trajectory_ t !! Z.to_nat i)
  /\ (forall i j, sb < i < eb -> 0 <= j < num_joints_ t ->
        at_ u m' i j
        = F (at_ u (trajectory_ t) sb j) (at_ u (trajectory_ t) eb j)
            (at_ u (trajectory_ t) sb j) i).
Proof.
  intros m'. subst m'. rewrite for_range_columns.
  assert (Hlast : sb + 1 + Z.of_nat (Z.to_nat (eb - sb - 1)) = eb) by lia.
  destruct (fill_columns u F sb eb (sb + 1) (Z.to_nat (eb - sb - 1)) (trajectory_ t)
              (Z.to_nat (num_joints_ t))) with (c := Z.to_nat (num_joints_ t))
    as (Hl & Hs & Hout & Hin & _); try lia; try assumption.
  rewrite Hlast in Hl, Hs, Hout, Hin.
  split; [ exact Hl | ]. split; [ exact Hs | ].
  split.
  - intros i Hi. apply Hout. lia.
  - intros i j Hi Hj.
    specialize (Hin (Z.to_nat i) (Z.to_nat j) ltac:(lia) ltac:(lia)).
    rewrite (Z2Nat.id i), (Z2Nat.id j) in Hin by lia. exact Hin.
Qed.

Lemma fillInLinearInterpolation_cells :
  let m' := trajectory_ (fillInLinearInterpolation u t) in
  length m' = length (trajectory_ t)
  /\ Forall (fun row => length row = Z.to_nat (num_joints_ t)) m'
  /\ (forall i, 0 <= i <= sb \/ eb <= i -> m' !! Z.to_nat i = trajectory_ t !! Z.to_nat i)
  /\ (forall i j, sb < i < eb -> 0 <= j < num_joints_ t ->
        at_ u m' i j
        = linear_cell eb (at_ u (trajectory_ t) sb j) (at_ u (trajectory_ t) eb j) i).
Proof.
  destruct boundary_indices as [Hsb Heb].
  unfold fillInLinearInterpolation. cbn [trajectory_ with_trajectory].
  rewrite Hsb, Heb.
  exact (column_filler_cells
           (fun x0 x1 x0' j =>
              (x0' + d_of_Z j * ((x1 - x0) / (d_of_Z eb - d_of_Z 1)))%D)).
Qed.

Lemma fillInCubicInterpolation_cells :
  let m' := trajectory_ (fillInCubicInterpolation u t) in
  length m' = length (trajectory_ t)
  /\ Forall (fun row => length row = Z.to_nat (num_joints_ t)) m'
  /\ (forall i, 0 <= i <= sb \/ eb <= i -> m' !! Z.to_nat i = trajectory_ t !! Z.to_nat i)
  /\ (forall i j, sb < i < eb -> 0 <= j < num_joints_ t ->
        at_ u m' i j
        = cubic_cell eb (at_ u (trajectory_ t) sb j) (at_ u (trajectory_ t) eb j) i).
Proof.
  destruct boundary_indices as [Hsb Heb].
  unfold fillInCubicInterpolation. cbn [trajectory_ with_trajectory].
  rewrite Hsb, Heb.
  exact (column_filler_cells (fun x0 x1 _ j => cubic_cell eb x0 x1 j)).
Qed.

Lemma fillInMinJerk_cells :
  let m' := trajectory_ (fillInMinJerk u t) in
  length m' = length (trajectory_ t)
  /\ Forall (fun row => length row = Z.to_nat (num_joints_ t)) m'
  /\ (forall i, 0 <= i <= sb \/ eb <= i -> m' !! Z.to_nat i = trajectory_ t !! Z.to_nat i)
  /\ (forall i j, sb < i < eb -> 0 <= j < num_joints_ t ->
        at_ u m' i j
        = minjerk_cell u sb eb (discretization_ t)
            (at_ u (trajectory_ t) sb j) (at_ u (trajectory_ t) eb j) i).
Proof.
  destruct boundary_indices as [Hsb Heb].
  set (T := (d_of_Z (eb - sb) * discretization_ t)%D).
  set (coeff := map (fun i => minjerk_coeff u (powers T) (at_ u (trajectory_ t) sb i)
                                            (at_ u (trajectory_ t) eb i))
                    (seqZ 0 (num_joints_ t))).
  set (g := fun i j : Z =>
              accumulate (powers (d_of_Z (i - sb) * discretization_ t)%D)
                         (default [] (coeff !! Z.to_nat j))).
  assert (Hfilled : trajectory_ (fillInMinJerk u t)
                    = for_range (sb + 1) (sb + 1 + Z.of_nat (Z.to_nat (eb - sb - 1)))
                        (fun m i => for_range 0 (Z.of_nat (Z.to_nat (num_joints_ t)))
                                      (fun m j => set_at m i j (g i j)) m)
                        (trajectory_ t)).
  { unfold fillInMinJerk. cbn [trajectory_ with_trajectory].
    rewrite Hsb, Heb.
    replace (sb + 1 + Z.of_nat (Z.to_nat (eb - sb - 1))) with eb by (lia).
    apply for_range_ext. intros m i. apply for_range_columns. }
  destruct (fill_cells u g (sb + 1) (Z.to_nat (num_joints_ t)) (trajectory_ t)
              (Z.to_nat (eb - sb - 1))) as (Hl & Hs & Hin & Hout).
  { lia. }
  { rewrite Hlen. lia. }
  { exact Hshape. }
  intros m'. subst m'. rewrite Hfilled.
  split; [ exact Hl | ]. split; [ exact Hs | ].
  split.
  - intros i Hi. apply Hout. lia.
  - intros i j Hi Hj.
    specialize (Hin (Z.to_nat i) (Z.to_nat j) ltac:(lia) ltac:(lia)).
    rewrite (Z2Nat.id i), (Z2Nat.id j) in Hin by lia.
    rewrite Hin. subst g. cbv beta. unfold minjerk_cell.
    subst coeff. rewrite list_lookup_fmap, lookup_seqZ_lt by lia.
    simpl. rewrite Z2Nat.id by lia. reflexivity.
Qed.

End OneBuffer.

End FillerCells.

Section FillersReal.

Local Open Scope R_scope.

Lemma blend_between (x0 x1 s : R) :
  0 <= s <= 1 -> Rmin x0 x1 <= x0 + (x1 - x0) * s <= Rmax x0 x1.
Proof.
  intros Hs. unfold Rmin, Rmax. destruct (Rle_dec x0 x1); nra.
Qed.

Lemma cubic_blend_range (x : R) : 0 <= x <= 1 -> 0 <= 3 * x ^ 2 - 2 * x ^ 3 <= 1.
Proof.
  intros Hx.
  assert (H0 : 0 <= x ^ 2 * (3 - 2 * x)) by (apply Rmult_le_pos; nra).
  assert (H1 : 0 <= (1 - x) ^ 2 * (1 + 2 * x)) by (apply Rmult_le_pos; nra).
  split; nra.
Qed.

Lemma quintic_blend_range (x : R) :
  0 <= x <= 1 -> 0 <= 10 * x ^ 3 - 15 * x ^ 4 + 6 * x ^ 5 <= 1.
Proof.
  intros Hx.
  assert (Hx3 : 0 <= x ^ 3) by (apply pow_le; lra).
  assert (Hy3 : 0 <= (1 - x) ^ 3) by (apply pow_le; lra).
  assert (H0 : 0 <= x ^ 3 * (10 - 15 * x + 6 * x ^ 2)) by (apply Rmult_le_pos; nra).
  assert (H1 : 0 <= (1 - x) ^ 3 * (1 + 3 * x + 6 * x ^ 2)) by (apply Rmult_le_pos; nra).
  split; nra.
Qed.

(** The position of a row between two others, as a fraction. *)
Lemma fraction_range (i n : Z) : (0 <= i <= n)%Z -> (0 < n)%Z -> 0 <= IZR i / IZR n <= 1.
Proof.
  intros Hi Hn.
  assert (Hn' : 0 < IZR n) by (apply IZR_lt; exact Hn).
  assert (Hi0 : 0 <= IZR i) by (apply IZR_le; lia).
  assert (Hi1 : IZR i <= IZR n) by (apply IZR_le; lia).
  split.
  - apply Rmult_le_pos; [ exact Hi0 | ]. apply Rlt_le, Rinv_0_lt_compat. exact Hn'.
  - apply (Rmult_le_reg_r (IZR n)); [ exact Hn' | ].
    replace (IZR i / IZR n * IZR n) with (IZR i) by (field; lra). lra.
Qed.

Variable u : R.

(** X6: The linear filler, in real arithmetic.  The rows outside the free
    range are kept.  Free row [i] of a joint whose boundary rows hold [x0]
    and [x1] gets [x0 + i * (x1 - x0) / end_index_]: the row index is
    counted from row 0 and the slope divides by [end_index_], so two
    consecutive free rows differ by [(x1 - x0) / end_index_], every free
    row lies between [x0] and [x1], and the last free row already holds
    the value [x1] of the end boundary row. *)
Theorem fillInLinearInterpolation_rows (t : ChompTrajectory R) (j : Z) :
  (1 <= start_index_ t)%Z -> (start_index_ t <= end_index_ t + 1)%Z ->
  (end_index_ t + 1 < num_points_ t)%Z -> (num_points_ t < 2 ^ 64)%Z ->
  length (trajectory_ t) = Z.to_nat (num_points_ t) ->
  Forall (fun row => length row = Z.to_nat (num_joints_ t)) (trajectory_ t) ->
  (0 <= j < num_joints_ t)%Z ->
  let startBoundary := (start_index_ t - 1)%Z in
  let endBoundary := (end_index_ t + 1)%Z in
  let x0 := at_ u (trajectory_ t) startBoundary j in
  let x1 := at_ u (trajectory_ t) endBoundary j in
  let filled := fillInLinearInterpolation u t in
  (forall i, (0 <= i <= startBoundary \/ endBoundary <= i)%Z ->
     getTrajectoryPoint filled i = getTrajectoryPoint t i)
  /\ (forall i, (startBoundary < i < endBoundary)%Z ->
        at_ u (trajectory_ filled) i j = x0 + IZR i * ((x1 - x0) / IZR (end_index_ t))
        /\ Rmin x0 x1 <= at_ u (trajectory_ filled) i j <= Rmax x0 x1)
  /\ (forall i, (startBoundary < i)%Z -> (i + 1 < endBoundary)%Z ->
        at_ u (trajectory_ filled) (i + 1) j - at_ u (trajectory_ filled) i j
        = (x1 - x0) / IZR (end_index_ t))
  /\ ((start_index_ t <= end_index_ t)%Z ->
      at_ u (trajectory_ filled) (end_index_ t) j = x1).
Proof.
  intros Hs Hse He Hmax Hlen Hshape Hj sb eb x0 x1 filled.
  destruct (fillInLinearInterpolation_cells u t Hs Hse He Hmax Hlen Hshape)
    as (_ & _ & Hout & Hin).
  fold sb eb filled in Hout, Hin.
  assert (Hcell : forall i, (sb < i < eb)%Z ->
            at_ u (trajectory_ filled) i j = x0 + IZR i * ((x1 - x0) / IZR (end_index_ t))).
  { intros i Hi. rewrite (Hin i j Hi Hj). fold x0 x1. unfold linear_cell. simpl.
    subst eb. rewrite plus_IZR.
    replace (IZR (end_index_ t) + 1 - 1) with (IZR (end_index_ t)) by ring.
    reflexivity. }
  assert (Hpos : forall i, (sb < i < eb)%Z -> 0 < IZR (end_index_ t)).
  { intros i Hi. apply IZR_lt. subst sb eb. lia. }
  split; [ intros i Hi; unfold getTrajectoryPoint; apply Hout; exact Hi | ].
  split.
  { intros i Hi. split; [ apply Hcell; exact Hi | ].
    rewrite (Hcell i Hi).
    replace (x0 + IZR i * ((x1 - x0) / IZR (end_index_ t)))
      with (x0 + (x1 - x0) * (IZR i / IZR (end_index_ t)))
      by (field; pose proof (Hpos i Hi); lra).
    apply blend_between. apply fraction_range; subst sb eb; lia. }
  split.
  { intros i Hi0 Hi1.
    rewrite (Hcell i), (Hcell (i + 1)%Z) by lia.
    rewrite plus_IZR. field.
    pose proof (Hpos i ltac:(lia)). lra. }
  intros Hne. rewrite Hcell by (subst sb eb; lia).
  field. pose proof (Hpos (end_index_ t) ltac:(subst sb eb; lia)). lra.
Qed.

(** X7: The cubic filler, in real arithmetic.  The rows outside the free
    range are kept.  With [r = i / end_index_], free row [i] of a joint
    whose boundary rows hold [x0] and [x1] gets
    [x0 + (x1 - x0) * (3 r^2 - 2 r^3)], whatever the time step [dt = 0.001]
    of the source; it lies between [x0] and [x1], and the last free row
    already holds the value [x1] of the end boundary row. *)
Theorem fillInCubicInterpolation_rows (t : ChompTrajectory R) (j : Z) :
  (1 <= start_index_ t)%Z -> (start_index_ t <= end_index_ t + 1)%Z ->
  (end_index_ t + 1 < num_points_ t)%Z -> (num_points_ t < 2 ^ 64)%Z ->
  length (trajectory_ t) = Z.to_nat (num_points_ t) ->
  Forall (fun row => length row = Z.to_nat (num_joints_ t)) (trajectory_ t) ->
  (0 <= j < num_joints_ t)%Z ->
  let startBoundary := (start_index_ t - 1)%Z in
  let endBoundary := (end_index_ t + 1)%Z in
  let x0 := at_ u (trajectory_ t) startBoundary j in
  let x1 := at_ u (trajectory_ t) endBoundary j in
  let filled := fillInCubicInterpolation u t in
  (forall i, (0 <= i <= startBoundary \/ endBoundary <= i)%Z ->
     getTrajectoryPoint filled i = getTrajectoryPoint t i)
  /\ (forall i, (startBoundary < i < endBoundary)%Z ->
        let r := IZR i / IZR (end_index_ t) in
        at_ u (trajectory_ filled) i j = x0 + (x1 - x0) * (3 * r ^ 2 - 2 * r ^ 3)
        /\ Rmin x0 x1 <= at_ u (trajectory_ filled) i j <= Rmax x0 x1)
  /\ ((start_index_ t <= end_index_ t)%Z ->
      at_ u (trajectory_ filled) (end_index_ t) j = x1).
Proof.
  intros Hs Hse He Hmax Hlen Hshape Hj sb eb x0 x1 filled.
  destruct (fillInCubicInterpolation_cells u t Hs Hse He Hmax Hlen Hshape)
    as (_ & _ & Hout & Hin).
  fold sb eb filled in Hout, Hin.
  assert (Hpos : forall i, (sb < i < eb)%Z -> 0 < IZR (end_index_ t)).
  { intros i Hi. apply IZR_lt. subst sb eb. lia. }
  assert (Hcell : forall i, (sb < i < eb)%Z ->
            at_ u (trajectory_ filled) i j
            = x0 + (x1 - x0) * (3 * (IZR i / IZR (end_index_ t)) ^ 2
                                - 2 * (IZR i / IZR (end_index_ t)) ^ 3)).
  { intros i Hi. rewrite (Hin i j Hi Hj). fold x0 x1. unfold cubic_cell, d_lit. simpl.
    subst eb. rewrite plus_IZR.
    pose proof (Hpos i Hi). field. lra. }
  split; [ intros i Hi; unfold getTrajectoryPoint; apply Hout; exact Hi | ].
  split.
  { intros i Hi r. split; [ apply Hcell; exact Hi | ].
    rewrite (Hcell i Hi). fold r.
    apply blend_between, cubic_blend_range. subst r.
    apply fraction_range; subst sb eb; lia. }
  intros Hne. rewrite Hcell by (subst sb eb; lia).
  pose proof (Hpos (end_index_ t) ltac:(subst sb eb; lia)). field. lra.
Qed.

(** X8: The minimum-jerk filler, in real arithmetic and for a nonzero
    discretization.  With [r = (i - startBoundary) / (endBoundary -
    startBoundary)], free row [i] of a joint whose boundary rows hold [x0]
    and [x1] gets [x0 + (x1 - x0) * (10 r^3 - 15 r^4 + 6 r^5)], whatever
    the discretization; it lies between [x0] and [x1], and two free rows
    at the same distance from the two boundary rows are symmetric about the
    middle value: their sum is [x0 + x1]. *)
Theorem fillInMinJerk_no_overshoot (t : ChompTrajectory R) (j : Z) :
  (1 <= start_index_ t)%Z -> (start_index_ t <= end_index_ t + 1)%Z ->
  (end_index_ t + 1 < num_points_ t)%Z -> (num_points_ t < 2 ^ 64)%Z ->
  length (trajectory_ t) = Z.to_nat (num_points_ t) ->
  Forall (fun row => length row = Z.to_nat (num_joints_ t)) (trajectory_ t) ->
  discretization_ t <> 0 ->
  (0 <= j < num_joints_ t)%Z ->
  let startBoundary := (start_index_ t - 1)%Z in
  let endBoundary := (end_index_ t + 1)%Z in
  let x0 := at_ u (trajectory_ t) startBoundary j in
  let x1 := at_ u (trajectory_ t) endBoundary j in
  let filled := trajectory_ (fillInMinJerk u t) in
  (forall i, (startBoundary < i < endBoundary)%Z ->
     let r := IZR (i - startBoundary) / IZR (endBoundary - startBoundary) in
     at_ u filled i j = x0 + (x1 - x0) * (10 * r ^ 3 - 15 * r ^ 4 + 6 * r ^ 5)
     /\ Rmin x0 x1 <= at_ u filled i j <= Rmax x0 x1)
  /\ (forall i, (startBoundary < i < endBoundary)%Z ->
        at_ u filled i j + at_ u filled (startBoundary + endBoundary - i) j = x0 + x1).
Proof.
  intros Hs Hse He Hmax Hlen Hshape Hdisc Hj sb eb x0 x1 filled.
  destruct (fillInMinJerk_cells u t Hs Hse He Hmax Hlen Hshape) as (_ & _ & _ & Hin).
  fold sb eb filled in Hin.
  assert (Hpos : 0 < IZR (eb - sb)) by (apply IZR_lt; subst sb eb; lia).
  assert (Hcell : forall i, (sb < i < eb)%Z ->
            at_ u filled i j
            = x0 + (x1 - x0) * (10 * (IZR (i - sb) / IZR (eb - sb)) ^ 3
                                - 15 * (IZR (i - sb) / IZR (eb - sb)) ^ 4
                                + 6 * (IZR (i - sb) / IZR (eb - sb)) ^ 5)).
  { intros i Hi. rewrite (Hin i j Hi Hj). fold x0 x1. unfold minjerk_cell.
    rewrite minjerk_coeff_R, accumulate_peval. simpl.
    field. split; lra. }
  split.
  - intros i Hi r. split; [ apply Hcell; exact Hi | ].
    rewrite (Hcell i Hi). fold r.
    apply blend_between, quintic_blend_range. subst r.
    apply fraction_range; lia.
  - intros i Hi.
    rewrite (Hcell i Hi), (Hcell (sb + eb - i)%Z) by lia.
    replace (sb + eb - i - sb)%Z with (eb - sb - (i - sb))%Z by lia.
    rewrite (minus_IZR (eb - sb)). field. lra.
Qed.

End FillersReal.

Lemma fillInLinearInterpolation_rows_witness :
  at_ 0%R (trajectory_ (fillInLinearInterpolation 0%R Examples.real_buffer)) 2 0
  = at_ 0%R (trajectory_ Examples.real_buffer) 3 0.
Proof.
  destruct (fillInLinearInterpolation_rows 0%R Examples.real_buffer 0)
    as (_ & _ & _ & Hlast).
  - simpl. lia.
  - simpl. lia.
  - simpl. lia.
  - simpl. lia.
  - reflexivity.
  - repeat constructor.
  - simpl. lia.
  - apply Hlast. simpl. lia.
Defined.

Lemma fillInCubicInterpolation_rows_witness :
  at_ 0%R (trajectory_ (fillInCubicInterpolation 0%R Examples.real_buffer)) 2 0
  = at_ 0%R (trajectory_ Examples.real_buffer) 3 0.
Proof.
  destruct (fillInCubicInterpolation_rows 0%R Examples.real_buffer 0)
    as (_ & _ & Hlast).
  - simpl. lia.
  - simpl. lia.
  - simpl. lia.
  - simpl. lia.
  - reflexivity.
  - repeat constructor.
  - simpl. lia.
  - apply Hlast. simpl. lia.
Defined.

Lemma fillInMinJerk_no_overshoot_witness :
  let filled := trajectory_ (fillInMinJerk 0%R Examples.real_buffer) in
  (at_ 0%R filled 1 0 + at_ 0%R filled 2 0
   = at_ 0%R (trajectory_ Examples.real_buffer) 0 0
     + at_ 0%R (trajectory_ Examples.real_buffer) 3 0)%R.
Proof.
  destruct (fillInMinJerk_no_overshoot 0%R Examples.real_buffer 0) as (_ & Hsym).
  - simpl. lia.
  - simpl. lia.
  - simpl. lia.
  - simpl. lia.
  - reflexivity.
  - repeat constructor.
  - simpl. lra.
  - simpl. lia.
  - exact (Hsym 1%Z ltac:(simpl; lia)).
Defined.

(** * The initial trajectory *)

Section InitialFill.

Context {D : Type} `{DoubleOps D} {M : Type}.
Variable u : D.
Variable ext : Collaborators D M.

(** X9: The three interpolating initializations keep the ends of the
    trajectory: with the method [quintic-spline], [linear] or [cubic], the
    initial fill logs nothing, keeps the size and the free range of the
    buffer and the shape of its matrix, and leaves every row outside the
    free range, the start row and the goal row among them, as it was, in
    whatever arithmetic [double] is read. *)
Theorem initial_fill_keeps_boundary_rows (params : ChompParameters D)
    (t : ChompTrajectory D) :
  1 <= start_index_ t -> start_index_ t <= end_index_ t + 1 ->
  end_index_ t + 1 < num_points_ t -> num_points_ t < 2 ^ 64 ->
  length (trajectory_ t) = Z.to_nat (num_points_ t) ->
  Forall (fun row => length row = Z.to_nat (num_joints_ t)) (trajectory_ t) ->
  trajectory_initialization_method_ params = "quintic-spline"%string
  \/ trajectory_initialization_method_ params = "linear"%string
  \/ trajectory_initialization_method_ params = "cubic"%string ->
  let filled := fst (initial_fill u ext params t) in
  snd (initial_fill u ext params t) = []
  /\ num_points_ filled = num_points_ t
  /\ start_index_ filled = start_index_ t
  /\ end_index_ filled = end_index_ t
  /\ length (trajectory_ filled) = length (trajectory_ t)
  /\ Forall (fun row => length row = Z.to_nat (num_joints_ t)) (trajectory_ filled)
  /\ (forall i, 0 <= i < start_index_ t \/ end_index_ t < i ->
        getTrajectoryPoint filled i = getTrajectoryPoint t i).
Proof.
  intros Hs Hse He Hmax Hlen Hshape Hmethod filled. subst filled.
  unfold initial_fill.
  destruct Hmethod as [-> | [-> | ->]]; cbn [String.eqb Ascii.eqb Bool.eqb fst snd].
  - destruct (fillInMinJerk_cells u t Hs Hse He Hmax Hlen Hshape) as (Hl & Hsh & Hout & _).
    repeat split; try assumption.
    intros i Hi. unfold getTrajectoryPoint. apply Hout. lia.
  - destruct (fillInLinearInterpolation_cells u t Hs Hse He Hmax Hlen Hshape)
      as (Hl & Hsh & Hout & _).
    repeat split; try assumption.
    intros i Hi. unfold getTrajectoryPoint. apply Hout. lia.
  - destruct (fillInCubicInterpolation_cells u t Hs Hse He Hmax Hlen Hshape)
      as (Hl & Hsh & Hout & _).
    repeat split; try assumption.
    intros i Hi. unfold getTrajectoryPoint. apply Hout. lia.
Qed.

End InitialFill.

Lemma initial_fill_keeps_boundary_rows_witness :
  getTrajectoryPoint
    (fst (initial_fill 0%float (Examples.world (fun _ => true) true)
            (Examples.parameters "cubic") Examples.four_points)) 3
  = Some [4%float].
Proof.
  destruct (initial_fill_keeps_boundary_rows 0%float (Examples.world (fun _ => true) true)
              (Examples.parameters "cubic") Examples.four_points)
    as (_ & _ & _ & _ & _ & _ & Hout).
  - simpl. lia.
  - simpl. lia.
  - simpl. lia.
  - simpl. lia.
  - reflexivity.
  - repeat constructor.
  - right. right. reflexivity.
  - rewrite Hout by (simpl; lia). reflexivity.
Defined.

Section FreeRowsOverwritten.

Context {D : Type} `{DoubleOps D} {M : Type}.
Variable ext : Collaborators D M.

Lemma at_in_range (u : D) (m : Matrix D) (i j : Z) (row : list D) (v : D) :
  m !! Z.to_nat i = Some row -> row !! Z.to_nat j = Some v -> at_ u m i j = v.
Proof. intros Hrow Hv. unfold at_. rewrite Hrow, Hv. reflexivity. Qed.

(** Two matrices of the same shape with the same cells are equal. *)
Lemma matrix_eq_of_cells (u1 u2 : D) (m1 m2 : Matrix D) (columns : nat) :
  length m1 = length m2 ->
  Forall (fun row => length row = columns) m1 ->
  Forall (fun row => length row = columns) m2 ->
  (forall i j : nat, (i < length m1)%nat -> (j < columns)%nat ->
     at_ u1 m1 (Z.of_nat i) (Z.of_nat j) = at_ u2 m2 (Z.of_nat i) (Z.of_nat j)) ->
  m1 = m2.
Proof.
  intros Hlen Hs1 Hs2 Hcells. apply list_eq. intros i.
  destruct (decide (i < length m1)%nat) as [Hi | Hi].
  - destruct (lookup_lt_is_Some_2 m1 i Hi) as [row1 Hrow1].
    destruct (lookup_lt_is_Some_2 m2 i ltac:(lia)) as [row2 Hrow2].
    rewrite Hrow1, Hrow2. f_equal.
    pose proof (Forall_lookup_1 (fun row => length row = columns) m1 _ _ Hs1 Hrow1) as Hl1.
    pose proof (Forall_lookup_1 (fun row => length row = columns) m2 _ _ Hs2 Hrow2) as Hl2.
    cbv beta in Hl1, Hl2.
    apply list_eq. intros j.
    destruct (decide (j < columns)%nat) as [Hj | Hj].
    + destruct (lookup_lt_is_Some_2 row1 j ltac:(lia)) as [v1 Hv1].
      destruct (lookup_lt_is_Some_2 row2 j ltac:(lia)) as [v2 Hv2].
      specialize (Hcells i j Hi Hj).
      rewrite (at_in_range u1 m1 _ _ row1 v1) in Hcells
        by (rewrite Nat2Z.id; assumption).
      rewrite (at_in_range u2 m2 _ _ row2 v2) in Hcells
        by (rewrite Nat2Z.id; assumption).
      rewrite Hv1, Hv2, Hcells. reflexivity.
    + rewrite !lookup_ge_None_2 by lia. reflexivity.
  - rewrite !lookup_ge_None_2 by lia. reflexivity.
Qed.

(** X10: The three interpolating initializations never read a free row.  The
    constructor leaves the matrix unset and [solve] writes only its first
    and last rows before the fill; with the method [quintic-spline],
    [linear] or [cubic] the filled buffer is the same whatever the free
    rows held, and whatever an unset entry reads as: it is determined by
    the rows outside the free range and by the other fields alone. *)
Theorem initial_fill_ignores_free_rows (u1 u2 : D) (params : ChompParameters D)
    (t : ChompTrajectory D) (other : Matrix D) :
  1 <= start_index_ t -> start_index_ t <= end_index_ t + 1 ->
  end_index_ t + 1 < num_points_ t -> num_points_ t < 2 ^ 64 ->
  length (trajectory_ t) = Z.to_nat (num_points_ t) ->
  Forall (fun row => length row = Z.to_nat (num_joints_ t)) (trajectory_ t) ->
  length other = Z.to_nat (num_points_ t) ->
  Forall (fun row => length row = Z.to_nat (num_joints_ t)) other ->
  (forall i, 0 <= i < start_index_ t \/ end_index_ t < i ->
     other !! Z.to_nat i = trajectory_ t !! Z.to_nat i) ->
  trajectory_initialization_method_ params = "quintic-spline"%string
  \/ trajectory_initialization_method_ params = "linear"%string
  \/ trajectory_initialization_method_ params = "cubic"%string ->
  initial_fill u1 ext params t = initial_fill u2 ext params (with_trajectory t other).
Proof.
  intros Hs Hse He Hmax Hlen Hshape Holen Hoshape Hsame Hmethod.
  set (t' := with_trajectory t other).
  set (sb := start_index_ t - 1). set (eb := end_index_ t + 1).
  assert (Hfields : forall m, with_trajectory t' m = with_trajectory t m) by reflexivity.
  assert (Hboundary : forall i j, 0 <= i <= sb \/ eb <= i -> 0 <= j < num_joints_ t ->
            i < num_points_ t ->
            at_ u1 (trajectory_ t) i j = at_ u2 other i j).
  { intros i j Hi Hj Hin.
    destruct (lookup_lt_is_Some_2 (trajectory_ t) (Z.to_nat i)) as [row Hrow]; [ lia | ].
    destruct (lookup_lt_is_Some_2 row (Z.to_nat j)) as [v Hv].
    { rewrite (Forall_lookup_1 (fun row => length row = Z.to_nat (num_joints_ t))
                 (trajectory_ t) _ _ Hshape Hrow). lia. }
    rewrite (at_in_range u1 _ _ _ row v Hrow Hv).
    symmetry. apply (at_in_range u2 _ _ _ row v); [ | exact Hv ].
    rewrite Hsame by (subst sb eb; lia). exact Hrow. }
  assert (Hfill : forall (fill1 fill2 : Matrix D) (cell : D -> D -> Z -> D),
            (length fill1 = length (trajectory_ t)
             /\ Forall (fun row => length row = Z.to_nat (num_joints_ t)) fill1
             /\ (forall i, 0 <= i <= sb \/ eb <= i ->
                   fill1 !! Z.to_nat i = trajectory_ t !! Z.to_nat i)
             /\ (forall i j, sb < i < eb -> 0 <= j < num_joints_ t ->
                   at_ u1 fill1 i j
                   = cell (at_ u1 (trajectory_ t) sb j) (at_ u1 (trajectory_ t) eb j) i)) ->
            (length fill2 = length other
             /\ Forall (fun row => length row = Z.to_nat (num_joints_ t)) fill2
             /\ (forall i, 0 <= i <= sb \/ eb <= i -> fill2 !! Z.to_nat i = other !! Z.to_nat i)
             /\ (forall i j, sb < i < eb -> 0 <= j < num_joints_ t ->
                   at_ u2 fill2 i j = cell (at_ u2 other sb j) (at_ u2 other eb j) i)) ->
            fill1 = fill2).
  { intros fill1 fill2 cell (Hl1 & Hs1 & Hout1 & Hin1) (Hl2 & Hs2 & Hout2 & Hin2).
    apply (matrix_eq_of_cells u1 u2 _ _ (Z.to_nat (num_joints_ t))); try assumption.
    { lia. }
    intros i j Hi Hj.
    destruct (decide (sb < Z.of_nat i < eb)) as [Hfree | Hbound].
    - rewrite Hin1, Hin2 by lia.
      rewrite !Hboundary by (subst sb eb; lia). reflexivity.
    - assert (Hrows : fill1 !! Z.to_nat (Z.of_nat i) = fill2 !! Z.to_nat (Z.of_nat i)).
      { rewrite Hout1, Hout2 by lia. symmetry. apply Hsame. subst sb eb. lia. }
      destruct (lookup_lt_is_Some_2 fill1 i Hi) as [row Hrow].
      destruct (lookup_lt_is_Some_2 row j) as [v Hv].
      { rewrite (Forall_lookup_1 (fun row => length row = Z.to_nat (num_joints_ t))
                   fill1 _ _ Hs1 Hrow). exact Hj. }
      rewrite (at_in_range u1 fill1 _ _ row v) by (rewrite Nat2Z.id; assumption).
      symmetry. apply (at_in_range u2 fill2 _ _ row v); [ | rewrite Nat2Z.id; exact Hv ].
      rewrite <- Hrows, Nat2Z.id. exact Hrow. }
  unfold initial_fill.
  destruct Hmethod as [-> | [-> | ->]]; cbn [String.eqb Ascii.eqb Bool.eqb]; f_equal.
  - transitivity (with_trajectory t (trajectory_ (fillInMinJerk u1 t))); [ reflexivity | ].
    transitivity (with_trajectory t (trajectory_ (fillInMinJerk u2 t'))); [ | reflexivity ].
    f_equal.
    apply (Hfill _ _ (fun x0 x1 i => minjerk_cell u1 sb eb (discretization_ t) x0 x1 i)).
    + exact (fillInMinJerk_cells u1 t Hs Hse He Hmax Hlen Hshape).
    + exact (fillInMinJerk_cells u2 t' Hs Hse He Hmax Holen Hoshape).
  - transitivity (with_trajectory t (trajectory_ (fillInLinearInterpolation u1 t)));
      [ reflexivity | ].
    transitivity (with_trajectory t (trajectory_ (fillInLinearInterpolation u2 t')));
      [ | reflexivity ].
    f_equal.
    apply (Hfill _ _ (fun x0 x1 i => linear_cell eb x0 x1 i)).
    + exact (fillInLinearInterpolation_cells u1 t Hs Hse He Hmax Hlen Hshape).
    + exact (fillInLinearInterpolation_cells u2 t' Hs Hse He Hmax Holen Hoshape).
  - transitivity (with_trajectory t (trajectory_ (fillInCubicInterpolation u1 t)));
      [ reflexivity | ].
    transitivity (with_trajectory t (trajectory_ (fillInCubicInterpolation u2 t')));
      [ | reflexivity ].
    f_equal.
    apply (Hfill _ _ (fun x0 x1 i => cubic_cell eb x0 x1 i)).
    + exact (fillInCubicInterpolation_cells u1 t Hs Hse He Hmax Hlen Hshape).
    + exact (fillInCubicInterpolation_cells u2 t' Hs Hse He Hmax Holen Hoshape).
Qed.

End FreeRowsOverwritten.

Lemma initial_fill_ignores_free_rows_witness :
  initial_fill 0%float (Examples.world (fun _ => true) true) (Examples.parameters "linear")
               Examples.four_points
  = initial_fill 1%float (Examples.world (fun _ => true) true) (Examples.parameters "linear")
                 (with_trajectory Examples.four_points
                    [[1%float]; [8%float]; [9%float]; [4%float]]).
Proof.
  apply (initial_fill_ignores_free_rows (Examples.world (fun _ => true) true) 0%float 1%float
           (Examples.parameters "linear") Examples.four_points
           [[1%float]; [8%float]; [9%float]; [4%float]]).
  - simpl. lia.
  - simpl. lia.
  - simpl. lia.
  - simpl. lia.
  - reflexivity.
  - repeat constructor.
  - reflexivity.
  - repeat constructor.
  - intros i [Hi | Hi].
    + simpl in Hi. replace i with 0 by lia. reflexivity.
    + simpl in Hi. destruct (Z.to_nat i) as [ | [ | [ | [ | n ] ] ] ] eqn:Hn;
        try lia; reflexivity.
  - right. left. reflexivity.
Defined.

(** * Filling from an external trajectory: the ends and the assertions *)

Section Decimation.

Variable u : R.


End Decimation.


Section Assertions.

Context {D : Type} `{DoubleOps D}.

(** An assignment whose target row does not have one column per joint,
    or whose group has a joint of more than one variable, trips one of the
    two assertions. *)
Lemma assign_point_asserts (trajectory : RobotTrajectory D) (i : Z) (m : Matrix D) :
  (forall row, m !! 0%nat = Some row ->
     length row <> length (getActiveJointModels (getGroup trajectory))
     \/ forallb (fun jm => getVariableCount jm =? 1)
                (getActiveJointModels (getGroup trajectory)) = false) ->
  assignCHOMPTrajectoryPointFromInputTrajectoryPoint trajectory i 0 m = None.
Proof.
  intros Hbad. unfold assignCHOMPTrajectoryPointFromInputTrajectoryPoint.
  destruct (waypoints trajectory !! Z.to_nat i) as [ source | ]; [ | reflexivity ].
  change (Z.to_nat 0) with 0%nat.
  destruct (m !! 0%nat) as [ target | ] eqn:Htarget; [ | reflexivity ].
  destruct (Hbad target eq_refl) as [Hlen | Hmulti].
  - destruct (Z.eqb_spec (Z.of_nat (length (getActiveJointModels (getGroup trajectory))))
                         (Z.of_nat (length target))) as [Heq | Hne]; [ lia | reflexivity ].
  - rewrite Hmulti. cbn [negb]. destruct (negb _); reflexivity.
Qed.

(** X13: The call asserts before it writes anything: with at least two
    waypoints to copy and at least one row to fill, a buffer whose first
    row does not have one column per active joint of the external
    trajectory's group, or a group with a joint of more than one variable,
    makes the very first assignment trip its assertion, and the call does
    not return. *)
Theorem fillInFromTrajectory_asserts_shape (t : ChompTrajectory D)
    (trajectory : RobotTrajectory D) :
  let joints := getActiveJointModels (getGroup trajectory) in
  2 <= getWayPointCount trajectory ->
  1 <= getNumPoints t < 2 ^ 32 ->
  (forall row, trajectory_ t !! 0%nat = Some row ->
     length row <> length joints
     \/ forallb (fun jm => getVariableCount jm =? 1) joints = false) ->
  fillInFromTrajectory t trajectory = None.
Proof.
  intros joints Hext Htgt Hbad. unfold fillInFromTrajectory.
  set (ext := getWayPointCount trajectory) in *.
  set (tgt := getNumPoints t) in *.
  destruct (Z.ltb_spec ext 2); [ lia | ].
  destruct (Z.leb_spec ext tgt) as [Hrepeat | Hdecimate].
  - assert (Hrf : unsigned_of (tgt / ext) = tgt / ext).
    { apply Z.mod_small. split; [ apply Z.div_pos; lia | ].
      apply Z.div_lt_upper_bound; nia. }
    assert (Hone : 1 <= tgt / ext) by (apply Z.div_le_lower_bound; lia).
    rewrite Hrf.
    replace ext with (Z.succ (ext - 1)) at 2 by lia.
    rewrite seqZ_cons by lia. cbn [for_each].
    unfold repeat_point at 1.
    replace (tgt / ext) with (Z.succ (tgt / ext - 1)) at 1 by lia.
    rewrite seqZ_cons by lia. cbn [for_each emit_point].
    rewrite assign_point_asserts by exact Hbad. reflexivity.
  - replace tgt with (Z.succ (tgt - 1)) at 2 by lia.
    rewrite seqZ_cons by lia. cbn [for_each].
    rewrite assign_point_asserts by exact Hbad. reflexivity.
Qed.

End Assertions.

Lemma fillInFromTrajectory_asserts_shape_witness :
  fillInFromTrajectory
    (with_trajectory (Examples.buffer 3) [[0%float; 0%float]; [0%float]; [0%float]])
    (Examples.ramp 2)
  = None.
Proof.
  apply (fillInFromTrajectory_asserts_shape
           (with_trajectory (Examples.buffer 3) [[0%float; 0%float]; [0%float]; [0%float]])
           (Examples.ramp 2)).
  - vm_compute. discriminate.
  - vm_compute. split; [ discriminate | reflexivity ].
  - intros row Hrow. injection Hrow as <-. left. simpl. lia.
Defined.

Section Repetition.

Context {D : Type} `{DoubleOps D}.

(** X11: Repetition keeps the ends and drops nothing.  When the external
    trajectory has at least 2 and at most as many waypoints as the buffer
    has rows, the first row is the first waypoint, the last row is the last
    waypoint, and every waypoint is copied to at least one row. *)
Theorem fillInFromTrajectory_repetition_keeps_ends (t : ChompTrajectory D)
    (trajectory : RobotTrajectory D) :
  let ext := getWayPointCount trajectory in
  let tgt := getNumPoints t in
  let joints := getActiveJointModels (getGroup trajectory) in
  2 <= ext -> ext <= tgt -> tgt < 2 ^ 32 ->
  length (trajectory_ t) = Z.to_nat tgt ->
  shaped joints (trajectory_ t) ->
  forallb (fun jm => getVariableCount jm =? 1) joints = true ->
  exists m',
    fillInFromTrajectory t trajectory = Some (true, with_trajectory t m')
    /\ (forall s, waypoints trajectory !! 0%nat = Some s ->
          m' !! 0%nat = Some (project joints s))
    /\ (forall s, last (waypoints trajectory) = Some s ->
          m' !! Z.to_nat (tgt - 1) = Some (project joints s))
    /\ (forall (i : nat) s, waypoints trajectory !! i = Some s ->
          exists j : nat, Z.of_nat j < tgt /\ m' !! j = Some (project joints s)).
Proof.
  intros ext tgt joints Hext Hle Htgt Hlen Hshape Hsingle.
  destruct (repeat_all trajectory Hsingle tgt (trajectory_ t)
              (length (waypoints trajectory))) as (m' & Hrun & _ & _ & Hrows);
    [ fold ext; lia | lia | lia | exact Hlen | exact Hshape | ].
  fold ext joints in Hrun, Hrows.
  change (Z.of_nat (length (waypoints trajectory))) with ext in Hrun.
  assert (Hq : 1 <= tgt / ext) by (apply Z.div_le_lower_bound; lia).
  assert (Hcount : forall i, 0 <= i -> 1 <= repeat_count tgt ext i).
  { intros i Hi. unfold repeat_count. destruct (i <? tgt mod ext); lia. }
  assert (Htotal : emission_start tgt ext ext = tgt) by (apply emission_start_total; lia).
  assert (Hstart : forall i, 0 <= i < ext ->
            0 <= emission_start tgt ext i
            /\ emission_start tgt ext i < emission_start tgt ext (i + 1) <= tgt).
  { intros i Hi.
    pose proof (Z.mod_pos_bound tgt ext ltac:(lia)) as Hmod.
    split; [ unfold emission_start; nia | ].
    split; [ rewrite emission_start_succ by lia; specialize (Hcount i); lia | ].
    unfold emission_start in *. nia. }
  exists m'. split.
  { unfold fillInFromTrajectory. fold ext tgt.
    destruct (Z.ltb_spec ext 2); [ lia | ].
    destruct (Z.leb_spec ext tgt); [ | lia ].
    assert (Hrf : unsigned_of (tgt / ext) = tgt / ext).
    { apply Z.mod_small. split; [ lia | ]. apply Z.div_lt_upper_bound; nia. }
    assert (Hrbf : unsigned_of (tgt mod ext) = tgt mod ext).
    { apply Z.mod_small. pose proof (Z.mod_pos_bound tgt ext). lia. }
    rewrite Hrf, Hrbf, Hrun. reflexivity. }
  assert (Hcopy : forall (i : nat) s, waypoints trajectory !! i = Some s ->
            forall j : nat,
              emission_start tgt ext (Z.of_nat i) <= Z.of_nat j
                < emission_start tgt ext (Z.of_nat i + 1) ->
              m' !! j = Some (project joints s)).
  { intros i s Hs j Hj. apply (Hrows i s j); [ | exact Hs | exact Hj ].
    apply lookup_lt_Some in Hs. exact Hs. }
  split.
  { intros s Hs. apply (Hcopy 0%nat s Hs 0%nat).
    destruct (Hstart 0 ltac:(lia)) as [_ Hnext].
    assert (Hzero : emission_start tgt ext 0 = 0).
    { unfold emission_start. pose proof (Z.mod_pos_bound tgt ext ltac:(lia)). lia. }
    change (Z.of_nat 0) with 0. lia. }
  split.
  { intros s Hs. rewrite last_lookup in Hs.
    assert (Hi : Z.of_nat (Nat.pred (length (waypoints trajectory))) = ext - 1).
    { unfold ext, getWayPointCount in *. lia. }
    apply (Hcopy _ s Hs). rewrite Hi.
    replace (ext - 1 + 1) with ext by lia. rewrite Htotal.
    destruct (Hstart (ext - 1) ltac:(lia)) as [_ Hnext].
    replace (ext - 1 + 1) with ext in Hnext by lia. rewrite Htotal in Hnext. lia. }
  intros i s Hs.
  assert (Hi : 0 <= Z.of_nat i < ext).
  { apply lookup_lt_Some in Hs. unfold ext, getWayPointCount. lia. }
  destruct (Hstart (Z.of_nat i) Hi) as [Hpos Hnext].
  exists (Z.to_nat (emission_start tgt ext (Z.of_nat i))).
  split; [ lia | ].
  apply (Hcopy i s Hs). lia.
Qed.

End Repetition.

Lemma fillInFromTrajectory_repetition_keeps_ends_witness :
  exists m',
    fillInFromTrajectory (Examples.buffer 89) (Examples.ramp 10)
    = Some (true, with_trajectory (Examples.buffer 89) m')
    /\ m' !! 0%nat = Some [0%float]
    /\ m' !! 88%nat = Some [9%float].
Proof.
  destruct (fillInFromTrajectory_repetition_keeps_ends (Examples.buffer 89) (Examples.ramp 10))
    as (m' & Hrun & Hfirst & Hlast & _).
  - vm_compute. discriminate.
  - vm_compute. discriminate.
  - vm_compute. reflexivity.
  - vm_compute. reflexivity.
  - unfold shaped. vm_compute. repeat constructor.
  - vm_compute. reflexivity.
  - exists m'. split; [ exact Hrun | ].
    split.
    + apply (Hfirst (Examples.state_at 0%float)). reflexivity.
    + apply (Hlast (Examples.state_at 9%float)). reflexivity.
Defined.

(** * [solve]: when the recovery loop stops, and what a return means *)

Section LoopStops.

Context {D : Type} `{DoubleOps D} {M : Type}.
Variable ext : Collaborators D M.
Variable scene : PlanningScene D.
Variable group : string.
Variable start : RobotState D.

Lemma optimize_results_app (a b : list (Event D)) :
  optimize_results (a ++ b) = optimize_results a ++ optimize_results b.
Proof.
  induction a as [ | e a IH ]; simpl; [ reflexivity | ].
  destruct e; simpl; rewrite IH; reflexivity.
Qed.

(** The loop from any state: what the optimizations returned, how many
    optimizers were built, and where the retry counter is when the loop is
    left. *)
Lemma recovery_loop_results (fuel : nat) (st : LoopState D) (exit : LoopExit D) :
  let p := if replan_flag st then escalate (params_nonconst st) else params_nonconst st in
  0 <= replan_count st -> max_recovery_attempts_ p <= INT_MAX ->
  recovery_loop ext scene group start fuel st = Returned exit ->
  exists new,
    loop_trace (exit_state exit) = loop_trace st ++ new
    /\ (forall k : nat, (S k < length (optimize_results new))%nat ->
          optimize_results new !! k = Some false)
    /\ match exit with
       | Break st' =>
           errors new = []
           /\ optimize_results new <> []
           /\ length (attempts new) = length (optimize_results new)
           /\ replan_count st' = replan_count st + Z.of_nat (length (optimize_results new)) - 1
           /\ (enable_failure_recovery_ p = true ->
               last (optimize_results new) = Some false ->
               max_recovery_attempts_ p <= replan_count st')
       | InitFailed st' =>
           errors new = ["Could not initialize optimizer"%string]
           /\ length (attempts new) = S (length (optimize_results new))
           /\ (forall k b, optimize_results new !! k = Some b -> b = false)
       end.
Proof.
  revert st. induction fuel as [ | fuel IH ]; intros st p Hcount Hmax Hrun; [ discriminate | ].
  cbn [recovery_loop] in Hrun. fold p in Hrun.
  set (opt := new_ChompOptimizer M ext (built st) (loop_trajectory st) scene group p start)
    in Hrun.
  destruct (isInitialized opt); cbn [negb] in Hrun.
  2:{ injection Hrun as <-. cbn [exit_state loop_trace].
      exists [NewOptimizer (loop_trajectory st) p; ROS_ERROR "Could not initialize optimizer"].
      split; [ rewrite <- app_assoc; reflexivity | ].
      split; [ simpl; intros; lia | ].
      split; [ reflexivity | ]. split; [ reflexivity | ].
      intros k b Hk. discriminate. }
  assert (Hone : forall b (st' : LoopState D),
            loop_trace st' = (loop_trace st ++ [NewOptimizer (loop_trajectory st) p])
                             ++ [Optimize b] ->
            replan_count st' = replan_count st ->
            (enable_failure_recovery_ p = true -> b = false ->
             max_recovery_attempts_ p <= replan_count st) ->
            exists new,
              loop_trace st' = loop_trace st ++ new
              /\ (forall k : nat, (S k < length (optimize_results new))%nat ->
                    optimize_results new !! k = Some false)
              /\ errors new = []
              /\ optimize_results new <> []
              /\ length (attempts new) = length (optimize_results new)
              /\ replan_count st'
                 = replan_count st + Z.of_nat (length (optimize_results new)) - 1
              /\ (enable_failure_recovery_ p = true ->
                  last (optimize_results new) = Some false ->
                  max_recovery_attempts_ p <= replan_count st')).
  { intros b st' Htrace Hsame Hgive.
    exists [NewOptimizer (loop_trajectory st) p; Optimize b].
    split; [ rewrite Htrace, <- app_assoc; reflexivity | ].
    split; [ simpl; intros; lia | ].
    split; [ reflexivity | ]. split; [ discriminate | ]. split; [ reflexivity | ].
    split; [ simpl; lia | ].
    simpl. intros Hen Hlast. injection Hlast as ->. rewrite Hsame. auto. }
  destruct (enable_failure_recovery_ p) eqn:Hen.
  2:{ injection Hrun as <-. cbn [exit_state].
      apply (Hone (fst (optimize opt))); [ reflexivity | reflexivity | discriminate ]. }
  destruct (fst (optimize opt)) eqn:Hres; cbn [negb andb] in Hrun.
  { injection Hrun as <-. cbn [exit_state].
    apply (Hone true); [ reflexivity | reflexivity | discriminate ]. }
  destruct (Z.ltb_spec (replan_count st) (max_recovery_attempts_ p)) as [Hlt | Hge].
  2:{ injection Hrun as <-. cbn [exit_state].
      apply (Hone false); [ reflexivity | reflexivity | ].
      intros _ _. exact Hge. }
  assert (Hnext : int_of (replan_count st + 1) = replan_count st + 1).
  { apply int_of_small. unfold INT_MAX in Hmax. lia. }
  rewrite Hnext in Hrun.
  apply IH in Hrun; cbn [replan_flag params_nonconst replan_count]; [ | lia | exact Hmax ].
  cbn [replan_flag params_nonconst replan_count loop_trace] in Hrun.
  destruct Hrun as (new1 & Htrace & Hearlier & Hexit).
  exists ([NewOptimizer (loop_trajectory st) p; Optimize false] ++ new1).
  split.
  { rewrite Htrace. rewrite <- !app_assoc. reflexivity. }
  rewrite optimize_results_app, attempts_app, errors_app.
  cbn [optimize_results attempts errors app length].
  split.
  { intros k Hk. destruct k as [ | k ]; [ reflexivity | ].
    cbn [lookup list_lookup]. apply Hearlier. lia. }
  destruct exit as [ st' | st' ].
  - destruct Hexit as (Herr & Hsome & Hlen & Hcnt & Hgive).
    split; [ exact Herr | ]. split; [ discriminate | ]. split; [ lia | ]. split; [ lia | ].
    intros Hen' Hlast. apply Hgive; [ exact Hen | ].
    destruct (optimize_results new1) as [ | b rs ] eqn:Hrs.
    + contradiction Hsome. reflexivity.
    + exact Hlast.
  - destruct Hexit as (Herr & Hlen & Hall).
    split; [ exact Herr | ]. split; [ lia | ].
    intros k b Hk. destruct k as [ | k ].
    + injection Hk as <-. reflexivity.
    + exact (Hall k b Hk).
Qed.

(** X14: When the recovery loop stops.  With failure recovery enabled and a
    retry bound between 0 and [INT_MAX], the loop that [solve] enters
    returns, and every call of [optimize()] but the last one returned
    [false]: an attempt is retried only when it failed.  The loop is left
    by [break] either right after the first optimization that succeeds, or
    after [max_recovery_attempts_ + 1] optimizations that all failed; it is
    left without [break] only when an optimizer could not be initialized,
    every optimization before it having failed.  An optimizer that
    initializes is always run once. *)
Theorem recovery_loop_stops (params : ChompParameters D) (trajectory : ChompTrajectory D)
    (trace0 : list (Event D)) :
  0 <= max_recovery_attempts_ params <= INT_MAX ->
  enable_failure_recovery_ params = true ->
  exists exit new,
    recovery_loop ext scene group start (S (Z.to_nat (max_recovery_attempts_ params)))
      {| replan_count := 0; replan_flag := false; params_nonconst := params;
         loop_trajectory := trajectory; optimizer := None; built := O;
         loop_trace := trace0 |}
    = Returned exit
    /\ loop_trace (exit_state exit) = trace0 ++ new
    /\ (forall k : nat, (S k < length (optimize_results new))%nat ->
          optimize_results new !! k = Some false)
    /\ (forall st', exit = Break st' ->
          length (attempts new) = length (optimize_results new)
          /\ (last (optimize_results new) = Some true
              \/ (last (optimize_results new) = Some false
                  /\ length (optimize_results new)
                     = S (Z.to_nat (max_recovery_attempts_ params)))))
    /\ (forall st', exit = InitFailed st' ->
          length (attempts new) = S (length (optimize_results new))
          /\ (forall k b, optimize_results new !! k = Some b -> b = false)).
Proof.
  intros Hmax Hen.
  set (st0 := {| replan_count := 0; replan_flag := false; params_nonconst := params;
                 loop_trajectory := trajectory; optimizer := None; built := O;
                 loop_trace := trace0 |}).
  destruct (recovery_loop_run ext scene group start
              (S (Z.to_nat (max_recovery_attempts_ params))) st0)
    as (exit & new0 & Hrun & Htrace0 & Hbound & _).
  { cbn. lia. }
  { cbn. lia. }
  { cbn. lia. }
  destruct (recovery_loop_results _ st0 exit ltac:(cbn; lia) ltac:(cbn; lia) Hrun)
    as (new & Htrace & Hearlier & Hexit).
  cbn [st0 replan_flag params_nonconst replan_count loop_trace] in *.
  assert (new0 = new) as -> by (apply (app_inv_head trace0); congruence).
  exists exit, new.
  split; [ exact Hrun | ]. split; [ exact Htrace | ]. split; [ exact Hearlier | ].
  split.
  - intros st' ->. destruct Hexit as (_ & _ & Hlen & Hcnt & Hgive).
    split; [ exact Hlen | ].
    destruct (last (optimize_results new)) as [ [ | ] | ] eqn:Hlast.
    + left. reflexivity.
    + right. split; [ reflexivity | ].
      specialize (Hgive Hen eq_refl). lia.
    + apply last_None in Hlast. rewrite Hlast in Hlen. simpl in Hlen. lia.
  - intros st' ->. destruct Hexit as (_ & Hlen & Hall). split; assumption.
Qed.

End LoopStops.

Lemma recovery_loop_stops_witness :
  exists exit new,
    recovery_loop (Examples.world (fun n => Nat.eqb n 1) true) Examples.scene "arm"
      (Examples.state_at 3%float) (S (Z.to_nat 2))
      {| replan_count := 0; replan_flag := false;
         params_nonconst := Examples.parameters "linear";
         loop_trajectory := Examples.buffer 4; optimizer := None; built := O;
         loop_trace := [] |}
    = Returned exit
    /\ loop_trace (exit_state exit) = [] ++ new
    /\ optimize_results new = [false; true].
Proof.
  destruct (recovery_loop_stops (Examples.world (fun n => Nat.eqb n 1) true) Examples.scene
              "arm" (Examples.state_at 3%float) (Examples.parameters "linear")
              (Examples.buffer 4) [])
    as (exit & new & Hrun & Htrace & _).
  - vm_compute. split; discriminate.
  - reflexivity.
  - exists exit, new. split; [ exact Hrun | ]. split; [ exact Htrace | ].
    vm_compute in Hrun. injection Hrun as <-.
    simpl in Htrace. subst new. reflexivity.
Defined.

Section SolveReturns.

Context {D : Type} `{DoubleOps D} {M : Type}.
Variable u : D.
Variable ext : Collaborators D M.

(** When the loop is left by [break], it has logged no error. *)
Lemma recovery_loop_break_errors (scene : PlanningScene D) (group : string)
    (start : RobotState D) (fuel : nat) (st st' : LoopState D) :
  recovery_loop ext scene group start fuel st = Returned (Break st') ->
  errors (loop_trace st') = errors (loop_trace st).
Proof.
  revert st. induction fuel as [ | fuel IH ]; intros st Hrun; [ discriminate | ].
  cbn [recovery_loop] in Hrun.
  repeat (match type of Hrun with
          | context [if ?b then _ else _] => destruct b
          end);
    try discriminate;
    try (injection Hrun as <-; cbn [loop_trace]; rewrite !errors_app; simpl;
         rewrite !app_nil_r; reflexivity).
  all: apply IH in Hrun; rewrite Hrun; cbn [loop_trace]; rewrite !errors_app; simpl;
    rewrite !app_nil_r; reflexivity.
Qed.

(** The goal check passes exactly when every constraint can be configured
    and is satisfied. *)
Lemma goal_check_none (last_state : RobotState D) (constraints : list (JointConstraint D)) :
  goal_check ext last_state constraints = None ->
  forall c, c ∈ constraints ->
    jc_configure M ext c = true /\ jc_decide_satisfied M ext c last_state = true.
Proof.
  unfold goal_check. intros Hnone c Hc.
  apply list_elem_of_In in Hc.
  pose proof (find_none _ _ Hnone c Hc) as Hfalse. cbv beta in Hfalse.
  apply orb_false_iff in Hfalse as [Hconf Hdec].
  apply negb_false_iff in Hconf. apply negb_false_iff in Hdec. split; assumption.
Qed.

(** X17: The returned boolean and the error code agree: [solve] returns [true]
    exactly when it leaves [SUCCESS] in the response, and every [false]
    comes with one of the six failure codes. *)
Theorem solve_true_iff_success (planning_scene : option (PlanningScene D))
    (req : MotionPlanRequest D M) (params : ChompParameters D)
    (res : MotionPlanDetailedResponse D) (r : SolveReturn D) :
  solve u ext planning_scene req params res = Returned r ->
  (ret r = true <-> error_code_ (response r) = SUCCESS)
  /\ (ret r = false ->
      error_code_ (response r) = FAILURE
      \/ error_code_ (response r) = INVALID_ROBOT_STATE
      \/ error_code_ (response r) = INVALID_GOAL_CONSTRAINTS
      \/ error_code_ (response r) = PLANNING_FAILED
      \/ error_code_ (response r) = INVALID_MOTION_PLAN
      \/ error_code_ (response r) = GOAL_CONSTRAINTS_VIOLATED).
Proof.
  intros Hrun.
  destruct (solve_returned _ _ _ _ _ _ _ Hrun)
    as [ (code & msg & -> & Hearly)
       | (scene & goal & _ & _ & _ & _ & _ & Hreport) ].
  { cbn. split.
    - split; [ discriminate | ]. intros ->. intuition discriminate.
    - intros _. intuition (subst; auto). }
  destruct (optimize_and_report_returned _ _ _ _ _ _ _ _ _ _ _ Hreport)
    as (exit & _ & _ & Hcases).
  destruct Hcases
    as [ (_ & Hret & Hres & _)
       | (_ & result & opt & _ & _ & _ & _ & _ &
          [ (_ & Hret & Hcode & _)
          | (_ & last_state & _ &
             [ (c & _ & Hret & Hcode & _) | (_ & Hret & Hcode & _) ]) ]) ].
  - rewrite Hret, Hres. cbn. split; [ split; discriminate | auto 10 ].
  - rewrite Hret, Hcode. split; [ split; discriminate | auto 10 ].
  - rewrite Hret, Hcode. split; [ split; discriminate | auto 10 ].
  - rewrite Hret, Hcode. split; [ split; reflexivity | discriminate ].
Qed.

(** X18: What a [true] from [solve] guarantees.  The request had a scene, a
    start state and a goal state within bounds, and exactly one goal, made
    of joint constraints only; the response holds [SUCCESS], one processing
    time and one trajectory; the last waypoint of that trajectory satisfies
    every joint constraint of the goal, each of which could be configured;
    and the only error that can have been logged is the one for an
    initialization method that is not recognised.  Nothing is required of
    what [optimize()] returned. *)
Theorem solve_true_guarantees (planning_scene : option (PlanningScene D))
    (req : MotionPlanRequest D M) (params : ChompParameters D)
    (res : MotionPlanDetailedResponse D) (r : SolveReturn D) :
  solve u ext planning_scene req params res = Returned r ->
  ret r = true ->
  exists scene goal result last_state,
    planning_scene = Some scene
    /\ goal_constraints M req = [goal]
    /\ joint_constraints goal <> []
    /\ position_constraints goal = []
    /\ orientation_constraints goal = []
    /\ (let start_state :=
          robotStateMsgToRobotState M ext scene (start_state M req) (getCurrentState scene) in
        satisfiesBounds M ext start_state = true
        /\ satisfiesBounds M ext (goal_state_of ext start_state goal) = true)
    /\ error_code_ (response r) = SUCCESS
    /\ res_trajectory_ (response r) = [result]
    /\ processing_time_ (response r) = [elapsed M ext]
    /\ last (waypoints result) = Some last_state
    /\ (forall c, c ∈ joint_constraints goal ->
          jc_configure M ext c = true /\ jc_decide_satisfied M ext c last_state = true)
    /\ (forall msg, msg ∈ errors (trace r) ->
          msg = "invalid interpolation method specified in the chomp_planner file"%string).
Proof.
  intros Hrun Hret.
  destruct (solve_returned _ _ _ _ _ _ _ Hrun)
    as [ (code & msg & -> & _)
       | (scene & goal & Hscene & Hgoals & Hstart & Hgoal & Hbounds & Hreport) ].
  { discriminate. }
  destruct (optimize_and_report_returned _ _ _ _ _ _ _ _ _ _ _ Hreport)
    as (exit & Hloop & _ & Hcases).
  destruct Hcases
    as [ (_ & Hfalse & _)
       | (Hexit & result & opt & _ & _ & Htraj & Htime & _ &
          [ (_ & Hfalse & _)
          | (_ & last_state & Hlast &
             [ (c & _ & Hfalse & _) | (Hcheck & _ & Hcode & Htrace) ]) ]) ];
    try congruence.
  exists scene, goal, result, last_state.
  split; [ exact Hscene | ]. split; [ exact Hgoals | ].
  unfold unsupported_goal in Hgoal.
  apply orb_false_iff in Hgoal as [Hgoal Horient].
  apply orb_false_iff in Hgoal as [Hjoint Hposition].
  split; [ destruct (joint_constraints goal); [ discriminate | discriminate ] | ].
  split; [ destruct (position_constraints goal); [ reflexivity | discriminate ] | ].
  split; [ destruct (orientation_constraints goal); [ reflexivity | discriminate ] | ].
  split; [ split; assumption | ].
  split; [ exact Hcode | ]. split; [ exact Htraj | ]. split; [ exact Htime | ].
  split; [ exact Hlast | ].
  split; [ apply goal_check_none; exact Hcheck | ].
  intros msg Hmsg. rewrite Htrace in Hmsg.
  rewrite Hexit in Hloop. apply recovery_loop_break_errors in Hloop.
  rewrite Hloop in Hmsg. cbn [loop_trace] in Hmsg.
  unfold initial_fill in Hmsg.
  repeat (match type of Hmsg with
          | context [if ?b then _ else _] => destruct b
          end);
    cbn in Hmsg; try (apply elem_of_nil in Hmsg; contradiction).
  apply list_elem_of_singleton in Hmsg. exact Hmsg.
Qed.

End SolveReturns.

Lemma solve_true_iff_success_witness :
  exists r,
    solve 0%float (Examples.world (fun _ => false) true) (Some Examples.scene)
          Examples.request (Examples.parameters "linear") Examples.empty_response
    = Returned r
    /\ ret r = true
    /\ error_code_ (response r) = SUCCESS.
Proof.
  destruct (solve 0%float (Examples.world (fun _ => false) true) (Some Examples.scene)
              Examples.request (Examples.parameters "linear") Examples.empty_response)
    as [ r | | ] eqn:Hrun.
  2, 3: vm_compute in Hrun; discriminate.
  exists r. split; [ reflexivity | ].
  assert (Hret : ret r = true) by (vm_compute in Hrun; injection Hrun as <-; reflexivity).
  split; [ exact Hret | ].
  apply (solve_true_iff_success 0%float _ _ _ _ _ _ Hrun). exact Hret.
Defined.

Lemma solve_true_guarantees_witness :
  exists r result,
    solve 0%float (Examples.world (fun _ => false) true) (Some Examples.scene)
          Examples.request (Examples.parameters "cubic") Examples.empty_response
    = Returned r
    /\ res_trajectory_ (response r) = [result].
Proof.
  destruct (solve 0%float (Examples.world (fun _ => false) true) (Some Examples.scene)
              Examples.request (Examples.parameters "cubic") Examples.empty_response)
    as [ r | | ] eqn:Hrun.
  2, 3: vm_compute in Hrun; discriminate.
  assert (Hret : ret r = true) by (vm_compute in Hrun; injection Hrun as <-; reflexivity).
  destruct (solve_true_guarantees 0%float _ _ _ _ _ _ Hrun Hret)
    as (scene & goal & result & last_state & _ & _ & _ & _ & _ & _ & _ & Htraj & _).
  exists r, result. split; [ reflexivity | exact Htraj ].
Defined.

Section Escalation.

Local Open Scope R_scope.

(** [k] escalations of a parameter set, in real arithmetic. *)
Lemma escalations_closed_form (p q : ChompParameters R) (n k : nat) :
  escalations p n !! k = Some q ->
  learning_rate_ q = learning_rate_ p + INR k * (2 / 100)
  /\ ridge_factor_ q = ridge_factor_ p + INR k * (2 / 1000)
  /\ planning_time_limit_ q = planning_time_limit_ p + INR k * 5
  /\ ((- 2 ^ 31 <= max_iterations_ p)%Z ->
      (max_iterations_ p + 50 * Z.of_nat k <= INT_MAX)%Z ->
      max_iterations_ q = (max_iterations_ p + 50 * Z.of_nat k)%Z)
  /\ max_recovery_attempts_ q = max_recovery_attempts_ p
  /\ enable_failure_recovery_ q = enable_failure_recovery_ p
  /\ trajectory_initialization_method_ q = trajectory_initialization_method_ p
  /\ demo_type_ q = demo_type_ p.
Proof.
  revert p n. induction k as [ | k IH ]; intros p n Hq.
  - destruct n; [ discriminate | ]. simpl in Hq. injection Hq as <-.
    simpl. repeat split; try lra. intros _ _. lia.
  - destruct n; [ discriminate | ]. simpl in Hq.
    destruct (IH _ _ Hq) as (Hlr & Hrf & Hpt & Hmi & Hmax & Hen & Hme & Hde).
    rewrite S_INR.
    split; [ rewrite Hlr; simpl; lra | ].
    split; [ rewrite Hrf; simpl; lra | ].
    split; [ rewrite Hpt; simpl; lra | ].
    split.
    { intros Hlo Hhi. unfold INT_MAX in *.
      assert (Hstep : max_iterations_ (escalate p) = (max_iterations_ p + 50)%Z).
      { simpl. apply int_of_small. lia. }
      rewrite Hmi; rewrite Hstep; unfold INT_MAX; lia. }
    split; [ exact Hmax | ]. split; [ exact Hen | ]. split; assumption.
Qed.

Variable M : Type.
Variable ext : Collaborators R M.
Variable scene : PlanningScene R.
Variable group : string.
Variable start : RobotState R.

(** X16: The escalation is cumulative.  In real arithmetic, the attempt of
    rank [k] of the recovery loop (the first one has rank 0) runs with the
    caller's learning rate plus [0.02 k], ridge factor plus [0.002 k] and
    planning time limit plus [5 k], and with the caller's number of
    iterations plus [50 k] as long as that sum fits an [int]; the retry
    bound, the recovery switch, the initialization method and the
    demonstration type are the caller's in every attempt. *)
Theorem recovery_loop_escalation_closed_form (params : ChompParameters R)
    (trajectory : ChompTrajectory R) (trace0 : list (Event R)) :
  (max_recovery_attempts_ params <= INT_MAX)%Z ->
  exists exit new,
    recovery_loop ext scene group start (S (Z.to_nat (max_recovery_attempts_ params)))
      {| replan_count := 0; replan_flag := false; params_nonconst := params;
         loop_trajectory := trajectory; optimizer := None; built := O;
         loop_trace := trace0 |}
    = Returned exit
    /\ loop_trace (exit_state exit) = trace0 ++ new
    /\ forall (k : nat) (q : ChompParameters R),
         attempts new !! k = Some q ->
         learning_rate_ q = learning_rate_ params + INR k * (2 / 100)
         /\ ridge_factor_ q = ridge_factor_ params + INR k * (2 / 1000)
         /\ planning_time_limit_ q = planning_time_limit_ params + INR k * 5
         /\ ((- 2 ^ 31 <= max_iterations_ params)%Z ->
             (max_iterations_ params + 50 * Z.of_nat k <= INT_MAX)%Z ->
             max_iterations_ q = (max_iterations_ params + 50 * Z.of_nat k)%Z)
         /\ max_recovery_attempts_ q = max_recovery_attempts_ params
         /\ enable_failure_recovery_ q = enable_failure_recovery_ params
         /\ trajectory_initialization_method_ q = trajectory_initialization_method_ params
         /\ demo_type_ q = demo_type_ params.
Proof.
  intros Hmax.
  destruct (recovery_loop_run ext scene group start
              (S (Z.to_nat (max_recovery_attempts_ params)))
              {| replan_count := 0; replan_flag := false; params_nonconst := params;
                 loop_trajectory := trajectory; optimizer := None; built := O;
                 loop_trace := trace0 |})
    as (exit & new & Hrun & Htrace & _ & _ & Hchain & _).
  { cbn. lia. }
  { cbn. exact Hmax. }
  { cbn. lia. }
  cbn [replan_flag params_nonconst replan_count loop_trace] in *.
  exists exit, new. split; [ exact Hrun | ]. split; [ exact Htrace | ].
  intros k q Hq. rewrite Hchain in Hq.
  exact (escalations_closed_form _ _ _ _ Hq).
Qed.

End Escalation.

Lemma recovery_loop_escalation_closed_form_witness :
  exists exit new,
    recovery_loop (Examples.real_world (fun _ => false)) Examples.real_scene "arm"
      (Examples.real_state_at 3%R) (S (Z.to_nat 2))
      {| replan_count := 0; replan_flag := false;
         params_nonconst := Examples.real_parameters;
         loop_trajectory := Examples.real_buffer; optimizer := None; built := O;
         loop_trace := [] |}
    = Returned exit
    /\ loop_trace (exit_state exit) = [] ++ new
    /\ forall q, attempts new !! 2%nat = Some q ->
         planning_time_limit_ q = (10 + INR 2 * 5)%R.
Proof.
  destruct (recovery_loop_escalation_closed_form (RobotState R)
              (Examples.real_world (fun _ => false)) Examples.real_scene "arm"
              (Examples.real_state_at 3%R) Examples.real_parameters Examples.real_buffer [])
    as (exit & new & Hrun & Htrace & Hclosed).
  - vm_compute. discriminate.
  - exists exit, new. split; [ exact Hrun | ]. split; [ exact Htrace | ].
    intros q Hq. destruct (Hclosed 2%nat q Hq) as (_ & _ & Hlimit & _). exact Hlimit.
Defined.

Section HandOver.

Context {D : Type} `{DoubleOps D} {M : Type}.
Variable ext : Collaborators D M.
Variable scene : PlanningScene D.
Variable group : string.
Variable start : RobotState D.

(** The loop from any state: which buffer each optimizer is built on. *)
Lemma recovery_loop_handover (fuel : nat) (st : LoopState D) (exit : LoopExit D) :
  let p := if replan_flag st then escalate (params_nonconst st) else params_nonconst st in
  recovery_loop ext scene group start fuel st = Returned exit ->
  exists tail,
    let new := NewOptimizer (loop_trajectory st) p :: tail in
    loop_trace (exit_state exit) = loop_trace st ++ new
    /\ (forall before t q b t' q' rest,
          new = before ++ NewOptimizer t q :: Optimize b :: NewOptimizer t' q' :: rest ->
          let opt := new_ChompOptimizer M ext (built st + length (attempts before)) t scene
                                        group q start in
          b = fst (optimize opt) /\ t' = with_trajectory t (snd (optimize opt)))
    /\ (forall st', exit = Break st' ->
          exists before t q b,
            new = before ++ [NewOptimizer t q; Optimize b]
            /\ let opt := new_ChompOptimizer M ext (built st + length (attempts before)) t
                                             scene group q start in
               b = fst (optimize opt)
               /\ loop_trajectory st' = with_trajectory t (snd (optimize opt))
               /\ optimizer st' = Some opt).
Proof.
  revert st exit. induction fuel as [ | fuel IH ]; intros st exit p Hrun; [ discriminate | ].
  cbn [recovery_loop] in Hrun. fold p in Hrun.
  set (opt0 := new_ChompOptimizer M ext (built st) (loop_trajectory st) scene group p start)
    in Hrun.
  assert (Hshort : forall e before t q b t' q' rest,
            [NewOptimizer (loop_trajectory st) p; e]
            <> before ++ NewOptimizer t q :: Optimize b :: NewOptimizer t' q' :: rest).
  { intros e before t q b t' q' rest Heq. apply (f_equal length) in Heq.
    rewrite length_app in Heq. simpl in Heq. lia. }
  assert (Hone : forall st',
            loop_trace st' = (loop_trace st ++ [NewOptimizer (loop_trajectory st) p])
                             ++ [Optimize (fst (optimize opt0))] ->
            loop_trajectory st' = with_trajectory (loop_trajectory st) (snd (optimize opt0)) ->
            optimizer st' = Some opt0 ->
            exists tail,
              let new := NewOptimizer (loop_trajectory st) p :: tail in
              loop_trace st' = loop_trace st ++ new
              /\ (forall before t q b t' q' rest,
                    new = before ++ NewOptimizer t q :: Optimize b :: NewOptimizer t' q' :: rest ->
                    let opt := new_ChompOptimizer M ext (built st + length (attempts before))
                                                  t scene group q start in
                    b = fst (optimize opt) /\ t' = with_trajectory t (snd (optimize opt)))
              /\ (forall st'', Break st' = Break st'' ->
                    exists before t q b,
                      new = before ++ [NewOptimizer t q; Optimize b]
                      /\ let opt := new_ChompOptimizer M ext
                                      (built st + length (attempts before)) t scene group q
                                      start in
                         b = fst (optimize opt)
                         /\ loop_trajectory st'' = with_trajectory t (snd (optimize opt))
                         /\ optimizer st'' = Some opt)).
  { intros st' Htrace Htraj Hopt.
    exists [Optimize (fst (optimize opt0))]. cbv zeta.
    split; [ rewrite Htrace, <- app_assoc; reflexivity | ].
    split; [ intros before t q b t' q' rest Heq; contradiction (Hshort _ _ _ _ _ _ _ _ Heq) | ].
    intros st'' Heq. injection Heq as <-.
    exists [], (loop_trajectory st), p, (fst (optimize opt0)).
    split; [ reflexivity | ]. cbn [attempts length]. rewrite Nat.add_0_r.
    fold opt0. split; [ reflexivity | ]. split; assumption. }
  destruct (isInitialized opt0); cbn [negb] in Hrun.
  2:{ injection Hrun as <-. cbn [exit_state loop_trace].
      exists [ROS_ERROR "Could not initialize optimizer"]. cbv zeta.
      split; [ rewrite <- app_assoc; reflexivity | ].
      split; [ intros before t q b t' q' rest Heq; contradiction (Hshort _ _ _ _ _ _ _ _ Heq) | ].
      intros st' Heq. discriminate. }
  destruct (enable_failure_recovery_ p).
  2:{ injection Hrun as <-. cbn [exit_state]. apply Hone; reflexivity. }
  destruct (negb (fst (optimize opt0)) && (replan_count st <? max_recovery_attempts_ p))
    eqn:Hretry.
  2:{ injection Hrun as <-. cbn [exit_state]. apply Hone; reflexivity. }
  apply andb_true_iff in Hretry as [Hfailed _]. apply negb_true_iff in Hfailed.
  apply IH in Hrun. cbn [replan_flag params_nonconst loop_trajectory built loop_trace] in Hrun.
  destruct Hrun as (tail1 & Htrace & Hpairs & Hbreak).
  set (t1 := with_trajectory (loop_trajectory st) (snd (optimize opt0))) in *.
  exists (Optimize (fst (optimize opt0)) :: NewOptimizer t1 (escalate p) :: tail1). cbv zeta.
  split.
  { rewrite Htrace. rewrite <- !app_assoc. reflexivity. }
  split.
  - intros before t q b t' q' rest Heq.
    destruct before as [ | e1 before ].
    { simpl in Heq. injection Heq as <- <- <- <- <- <-.
      cbn [attempts length]. rewrite Nat.add_0_r. fold opt0. split; reflexivity. }
    destruct before as [ | e2 before ].
    { simpl in Heq. injection Heq as _ Heq. discriminate. }
    simpl in Heq. injection Heq as <- <- Heq.
    destruct (Hpairs before t q b t' q' rest Heq) as [Hb Ht'].
    cbn [attempts length].
    replace (built st + S (length (attempts before)))%nat
      with (S (built st) + length (attempts before))%nat by lia.
    split; assumption.
  - intros st' Heq. destruct (Hbreak st' Heq) as (before & t & q & b & Hnew & Hb & Ht & Hopt).
    exists (NewOptimizer (loop_trajectory st) p :: Optimize (fst (optimize opt0)) :: before),
           t, q, b.
    split; [ simpl; rewrite Hnew; reflexivity | ].
    cbn [attempts length].
    replace (built st + S (length (attempts before)))%nat
      with (S (built st) + length (attempts before))%nat by lia.
    split; [ exact Hb | ]. split; assumption.
Qed.

(** X15: A retry starts from where the attempt before it stopped.  The first
    optimizer is built on the initial trajectory; every later one is built
    on the buffer as the [optimize()] of the optimizer before it left it,
    and not on the initial trajectory again; and when the loop is left by
    [break], the trajectory that goes to the output is the buffer as the
    last optimizer left it, that optimizer being the one asked afterwards
    whether the path is collision free. *)
Theorem recovery_loop_hands_over (params : ChompParameters D)
    (trajectory : ChompTrajectory D) (trace0 : list (Event D)) :
  max_recovery_attempts_ params <= INT_MAX ->
  exists exit new,
    recovery_loop ext scene group start (S (Z.to_nat (max_recovery_attempts_ params)))
      {| replan_count := 0; replan_flag := false; params_nonconst := params;
         loop_trajectory := trajectory; optimizer := None; built := O;
         loop_trace := trace0 |}
    = Returned exit
    /\ loop_trace (exit_state exit) = trace0 ++ new
    /\ (exists rest, new = NewOptimizer trajectory params :: rest)
    /\ (forall before t q b t' q' rest,
          new = before ++ NewOptimizer t q :: Optimize b :: NewOptimizer t' q' :: rest ->
          let opt := new_ChompOptimizer M ext (length (attempts before)) t scene group q
                                        start in
          b = fst (optimize opt) /\ t' = with_trajectory t (snd (optimize opt)))
    /\ (forall st', exit = Break st' ->
          exists before t q b,
            new = before ++ [NewOptimizer t q; Optimize b]
            /\ let opt := new_ChompOptimizer M ext (length (attempts before)) t scene group q
                                             start in
               b = fst (optimize opt)
               /\ loop_trajectory st' = with_trajectory t (snd (optimize opt))
               /\ optimizer st' = Some opt).
Proof.
  intros Hmax.
  set (st0 := {| replan_count := 0; replan_flag := false; params_nonconst := params;
                 loop_trajectory := trajectory; optimizer := None; built := O;
                 loop_trace := trace0 |}).
  destruct (recovery_loop_run ext scene group start
              (S (Z.to_nat (max_recovery_attempts_ params))) st0)
    as (exit & new0 & Hrun & _).
  { cbn. lia. }
  { cbn. exact Hmax. }
  { cbn. lia. }
  destruct (recovery_loop_handover _ st0 exit Hrun) as (tail & Htrace & Hpairs & Hbreak).
  cbn [st0 replan_flag params_nonconst loop_trajectory built loop_trace] in *.
  exists exit, (NewOptimizer trajectory params :: tail).
  split; [ exact Hrun | ]. split; [ exact Htrace | ].
  split; [ exists tail; reflexivity | ].
  split; [ exact Hpairs | exact Hbreak ].
Qed.

End HandOver.

Lemma recovery_loop_hands_over_witness :
  exists exit new rest,
    recovery_loop (Examples.world (fun n => Nat.eqb n 1) true) Examples.scene "arm"
      (Examples.state_at 3%float) (S (Z.to_nat 2))
      {| replan_count := 0; replan_flag := false;
         params_nonconst := Examples.parameters "linear";
         loop_trajectory := Examples.buffer 4; optimizer := None; built := O;
         loop_trace := [] |}
    = Returned exit
    /\ loop_trace (exit_state exit) = [] ++ new
    /\ new = NewOptimizer (Examples.buffer 4) (Examples.parameters "linear") :: rest.
Proof.
  destruct (recovery_loop_hands_over (Examples.world (fun n => Nat.eqb n 1) true)
              Examples.scene "arm" (Examples.state_at 3%float) (Examples.parameters "linear")
              (Examples.buffer 4) [])
    as (exit & new & Hrun & Htrace & (rest & Hfirst) & _).
  - vm_compute. discriminate.
  - exists exit, new, rest. split; [ exact Hrun | ]. split; [ exact Htrace | exact Hfirst ].
Defined.

Section Validation.

Context {D : Type} `{DoubleOps D} {M : Type}.
Variable u : D.
Variable ext : Collaborators D M.

(** X19: No optimizer is built for a request that does not pass validation,
    and one is always built for a request that does: the trace of a call
    holds no optimizer exactly when the call ends with [FAILURE],
    [INVALID_ROBOT_STATE] or [INVALID_GOAL_CONSTRAINTS], and in that case
    it holds nothing but the one error logged. *)
Theorem solve_optimizes_iff_validated (planning_scene : option (PlanningScene D))
    (req : MotionPlanRequest D M) (params : ChompParameters D)
    (res : MotionPlanDetailedResponse D) (r : SolveReturn D) :
  solve u ext planning_scene req params res = Returned r ->
  (attempts (trace r) = []
   <-> (error_code_ (response r) = FAILURE
        \/ error_code_ (response r) = INVALID_ROBOT_STATE
        \/ error_code_ (response r) = INVALID_GOAL_CONSTRAINTS))
  /\ (attempts (trace r) = [] -> exists msg, trace r = [ROS_ERROR msg]).
Proof.
  intros Hrun.
  destruct (solve_returned _ _ _ _ _ _ _ Hrun)
    as [ (code & msg & -> & Hearly)
       | (scene & goal & _ & _ & _ & _ & _ & Hreport) ].
  { cbn. split; [ split; [ intros _; exact Hearly | reflexivity ] | ].
    intros _. exists msg. reflexivity. }
  destruct (optimize_and_report_returned _ _ _ _ _ _ _ _ _ _ _ Hreport)
    as (exit & Hloop & _ & Hcases).
  destruct (recovery_loop_handover _ _ _ _ _ _ _ Hloop) as (tail & Htrace & _).
  cbn [replan_flag params_nonconst loop_trajectory loop_trace] in Htrace.
  assert (Hbuilt : forall more, attempts (loop_trace (exit_state exit) ++ more) <> []).
  { intros more. rewrite Htrace, !attempts_app. cbn [attempts].
    intros Hnil. apply app_eq_nil in Hnil as [Hnil _].
    apply app_eq_nil in Hnil as [_ Hnil]. discriminate. }
  assert (Hbuilt0 : attempts (loop_trace (exit_state exit)) <> []).
  { specialize (Hbuilt []). rewrite app_nil_r in Hbuilt. exact Hbuilt. }
  destruct Hcases
    as [ (_ & _ & Hres & _ & Htr)
       | (_ & result & opt & _ & _ & _ & _ & _ &
          [ (_ & _ & Hcode & Htr)
          | (_ & last_state & _ &
             [ (c & _ & _ & Hcode & Htr) | (_ & _ & Hcode & Htr) ]) ]) ];
    rewrite Htr; try rewrite Hres; try rewrite Hcode; cbn [error_code_ set_error_code];
    (split; [ split; [ intros Hnil | intros Hcodes ] | intros Hnil ]);
    try (contradiction (Hbuilt0 Hnil));
    try (contradiction (Hbuilt _ Hnil));
    intuition discriminate.
Qed.

End Validation.

Lemma solve_optimizes_iff_validated_witness :
  exists r,
    solve 0%float (Examples.world (fun _ => false) true) None
          Examples.request (Examples.parameters "linear") Examples.empty_response
    = Returned r
    /\ attempts (trace r) = [].
Proof.
  destruct (solve 0%float (Examples.world (fun _ => false) true) None
              Examples.request (Examples.parameters "linear") Examples.empty_response)
    as [ r | | ] eqn:Hrun.
  2, 3: vm_compute in Hrun; discriminate.
  exists r. split; [ reflexivity | ].
  apply (solve_optimizes_iff_validated 0%float _ _ _ _ _ _ Hrun).
  left. vm_compute in Hrun. injection Hrun as <-. reflexivity.
Defined.

Section GoalViolation.

Context {D : Type} `{DoubleOps D} {M : Type}.
Variable u : D.
Variable ext : Collaborators D M.

(** What [find] finds is the first element that passes the test. *)
Lemma find_first {A : Type} (f : A -> bool) (l : list A) (x : A) :
  List.find f l = Some x ->
  exists before after,
    l = before ++ x :: after /\ f x = true /\ (forall y, y ∈ before -> f y = false).
Proof.
  induction l as [ | a l IH ]; intros Hfind; [ discriminate | ].
  simpl in Hfind. destruct (f a) eqn:Ha.
  - injection Hfind as <-. exists [], l. split; [ reflexivity | ].
    split; [ exact Ha | ]. intros y Hy. apply elem_of_nil in Hy. contradiction.
  - destruct (IH Hfind) as (before & after & -> & Hx & Hbefore).
    exists (a :: before), after. split; [ reflexivity | ]. split; [ exact Hx | ].
    intros y Hy. apply elem_of_cons in Hy as [-> | Hy]; [ exact Ha | exact (Hbefore y Hy) ].
Qed.

(** X24: A goal violation names the first constraint that fails.  When
    [solve] ends with [GOAL_CONSTRAINTS_VIOLATED], it returns [false] with
    the whole trajectory in the response; the joint constraints of the goal
    were checked in their order against the last waypoint of that
    trajectory; the one named in the error logged last is the first that
    could not be configured or is not satisfied, every constraint before it
    being configured and satisfied. *)
Theorem solve_goal_violation_first (planning_scene : option (PlanningScene D))
    (req : MotionPlanRequest D M) (params : ChompParameters D)
    (res : MotionPlanDetailedResponse D) (r : SolveReturn D) :
  solve u ext planning_scene req params res = Returned r ->
  error_code_ (response r) = GOAL_CONSTRAINTS_VIOLATED ->
  exists goal result last_state before c after earlier,
    goal_constraints M req = [goal]
    /\ ret r = false
    /\ res_trajectory_ (response r) = [result]
    /\ last (waypoints result) = Some last_state
    /\ joint_constraints goal = before ++ c :: after
    /\ (forall c', c' ∈ before ->
          jc_configure M ext c' = true /\ jc_decide_satisfied M ext c' last_state = true)
    /\ (jc_configure M ext c = false \/ jc_decide_satisfied M ext c last_state = false)
    /\ trace r
       = earlier ++ [ROS_ERROR ("Goal constraints are violated: " ++ joint_name c)].
Proof.
  intros Hrun Hcode.
  destruct (solve_returned _ _ _ _ _ _ _ Hrun)
    as [ (code & msg & -> & Hearly)
       | (scene & goal & _ & Hgoals & _ & _ & _ & Hreport) ].
  { cbn in Hcode. intuition congruence. }
  destruct (optimize_and_report_returned _ _ _ _ _ _ _ _ _ _ _ Hreport)
    as (exit & _ & _ & Hcases).
  destruct Hcases
    as [ (_ & _ & Hres & _)
       | (_ & result & opt & _ & _ & Htraj & _ & _ &
          [ (_ & _ & Hother & _)
          | (_ & last_state & Hlast &
             [ (c & Hcheck & Hret & _ & Htrace) | (_ & _ & Hother & _) ]) ]) ];
    try (rewrite Hres in Hcode; discriminate);
    try (rewrite Hother in Hcode; discriminate).
  unfold goal_check in Hcheck.
  destruct (find_first _ _ _ Hcheck) as (before & after & Hsplit & Hfails & Hbefore).
  exists goal, result, last_state, before, c, after, (loop_trace (exit_state exit)).
  split; [ exact Hgoals | ]. split; [ exact Hret | ]. split; [ exact Htraj | ].
  split; [ exact Hlast | ]. split; [ exact Hsplit | ].
  split.
  { intros c' Hc'. specialize (Hbefore c' Hc'). cbv beta in Hbefore.
    apply orb_false_iff in Hbefore as [Hconf Hdec].
    apply negb_false_iff in Hconf. apply negb_false_iff in Hdec. split; assumption. }
  split; [ | exact Htrace ].
  apply orb_true_iff in Hfails as [Hconf | Hdec];
    [ left; apply negb_true_iff; exact Hconf | right; apply negb_true_iff; exact Hdec ].
Qed.

End GoalViolation.

Lemma solve_goal_violation_first_witness :
  exists r,
    solve 0%float Examples.unreached_world (Some Examples.scene)
          Examples.request (Examples.parameters "linear") Examples.empty_response
    = Returned r
    /\ error_code_ (response r) = GOAL_CONSTRAINTS_VIOLATED
    /\ ret r = false.
Proof.
  destruct (solve 0%float Examples.unreached_world (Some Examples.scene)
              Examples.request (Examples.parameters "linear") Examples.empty_response)
    as [ r | | ] eqn:Hrun.
  2, 3: vm_compute in Hrun; discriminate.
  assert (Hcode : error_code_ (response r) = GOAL_CONSTRAINTS_VIOLATED)
    by (vm_compute in Hrun; injection Hrun as <-; reflexivity).
  destruct (solve_goal_violation_first 0%float _ _ _ _ _ _ Hrun Hcode)
    as (goal & result & last_state & before & c & after & earlier & _ & Hret & _).
  exists r. split; [ reflexivity | ]. split; [ exact Hcode | exact Hret ].
Defined.

Section CollisionCheck.

Context {D : Type} `{DoubleOps D} {M : Type}.
Variable u : D.
Variable ext : Collaborators D M.

Lemma initial_fill_builds_nothing (params : ChompParameters D) (t : ChompTrajectory D) :
  attempts (snd (initial_fill u ext params t)) = [].
Proof.
  unfold initial_fill.
  repeat (match goal with |- context [if ?b then _ else _] => destruct b end); reflexivity.
Qed.

(** X25: The collision check is asked of the last optimizer, and comes
    first.  Whenever [solve] returns with the output built, the last
    optimizer it built has been run, nothing was built or run after it, and
    the call ends with [INVALID_MOTION_PLAN] exactly when that optimizer
    says that the path is not collision free: the goal constraints are
    looked at only for a collision-free path. *)
Theorem solve_collision_check (planning_scene : option (PlanningScene D))
    (req : MotionPlanRequest D M) (params : ChompParameters D)
    (res : MotionPlanDetailedResponse D) (r : SolveReturn D) :
  solve u ext planning_scene req params res = Returned r ->
  error_code_ (response r) = SUCCESS
  \/ error_code_ (response r) = INVALID_MOTION_PLAN
  \/ error_code_ (response r) = GOAL_CONSTRAINTS_VIOLATED ->
  exists scene earlier t q b final,
    planning_scene = Some scene
    /\ trace r = earlier ++ NewOptimizer t q :: Optimize b :: final
    /\ attempts final = []
    /\ optimize_results final = []
    /\ let start_state :=
         robotStateMsgToRobotState M ext scene (start_state M req) (getCurrentState scene) in
       let opt := new_ChompOptimizer M ext (length (attempts earlier)) t scene
                                     (group_name M req) q start_state in
       b = fst (optimize opt)
       /\ (error_code_ (response r) = INVALID_MOTION_PLAN <-> isCollisionFree opt = false).
Proof.
  intros Hrun Hcode.
  destruct (solve_returned _ _ _ _ _ _ _ Hrun)
    as [ (code & msg & -> & Hearly)
       | (scene & goal & Hscene & _ & _ & _ & _ & Hreport) ].
  { cbn in Hcode. intuition congruence. }
  set (start := robotStateMsgToRobotState M ext scene (start_state M req)
                                          (getCurrentState scene)) in *.
  destruct (optimize_and_report_returned _ _ _ _ _ _ _ _ _ _ _ Hreport)
    as (exit & Hloop & _ & Hcases).
  destruct (recovery_loop_handover _ _ _ _ _ _ _ Hloop) as (tail & Htrace & _ & Hbreak).
  cbn [replan_flag params_nonconst loop_trajectory loop_trace built] in Htrace, Hbreak.
  destruct Hcases
    as [ (_ & _ & Hres & _)
       | (Hexit & result & opt & _ & Hopt & _ & _ & _ & Hchecks) ].
  { rewrite Hres in Hcode. cbn in Hcode. intuition congruence. }
  destruct (Hbreak _ Hexit) as (before & t & q & b & Hnew & Hb & _ & Hlast).
  rewrite Hopt in Hlast. injection Hlast as ->.
  set (filled := initial_fill u ext params
                   (boundary_trajectory u ext scene (group_name M req) start
                      (goal_state_of ext start goal))) in *.
  assert (Hindex : length (attempts (snd filled ++ before)) = length (attempts before)).
  { rewrite attempts_app. subst filled. rewrite initial_fill_builds_nothing. reflexivity. }
  assert (Hshape : forall final,
            trace r = loop_trace (exit_state exit) ++ final ->
            trace r = (snd filled ++ before) ++ NewOptimizer t q :: Optimize b :: final).
  { intros final ->. rewrite Htrace, Hnew. rewrite <- !app_assoc. reflexivity. }
  destruct Hchecks
    as [ (Hfree & _ & Hcode' & Htr)
       | (Hfree & last_state & _ &
          [ (c & _ & _ & Hcode' & Htr) | (_ & _ & Hcode' & Htr) ]) ].
  - exists scene, (snd filled ++ before), t, q, b, [ROS_ERROR "Motion plan is invalid."].
    split; [ exact Hscene | ]. split; [ apply Hshape; exact Htr | ].
    split; [ reflexivity | ]. split; [ reflexivity | ].
    cbv zeta. fold start. rewrite Hindex.
    split; [ exact Hb | ]. split; [ intros _; exact Hfree | intros _; exact Hcode' ].
  - exists scene, (snd filled ++ before), t, q, b,
           [ROS_ERROR ("Goal constraints are violated: " ++ joint_name c)].
    split; [ exact Hscene | ]. split; [ apply Hshape; exact Htr | ].
    split; [ reflexivity | ]. split; [ reflexivity | ].
    cbv zeta. fold start. rewrite Hindex.
    split; [ exact Hb | ].
    rewrite Hcode', Hfree. split; discriminate.
  - exists scene, (snd filled ++ before), t, q, b, [].
    split; [ exact Hscene | ].
    split; [ apply Hshape; rewrite app_nil_r; exact Htr | ].
    split; [ reflexivity | ]. split; [ reflexivity | ].
    cbv zeta. fold start. rewrite Hindex.
    split; [ exact Hb | ].
    rewrite Hcode', Hfree. split; discriminate.
Qed.

End CollisionCheck.

Lemma solve_collision_check_witness :
  exists r,
    solve 0%float (Examples.world (fun _ => true) false) (Some Examples.scene)
          Examples.request (Examples.parameters "linear") Examples.empty_response
    = Returned r
    /\ error_code_ (response r) = INVALID_MOTION_PLAN
    /\ exists earlier t q b final,
         trace r = earlier ++ NewOptimizer t q :: Optimize b :: final.
Proof.
  destruct (solve 0%float (Examples.world (fun _ => true) false) (Some Examples.scene)
              Examples.request (Examples.parameters "linear") Examples.empty_response)
    as [ r | | ] eqn:Hrun.
  2, 3: vm_compute in Hrun; discriminate.
  assert (Hcode : error_code_ (response r) = INVALID_MOTION_PLAN)
    by (vm_compute in Hrun; injection Hrun as <-; reflexivity).
  destruct (solve_collision_check 0%float _ _ _ _ _ _ Hrun (or_intror (or_introl Hcode)))
    as (scene & earlier & t & q & b & final & _ & Htrace & _).
  exists r. split; [ reflexivity | ]. split; [ exact Hcode | ].
  exists earlier, t, q, b, final. exact Htrace.
Defined.

(** * The goal state and the output states *)

Section GoalState.

Context {D : Type} `{DoubleOps D} {M : Type}.
Variable ext : Collaborators D M.

(** X20: The goal state is the start state with the joint constraints written
    over it in their order: the velocities and the positions of the
    variables that no constraint names are those of the start state, and a
    variable named by several constraints ends at the position of the last
    of them. *)
Theorem goal_state_of_positions (start_state : RobotState D) (goal : Constraints D) :
  let goal_state := goal_state_of ext start_state goal in
  let index c := getVariableIndex M ext (joint_name c) in
  (forall k, variable_velocity goal_state k = variable_velocity start_state k)
  /\ (forall k, (forall c, c ∈ joint_constraints goal -> index c <> k) ->
        variable_position goal_state k = variable_position start_state k)
  /\ (forall before c after,
        joint_constraints goal = before ++ c :: after ->
        (forall c', c' ∈ after -> index c' <> index c) ->
        variable_position goal_state (index c) = position c).
Proof.
  intros goal_state index. subst goal_state. unfold goal_state_of.
  generalize (joint_constraints goal) as cs. intros cs. revert start_state.
  induction cs as [ | c0 cs IH ]; intros start_state.
  - simpl. split; [ reflexivity | ]. split; [ reflexivity | ].
    intros before c after Heq. destruct before; discriminate.
  - cbn [foldl].
    destruct (IH (setVariablePosition (getVariableIndex M ext (joint_name c0))
                    (position c0) start_state)) as (Hvel & Hother & Hlast).
    split; [ intros k; rewrite Hvel; reflexivity | ].
    split.
    + intros k Hk. rewrite Hother.
      * simpl. destruct (Nat.eqb_spec k (getVariableIndex M ext (joint_name c0))) as [-> | _];
          [ | reflexivity ].
        contradiction (Hk c0); [ left | reflexivity ].
      * intros c Hc. apply Hk. right. exact Hc.
    + intros before c after Heq Hafter. destruct before as [ | b before ].
      * simpl in Heq. injection Heq as <- <-.
        rewrite Hother.
        -- simpl. rewrite Nat.eqb_refl. reflexivity.
        -- exact Hafter.
      * simpl in Heq. injection Heq as <- ->.
        apply (Hlast before c after eq_refl Hafter).
Qed.

End GoalState.

Section OutputStates.

Context {D : Type} `{DoubleOps D} {M : Type}.
Variable u : D.
Variable ext : Collaborators D M.

(** X21: Every output state is the start state with the variables of the
    group's active joints written over: whenever [solve] returns with the
    output built, each waypoint of the trajectory in the response has, for
    every variable that is the first variable of no active joint of the
    group, the position and the velocity of the start state. *)
Theorem solve_output_keeps_other_variables (planning_scene : option (PlanningScene D))
    (req : MotionPlanRequest D M) (params : ChompParameters D)
    (res : MotionPlanDetailedResponse D) (r : SolveReturn D) :
  solve u ext planning_scene req params res = Returned r ->
  error_code_ (response r) = SUCCESS
  \/ error_code_ (response r) = INVALID_MOTION_PLAN
  \/ error_code_ (response r) = GOAL_CONSTRAINTS_VIOLATED ->
  exists scene result,
    planning_scene = Some scene
    /\ res_trajectory_ (response r) = [result]
    /\ let joints := getActiveJointModels (getRobotModel scene (group_name M req)) in
       let start_state :=
         robotStateMsgToRobotState M ext scene (start_state M req) (getCurrentState scene) in
       forall (wp : RobotState D) (index : nat),
         wp ∈ waypoints result ->
         index ∉ map getFirstVariableIndex joints ->
         variable_position wp index = variable_position start_state index
         /\ variable_velocity wp index = variable_velocity start_state index.
Proof.
  intros Hrun Hcode.
  destruct (solve_after_loop u ext _ _ _ _ _ Hrun Hcode)
    as (scene & trajectory & result & Hscene & Hout & Hnp & Htraj & _).
  exists scene, result. split; [ exact Hscene | ]. split; [ exact Htraj | ].
  intros joints start_state wp index Hwp Hindex.
  unfold output_trajectory in Hout. cbv zeta in Hout.
  replace (seqZ 0 (getNumPoints trajectory))
    with (seqZ 0 (Z.of_nat (Z.to_nat (getNumPoints trajectory)))) in Hout
    by (rewrite Z2Nat.id; [ reflexivity | lia ]).
  apply output_rows in Hout. destruct Hout as (_ & _ & _ & Hrows).
  apply list_elem_of_lookup in Hwp as [i Hi].
  destruct (Hrows i wp Hi) as (source & final & _ & Hfinal & ->).
  destruct (output_joints_run _ _ _ _ _ _ _ _ _ Hfinal) as [Hother _].
  exact (Hother index Hindex).
Qed.



End OutputStates.

Lemma solve_output_keeps_other_variables_witness :
  exists r result,
    solve 0%float (Examples.world (fun _ => false) true) (Some Examples.scene)
          Examples.request (Examples.parameters "linear") Examples.empty_response
    = Returned r
    /\ res_trajectory_ (response r) = [result]
    /\ forall wp, wp ∈ waypoints result ->
         variable_position wp 1%nat = 3%float /\ variable_velocity wp 1%nat = 0%float.
Proof.
  destruct (solve 0%float (Examples.world (fun _ => false) true) (Some Examples.scene)
              Examples.request (Examples.parameters "linear") Examples.empty_response)
    as [ r | | ] eqn:Hrun.
  2, 3: vm_compute in Hrun; discriminate.
  assert (Hcode : error_code_ (response r) = SUCCESS)
    by (vm_compute in Hrun; injection Hrun as <-; reflexivity).
  destruct (solve_output_keeps_other_variables 0%float _ _ _ _ _ _ Hrun (or_introl Hcode))
    as (scene & result & Hscene & Htraj & Hkeep).
  injection Hscene as <-.
  exists r, result. split; [ reflexivity | ]. split; [ exact Htraj | ].
  intros wp Hwp. apply (Hkeep wp 1%nat Hwp).
  simpl. intros Hin. apply list_elem_of_singleton in Hin. discriminate.
Defined.


(** * The trajectory the first optimizer is built on *)

Section Shapes.

Context {D : Type} `{DoubleOps D}.

Lemma set_at_shape (columns : nat) (m : Matrix D) (i j : Z) (v : D) :
  Forall (fun row => length row = columns) m ->
  Forall (fun row => length row = columns) (set_at m i j v).
Proof.
  intros Hshape. unfold set_at.
  destruct (m !! Z.to_nat i) as [ row | ] eqn:Hrow; [ | exact Hshape ].
  apply Forall_insert; [ exact Hshape | ].
  rewrite length_insert.
  exact (Forall_lookup_1 (fun row => length row = columns) m _ _ Hshape Hrow).
Qed.

Lemma fix_goal_shape (u : D) (sad : D -> D -> D) (joints : list JointModel) (goal_index : Z)
    (columns : nat) (m : Matrix D) :
  Forall (fun row => length row = columns) m ->
  Forall (fun row => length row = columns) (fix_goal u sad joints goal_index m).
Proof.
  unfold fix_goal.
  generalize (seqZ 0 (Z.of_nat (length joints))). intros l. revert m.
  induction l as [ | i l IH ]; intros m Hshape; simpl; [ exact Hshape | ].
  apply IH. unfold fix_goal_step.
  destruct (joints !! Z.to_nat i) as [ model | ]; [ | exact Hshape ].
  destruct (jm_kind model) as [ [ | ] | | | | ]; try exact Hshape.
  apply set_at_shape. exact Hshape.
Qed.

End Shapes.

Section BoundaryLayout.

Context {M : Type}.
Variable u : float.
Variable ext : Collaborators float M.
Variable scene : PlanningScene float.
Variable group : string.

Let columns := length (getActiveJointModels (getRobotModel scene group)).

(** [robotStateToArray] writes into the row it is given. *)
Hypothesis robotStateToArray_length :
  forall state row,
    length row = columns -> length (robotStateToArray M ext state group row) = columns.

Lemma write_state_row_shape (state : RobotState float) (i : Z) (m : Matrix float) :
  Forall (fun row => length row = columns) m ->
  Forall (fun row => length row = columns) (write_state_row ext state group i m).
Proof.
  intros Hshape. unfold write_state_row.
  destruct (m !! Z.to_nat i) as [ row | ] eqn:Hrow; [ | exact Hshape ].
  unfold set_row. apply Forall_insert; [ exact Hshape | ].
  apply robotStateToArray_length.
  exact (Forall_lookup_1 (fun row => length row = columns) m _ _ Hshape Hrow).
Qed.

(** The buffer of [solve] before the initial fill, in binary64. *)
Lemma boundary_trajectory_layout (start_state goal_state : RobotState float) :
  let buffer := boundary_trajectory u ext scene group start_state goal_state in
  num_points_ buffer = 89
  /\ num_joints_ buffer = Z.of_nat columns
  /\ start_index_ buffer = 1
  /\ end_index_ buffer = 87
  /\ length (trajectory_ buffer) = 89%nat
  /\ Forall (fun row => length row = columns) (trajectory_ buffer)
  /\ getTrajectoryPoint buffer 0
     = Some (robotStateToArray M ext start_state group (replicate columns u)).
Proof.
  intros buffer.
  set (fresh := ChompTrajectory_of_duration u (getRobotModel scene)
                  (d_of_Z 3) (d_lit 3409 100000) group).
  assert (Hnp : num_points_ fresh = 89) by (vm_compute; reflexivity).
  assert (Hend : end_index_ fresh = 87) by (vm_compute; reflexivity).
  assert (Hrows : trajectory_ fresh = replicate 89 (replicate columns u)).
  { subst fresh. unfold ChompTrajectory_of_duration in *.
    cbn [ChompTrajectory_of_points trajectory_ num_points_] in *.
    rewrite Hnp. unfold init. fold columns. rewrite Nat2Z.id. reflexivity. }
  subst buffer. unfold boundary_trajectory. fold fresh.
  cbn [num_points_ num_joints_ start_index_ end_index_ trajectory_ with_trajectory
       getNumPoints].
  rewrite Hnp. change (size_t_of (89 - 1)) with 88.
  split; [ reflexivity | ]. split; [ reflexivity | ]. split; [ reflexivity | ].
  split; [ exact Hend | ].
  split.
  { rewrite length_fix_goal. unfold write_state_row at 1.
    destruct (_ !! Z.to_nat 88); [ unfold set_row; rewrite length_insert | ];
      unfold write_state_row;
      (destruct (_ !! Z.to_nat 0); [ unfold set_row; rewrite length_insert | ]);
      rewrite Hrows; apply length_replicate. }
  split.
  { apply fix_goal_shape. do 2 apply write_state_row_shape.
    rewrite Hrows. apply Forall_replicate. apply length_replicate. }
  unfold getTrajectoryPoint.
  cbn [trajectory_ with_trajectory].
  rewrite fix_goal_other_rows by (vm_compute; discriminate).
  rewrite write_state_row_other by (vm_compute; discriminate).
  unfold write_state_row. rewrite Hrows.
  change (Z.to_nat 0) with 0%nat. cbn [replicate lookup list_lookup].
  unfold set_row. reflexivity.
Qed.

End BoundaryLayout.

Section FirstOptimizer.

Context {M : Type}.
Variable u : float.
Variable ext : Collaborators float M.

(** X23: The trajectory that reaches the first optimizer, in binary64.  For a
    request that passes validation and the method [quintic-spline],
    [linear] or [cubic], when [robotStateToArray] writes into the row it is
    given without resizing it, the first thing [solve] does is to build an
    optimizer with the caller's parameters on a buffer of 89 rows of one
    column per active joint, of free range 1 to 87, whose first row is the
    start state written by [robotStateToArray] and whose last row is the
    goal row as the goal adjustment left it. *)
Theorem solve_first_optimizer_trajectory (planning_scene : option (PlanningScene float))
    (req : MotionPlanRequest float M) (params : ChompParameters float)
    (res : MotionPlanDetailedResponse float) (r : SolveReturn float) :
  (forall scene state row,
     planning_scene = Some scene ->
     length row = length (getActiveJointModels (getRobotModel scene (group_name M req))) ->
     length (robotStateToArray M ext state (group_name M req) row) = length row) ->
  trajectory_initialization_method_ params = "quintic-spline"%string
  \/ trajectory_initialization_method_ params = "linear"%string
  \/ trajectory_initialization_method_ params = "cubic"%string ->
  solve u ext planning_scene req params res = Returned r ->
  attempts (trace r) <> [] ->
  exists scene goal t rest,
    planning_scene = Some scene
    /\ goal_constraints M req = [goal]
    /\ trace r = NewOptimizer t params :: rest
    /\ let group := group_name M req in
       let columns := length (getActiveJointModels (getRobotModel scene group)) in
       let start_state :=
         robotStateMsgToRobotState M ext scene (start_state M req) (getCurrentState scene) in
       num_points_ t = 89
       /\ start_index_ t = 1
       /\ end_index_ t = 87
       /\ length (trajectory_ t) = 89%nat
       /\ Forall (fun row => length row = columns) (trajectory_ t)
       /\ getTrajectoryPoint t 0
          = Some (robotStateToArray M ext start_state group (replicate columns u))
       /\ getTrajectoryPoint t 88
          = getTrajectoryPoint
              (boundary_trajectory u ext scene group start_state
                 (goal_state_of ext start_state goal)) 88.
Proof.
  intros Hwrite Hmethod Hrun Hbuilt.
  destruct (solve_returned _ _ _ _ _ _ _ Hrun)
    as [ (code & msg & -> & _)
       | (scene & goal & Hscene & Hgoals & _ & _ & _ & Hreport) ].
  { contradiction Hbuilt. reflexivity. }
  set (start := robotStateMsgToRobotState M ext scene (start_state M req)
                                          (getCurrentState scene)) in *.
  set (buffer := boundary_trajectory u ext scene (group_name M req) start
                                     (goal_state_of ext start goal)) in *.
  destruct (boundary_trajectory_layout u ext scene (group_name M req)
              ltac:(intros state row Hrow; rewrite (Hwrite scene state row Hscene Hrow);
                    exact Hrow)
              start (goal_state_of ext start goal))
    as (Hnp & Hnj & Hs & He & Hlen & Hshape & Hrow0).
  fold buffer in Hnp, Hnj, Hs, He, Hlen, Hshape, Hrow0.
  set (columns := length (getActiveJointModels (getRobotModel scene (group_name M req)))) in *.
  assert (Hshape' : Forall (fun row => length row = Z.to_nat (num_joints_ buffer))
                           (trajectory_ buffer)).
  { rewrite Hnj, Nat2Z.id. exact Hshape. }
  assert (Hfilled : snd (initial_fill u ext params buffer) = []
            /\ num_points_ (fst (initial_fill u ext params buffer)) = 89
            /\ start_index_ (fst (initial_fill u ext params buffer)) = 1
            /\ end_index_ (fst (initial_fill u ext params buffer)) = 87
            /\ length (trajectory_ (fst (initial_fill u ext params buffer))) = 89%nat
            /\ Forall (fun row => length row = columns)
                      (trajectory_ (fst (initial_fill u ext params buffer)))
            /\ (forall i, 0 <= i <= 0 \/ 88 <= i ->
                  getTrajectoryPoint (fst (initial_fill u ext params buffer)) i
                  = getTrajectoryPoint buffer i)).
  { assert (Hcells : forall filled : ChompTrajectory float,
              num_points_ filled = num_points_ buffer ->
              start_index_ filled = start_index_ buffer ->
              end_index_ filled = end_index_ buffer ->
              (length (trajectory_ filled) = length (trajectory_ buffer)
               /\ Forall (fun row => length row = Z.to_nat (num_joints_ buffer))
                         (trajectory_ filled)
               /\ (forall i, 0 <= i <= start_index_ buffer - 1 \/ end_index_ buffer + 1 <= i ->
                     trajectory_ filled !! Z.to_nat i = trajectory_ buffer !! Z.to_nat i)) ->
              num_points_ filled = 89
              /\ start_index_ filled = 1
              /\ end_index_ filled = 87
              /\ length (trajectory_ filled) = 89%nat
              /\ Forall (fun row => length row = columns) (trajectory_ filled)
              /\ (forall i, 0 <= i <= 0 \/ 88 <= i ->
                    getTrajectoryPoint filled i = getTrajectoryPoint buffer i)).
    { intros filled Hfnp Hfs Hfe (Hfl & Hfshape & Hfout).
      split; [ congruence | ]. split; [ congruence | ]. split; [ congruence | ].
      split; [ congruence | ].
      split; [ rewrite Hnj, Nat2Z.id in Hfshape; exact Hfshape | ].
      intros i Hi. unfold getTrajectoryPoint. apply Hfout. rewrite Hs, He. lia. }
    unfold initial_fill.
    destruct Hmethod as [-> | [-> | ->]]; cbn [String.eqb Ascii.eqb Bool.eqb fst snd];
      (split; [ reflexivity | ]); apply Hcells; try reflexivity.
    - destruct (fillInMinJerk_cells u buffer) as (Hl & Hsh & Hout & _);
        try (rewrite ?Hs, ?He, ?Hnp, ?Hlen; first [ lia | reflexivity | exact Hshape' ]).
      split; [ exact Hl | ]. split; [ exact Hsh | exact Hout ].
    - destruct (fillInLinearInterpolation_cells u buffer) as (Hl & Hsh & Hout & _);
        try (rewrite ?Hs, ?He, ?Hnp, ?Hlen; first [ lia | reflexivity | exact Hshape' ]).
      split; [ exact Hl | ]. split; [ exact Hsh | exact Hout ].
    - destruct (fillInCubicInterpolation_cells u buffer) as (Hl & Hsh & Hout & _);
        try (rewrite ?Hs, ?He, ?Hnp, ?Hlen; first [ lia | reflexivity | exact Hshape' ]).
      split; [ exact Hl | ]. split; [ exact Hsh | exact Hout ]. }
  destruct Hfilled as (Hlog & Hfnp & Hfs & Hfe & Hfl & Hfshape & Hfout).
  destruct (optimize_and_report_returned _ _ _ _ _ _ _ _ _ _ _ Hreport)
    as (exit & Hloop & _ & Hcases).
  destruct (recovery_loop_handover _ _ _ _ _ _ _ Hloop) as (tail & Htrace & _).
  cbn [replan_flag params_nonconst loop_trajectory loop_trace] in Htrace.
  rewrite Hlog in Htrace. cbn [app] in Htrace.
  assert (Hr : exists rest,
            trace r = NewOptimizer (fst (initial_fill u ext params buffer)) params :: rest).
  { destruct Hcases
      as [ (_ & _ & _ & _ & Htr)
         | (_ & result & opt & _ & _ & _ & _ & _ &
            [ (_ & _ & _ & Htr)
            | (_ & last_state & _ &
               [ (c & _ & _ & _ & Htr) | (_ & _ & _ & Htr) ]) ]) ];
      rewrite Htr, Htrace; eexists; try reflexivity;
      rewrite <- app_comm_cons; reflexivity. }
  destruct Hr as (rest & Hr).
  exists scene, goal, (fst (initial_fill u ext params buffer)), rest.
  split; [ exact Hscene | ]. split; [ exact Hgoals | ]. split; [ exact Hr | ].
  cbv zeta. fold start columns buffer.
  split; [ exact Hfnp | ]. split; [ exact Hfs | ]. split; [ exact Hfe | ].
  split; [ exact Hfl | ]. split; [ exact Hfshape | ].
  split.
  - rewrite Hfout by lia. exact Hrow0.
  - apply Hfout. lia.
Qed.

End FirstOptimizer.

Lemma solve_first_optimizer_trajectory_witness :
  exists r t rest,
    solve 0%float (Examples.world (fun _ => false) true) (Some Examples.scene)
          Examples.request (Examples.parameters "linear") Examples.empty_response
    = Returned r
    /\ trace r = NewOptimizer t (Examples.parameters "linear") :: rest
    /\ getTrajectoryPoint t 0 = Some [3%float].
Proof.
  destruct (solve 0%float (Examples.world (fun _ => false) true) (Some Examples.scene)
              Examples.request (Examples.parameters "linear") Examples.empty_response)
    as [ r | | ] eqn:Hrun.
  2, 3: vm_compute in Hrun; discriminate.
  destruct (solve_first_optimizer_trajectory 0%float (Examples.world (fun _ => false) true)
              (Some Examples.scene) Examples.request (Examples.parameters "linear")
              Examples.empty_response r)
    as (scene & goal & t & rest & Hscene & _ & Htrace & _ & _ & _ & _ & _ & Hrow0 & _).
  - intros scene state row Hscene Hrow. injection Hscene as <-.
    rewrite Hrow. reflexivity.
  - right. left. reflexivity.
  - exact Hrun.
  - vm_compute in Hrun. injection Hrun as <-. discriminate.
  - injection Hscene as <-.
    exists r, t, rest. split; [ reflexivity | ]. split; [ exact Htrace | exact Hrow0 ].
Defined.
